(** * Explanation post-processing of the SageMaker Clarify example notebooks

    A shallow embedding of the data-transformation code of two notebooks:

    - the text-explainability notebook: [create_target_column], the loop
      that fills [shap_out], the comprehensions building
      [attributions_dataset] and [tokens_dataset], [visualization_record]
      and the loop that fills [vis];
    - the fairness-and-explainability notebook: [number_encode_features] and
      the frames around it.

    Python exceptions are values of [exn] carried by the [result] monad.
    NumPy arithmetic is written once against the interface [NumOps]; the
    notebook runs it in IEEE binary64 ([float_ops]), and the properties
    that depend on the arithmetic are proved of that instance, from the
    specification of the primitive floats. *)

From Stdlib Require Import String Ascii.
From Stdlib Require Import ZArith List Bool Lia Permutation Sorted.
From Stdlib Require Import Floats.
Import ListNotations.

Set Warnings "-inexact-float,-register-all".
Set Implicit Arguments.

(** ** Python exceptions and the error monad *)

Inductive exn : Type :=
| ValueError
| KeyError
| IndexError
| TypeError
| OverflowError.

Inductive result (A : Type) : Type :=
| OK (a : A)
| Raise (e : exn).

Arguments OK {A} a.
Arguments Raise {A} e.

Definition bind {A B : Type} (r : result A) (k : A -> result B) : result B :=
  match r with
  | OK a => k a
  | Raise e => Raise e
  end.

Notation "x <- r ;; k" := (bind r (fun x => k))
  (at level 61, r at next level, right associativity).

(** A comprehension [[f(x) for x in l]]: the first exception aborts the
    whole comprehension and no list is produced. *)
Fixpoint comprehension {A B : Type} (f : A -> result B) (l : list A)
  : result (list B) :=
  match l with
  | [] => OK []
  | x :: l' => y <- f x ;; ys <- comprehension f l' ;; OK (y :: ys)
  end.

(** ** The arithmetic interface *)

Class NumOps (R : Type) : Type := {
  nzero : R;                 (* the entries of [np.zeros_like] *)
  nunit : R;                 (* the literal [1] *)
  nhalf : R;                 (* the literal [0.5] *)
  nopp : R -> R;             (* unary minus *)
  nabs : R -> R;             (* [np.abs] *)
  nadd : R -> R -> R;
  nmul : R -> R -> R;
  ndiv : R -> R -> R;        (* true division; never raises on arrays *)
  nltb : R -> R -> bool;     (* [x < y]; [x > y] is [nltb y x] *)
  neqb : R -> R -> bool;     (* [x == y] *)
  nof_nat : nat -> R;        (* the conversion of [shape[0]] in [f * n] *)
  ntrunc : R -> result Z     (* [int(x)] *)
}.

(** *** IEEE binary64 *)

(** [int(x)] on a float: truncation toward zero; [ValueError] on NaN and
    [OverflowError] on an infinity. *)
Definition float_trunc (x : float) : result Z :=
  match Prim2SF x with
  | S754_zero _ => OK 0%Z
  | S754_infinity _ => Raise OverflowError
  | S754_nan => Raise ValueError
  | S754_finite s m e =>
      let a := if (0 <=? e)%Z then (Z.pos m * 2 ^ e)%Z
               else (Z.pos m / 2 ^ (- e))%Z in
      OK (if s then (- a)%Z else a)
  end.

(** The float nearest to a length (round to nearest even, as Python's
    conversion of an [int]). *)
Definition float_of_nat (n : nat) : float :=
  SF2Prim (binary_normalize prec emax (Z.of_nat n) 0 false).

#[export] Instance float_ops : NumOps float := {
  nzero := 0%float;
  nunit := 1%float;
  nhalf := 0.5%float;
  nopp := PrimFloat.opp;
  nabs := PrimFloat.abs;
  nadd := PrimFloat.add;
  nmul := PrimFloat.mul;
  ndiv := PrimFloat.div;
  nltb := PrimFloat.ltb;
  neqb := PrimFloat.eqb;
  nof_nat := float_of_nat;
  ntrunc := float_trunc
}.

(** ** [visualization_record] *)

(** What [captum.attr.visualization.VisualizationDataRecord] stores, in the
    order of its constructor's arguments. *)
Record VisualizationDataRecord (R L T : Type) : Type := {
  word_attributions : list R;
  pred_prob : R;
  pred_class : Z;
  true_class : L;
  attr_class : bool;
  attr_score : R;
  raw_input_ids : list T;
  convergence_score : R
}.

Section Visualization.

Context {R : Type} {ops : NumOps R}.

(** The outcome of the call [np.argsort(v)]. NumPy's default kind is
    [quicksort], which is not stable: the call is taken as a parameter, and
    [argsort_ok] below is what NumPy promises about its outcome. *)
Variable argsort : list R -> list nat.

(** The builtin [max] on a sequence: the running maximum is replaced when
    an item is strictly greater; [ValueError] on an empty sequence. *)
Fixpoint py_max_from (cur : R) (l : list R) : R :=
  match l with
  | [] => cur
  | x :: l' => py_max_from (if nltb cur x then x else cur) l'
  end.

Definition py_max (l : list R) : result R :=
  match l with
  | [] => Raise ValueError
  | x :: l' => OK (py_max_from x l')
  end.

(** [max(x, y)]. *)
Definition py_max2 (x y : R) : R := py_max_from x [y].

(** [if normalize: attributions = attributions / max(max(attributions),
    max(-attributions))]. *)
Definition normalize_step (normalize : bool) (attributions : list R)
  : result (list R) :=
  if normalize then
    m1 <- py_max attributions ;;
    m2 <- py_max (map nopp attributions) ;;
    OK (map (fun x => ndiv x (py_max2 m1 m2)) attributions)
  else OK attributions.

(** The ranking vector [sal]. *)
Definition salience (attributions : list R) (pred : R) (match_to_pred : bool)
  : list R :=
  let sal := attributions in
  let sal := if nltb pred nhalf then map nopp sal else sal in
  if negb match_to_pred then map nabs sal else sal.

(** The slice [l[:k]] for a Python integer [k]. *)
Definition py_slice_to {A : Type} (k : Z) (l : list A) : list A :=
  if (0 <=? k)%Z then firstn (Z.to_nat k) l
  else firstn (Z.to_nat (Z.of_nat (length l) + k)) l.

(** [l[i] = v] at one position. *)
Fixpoint set_item (l : list R) (i : nat) (v : R) : list R :=
  match l, i with
  | [], _ => []
  | _ :: l', O => v :: l'
  | x :: l', S i' => x :: set_item l' i' v
  end.

(** [mask[idxs] = v]: [IndexError] when an index is out of bounds. *)
Definition set_items (mask : list R) (idxs : list nat) (v : R)
  : result (list R) :=
  if forallb (fun i => Nat.ltb i (length mask)) idxs
  then OK (fold_left (fun m i => set_item m i v) idxs mask)
  else Raise IndexError.

(** The elementwise product of two arrays of one shape. *)
Definition mul_arrays (a b : list R) : list R :=
  map (fun p => nmul (fst p) (snd p)) (combine a b).

Definition top_idxs_of (num_show : Z) (sal : list R) : list nat :=
  py_slice_to num_show (argsort (map nopp sal)).

(** [if max_frac_to_show is not None and max_frac_to_show < 1: ...]. *)
Definition select_step (max_frac_to_show : option R) (match_to_pred : bool)
           (pred : R) (attributions : list R) : result (list R) :=
  match max_frac_to_show with
  | None => OK attributions
  | Some f =>
      if nltb f nunit then
        num_show <- ntrunc (nmul f (nof_nat (length attributions))) ;;
        let sal := salience attributions pred match_to_pred in
        let top_idxs := top_idxs_of num_show sal in
        mask <- set_items (map (fun _ => nzero) attributions) top_idxs nunit ;;
        OK (mul_arrays attributions mask)
      else OK attributions
  end.

(** [attributions.sum()], accumulated from the left (NumPy's pairwise
    order of additions, which only matters to rounding, is not
    reproduced). *)
Definition array_sum (a : list R) : R := fold_left nadd a nzero.

(** [int(pred > 0.5)]. *)
Definition predicted_class (pred : R) : Z :=
  if nltb nhalf pred then 1%Z else 0%Z.

Definition visualization_record {L T : Type}
           (attributions : list R) (text : list T) (pred delta : R)
           (true_label : L) (normalize : bool)
           (max_frac_to_show : option R) (match_to_pred : bool)
  : result (VisualizationDataRecord R L T) :=
  attributions <- normalize_step normalize attributions ;;
  attributions <- select_step max_frac_to_show match_to_pred pred attributions ;;
  OK {| word_attributions := attributions;
        pred_prob := pred;
        pred_class := predicted_class pred;
        true_class := true_label;
        attr_class := nltb nzero (array_sum attributions);
        attr_score := array_sum attributions;
        raw_input_ids := text;
        convergence_score := delta |}.

(** *** What NumPy promises about [np.argsort] *)

(** The comparison NumPy sorts floats with: NaN is placed last. *)
Definition np_lt (x y : R) : bool :=
  nltb x y || (negb (neqb y y) && neqb x x).

Fixpoint np_sorted_by (v : list R) (idxs : list nat) : bool :=
  match idxs with
  | [] => true
  | i :: rest =>
      forallb (fun j => negb (np_lt (nth j v nzero) (nth i v nzero))) rest
      && np_sorted_by v rest
  end.

Fixpoint remove_one (i : nat) (l : list nat) : option (list nat) :=
  match l with
  | [] => None
  | j :: l' =>
      if Nat.eqb i j then Some l'
      else match remove_one i l' with
           | Some r => Some (j :: r)
           | None => None
           end
  end.

(** [idxs] lists each of [0 .. n-1] once. *)
Fixpoint is_perm_of (idxs range : list nat) : bool :=
  match idxs with
  | [] => match range with [] => true | _ => false end
  | i :: rest =>
      match remove_one i range with
      | Some range' => is_perm_of rest range'
      | None => false
      end
  end.

(** [idxs] is an admissible outcome of [np.argsort(v)]: a permutation of
    the positions of [v] along which the values never decrease. Nothing is
    promised about the order of equal values. *)
Definition argsort_ok (v : list R) (idxs : list nat) : bool :=
  is_perm_of idxs (seq 0 (length v)) && np_sorted_by v idxs.

End Visualization.

(** A stable argsort, by insertion from the right: among equal values the
    smaller position comes first. *)
Fixpoint insert_idx {R : Type} (lt : R -> R -> bool) (v : list R) (d : R)
         (i : nat) (sorted : list nat) : list nat :=
  match sorted with
  | [] => [i]
  | j :: rest =>
      if lt (nth j v d) (nth i v d) then j :: insert_idx lt v d i rest
      else i :: sorted
  end.

Definition stable_argsort {R : Type} {ops : NumOps R} (v : list R) : list nat :=
  fold_right (insert_idx np_lt v nzero) [] (seq 0 (length v)).

(** ** [create_target_column] *)

(** A row of the reviews frame: the integer [Rating] column ("Positive
    Ordinal Integer variable" in the notebook's description of the data) and
    the row's other cells. *)
Record review_row (A : Type) : Type := {
  Rating : Z;
  other_columns : A
}.

(** [range(a, b)]. *)
Definition py_range (a b : Z) : list Z :=
  map (fun i => (a + Z.of_nat i)%Z) (seq 0 (Z.to_nat (b - a))).

(** [df[df["Rating"] != neutral_value]]. *)
Definition drop_rating {A : Type} (df : list (review_row A)) (neutral_value : Z)
  : list (review_row A) :=
  filter (fun r => negb (Rating r =? neutral_value)%Z) df.

Definition replace_dict (b : bool) : Z := if b then 1%Z else 0%Z.

(** The returned frame: the remaining rows, each with its cell of the new
    [Sentiment] column. *)
Definition create_target_column {A : Type} (df : list (review_row A))
           (min_positive_score max_negative_score : Z)
  : list (review_row A * Z) :=
  let neutral_values := py_range (max_negative_score + 1) min_positive_score in
  let df := fold_left drop_rating neutral_values df in
  let sentiment := map (fun r => (min_positive_score <=? Rating r)%Z) df in
  let sentiment := map replace_dict sentiment in
  combine df sentiment.

(** ** [attributions_dataset] and [tokens_dataset] *)

(** What [json.loads] returns. An object is the list of the items of the
    parsed [dict], whose keys are distinct. *)
Inductive json : Type :=
| JNull
| JBool (b : bool)
| JInt (z : Z)
| JFloat (x : float)
| JStr (s : string)
| JArr (items : list json)
| JObj (fields : list (string * json)).

Fixpoint dict_get (fields : list (string * json)) (key : string) : result json :=
  match fields with
  | [] => Raise KeyError
  | (k, v) :: rest => if String.eqb k key then OK v else dict_get rest key
  end.

(** [x[key]] for a string [key]. *)
Definition getitem (x : json) (key : string) : result json :=
  match x with
  | JObj fields => dict_get fields key
  | _ => Raise TypeError
  end.

(** [x[0]]. *)
Definition getitem0 (x : json) : result json :=
  match x with
  | JArr [] => Raise IndexError
  | JArr (y :: _) => OK y
  | JStr EmptyString => Raise IndexError
  | JStr (String c _) => OK (JStr (String c EmptyString))
  | JObj _ => Raise KeyError
  | _ => Raise TypeError
  end.

Fixpoint chars (s : string) : list json :=
  match s with
  | EmptyString => []
  | String c s' => JStr (String c EmptyString) :: chars s'
  end.

(** The items [for attr in x] runs over. *)
Definition iter (x : json) : result (list json) :=
  match x with
  | JArr items => OK items
  | JObj fields => OK (map (fun kv => JStr (fst kv)) fields)
  | JStr s => OK (chars s)
  | _ => Raise TypeError
  end.

(** [expl["explanations"][0]["attributions"]], ready to be iterated. *)
Definition entries (expl : json) : result (list json) :=
  e <- getitem expl "explanations" ;;
  e <- getitem0 e ;;
  e <- getitem e "attributions" ;;
  iter e.

(** [attr["attribution"][0]] and [attr["description"]["partial_text"]]. *)
Definition attribution_of (attr : json) : result json :=
  a <- getitem attr "attribution" ;; getitem0 a.

Definition token_of (attr : json) : result json :=
  d <- getitem attr "description" ;; getitem d "partial_text".

(** The inner comprehension for one record; [np.array] keeps the values in
    order. *)
Definition record_attributions (expl : json) : result (list json) :=
  attrs <- entries expl ;; comprehension attribution_of attrs.

Definition record_tokens (expl : json) : result (list json) :=
  attrs <- entries expl ;; comprehension token_of attrs.

Definition attributions_dataset (shap_out : list json) : result (list (list json)) :=
  comprehension record_attributions shap_out.

Definition tokens_dataset (shap_out : list json) : result (list (list json)) :=
  comprehension record_tokens shap_out.

(** The cell that builds both lists: the second comprehension only runs
    when the first one returned. *)
Definition build_datasets (shap_out : list json)
  : result (list (list json) * list (list json)) :=
  a <- attributions_dataset shap_out ;;
  t <- tokens_dataset shap_out ;;
  OK (a, t).

(** ** [number_encode_features] *)

(** A column with its dtype. A cell of an [object] column is a string or
    missing. *)
Inductive column : Type :=
| IntCol (cells : list Z)
| FloatCol (cells : list float)
| BoolCol (cells : list bool)
| ObjCol (cells : list (option string)).

(** A frame: its columns in order. *)
Definition DataFrame : Type := list (string * column).

Definition is_object (c : column) : bool :=
  match c with
  | ObjCol _ => true
  | _ => false
  end.

Definition column_length (c : column) : nat :=
  match c with
  | IntCol l => length l
  | FloatCol l => length l
  | BoolCol l => length l
  | ObjCol l => length l
  end.

(** The frames modelled have distinct column labels, as those read with
    [names=adult_columns]: under a repeated label [result.dtypes[column]] is
    no longer a single dtype. *)
Definition wf_frame (df : DataFrame) : Prop := NoDup (map fst df).

Fixpoint get_column (df : DataFrame) (name : string) : result column :=
  match df with
  | [] => Raise KeyError
  | (n, c) :: rest => if String.eqb n name then OK c else get_column rest name
  end.

(** [df[name] = c] for a column that exists is a replacement in place; a new
    name is appended. *)
Fixpoint set_column (df : DataFrame) (name : string) (c : column) : DataFrame :=
  match df with
  | [] => [(name, c)]
  | (n, c0) :: rest =>
      if String.eqb n name then (n, c) :: rest
      else (n, c0) :: set_column rest name c
  end.

(** [np.unique] on strings: the distinct values in increasing order. *)
Fixpoint insert_unique (s : string) (classes : list string) : list string :=
  match classes with
  | [] => [s]
  | c :: rest =>
      if String.eqb s c then classes
      else if String.ltb s c then s :: classes
      else c :: insert_unique s rest
  end.

Definition unique_sorted (y : list string) : list string :=
  fold_right insert_unique [] y.

Fixpoint index_of (s : string) (classes : list string) : nat :=
  match classes with
  | [] => 0
  | c :: rest => if String.eqb s c then 0 else S (index_of s rest)
  end.

(** A fitted [LabelEncoder] is its [classes_]. *)
Definition LabelEncoder : Type := list string.

(** [LabelEncoder().fit_transform(y)]: the encoder and the codes. *)
Definition fit_transform (y : list string) : LabelEncoder * list Z :=
  let classes := unique_sorted y in
  (classes, map (fun s => Z.of_nat (index_of s classes)) y).

(** [.fillna("None")] on an object column. *)
Definition fillna_None (cells : list (option string)) : list string :=
  map (fun c => match c with Some s => s | None => "None"%string end) cells.

(** One turn of the loop over [result.columns]. *)
Definition encode_column (st : DataFrame * list (string * LabelEncoder))
           (name : string) : result (DataFrame * list (string * LabelEncoder)) :=
  let (result, encoders) := st in
  c <- get_column result name ;;
  match c with
  | ObjCol cells =>
      let (enc, codes) := fit_transform (fillna_None cells) in
      OK (set_column result name (IntCol codes), encoders ++ [(name, enc)])
  | _ => OK (result, encoders)
  end.

Fixpoint for_each {S A : Type} (body : S -> A -> result S) (l : list A) (st : S)
  : result S :=
  match l with
  | [] => OK st
  | x :: l' => st' <- body st x ;; for_each body l' st'
  end.

Definition number_encode_features (df : DataFrame)
  : result (DataFrame * list (string * LabelEncoder)) :=
  let result := df in
  for_each encode_column (map fst result) (result, []).

(** The displayed vector of a returned record. *)
Definition displayed {R L T : Type} (r : result (VisualizationDataRecord R L T))
  : result (list R) :=
  x <- r ;; OK (word_attributions x).

(** What [number_encode_features] makes of one column. *)
Definition encoded (c : column) : column :=
  match c with
  | ObjCol cells => IntCol (snd (fit_transform (fillna_None cells)))
  | _ => c
  end.

Definition encoded_frame (df : DataFrame) : DataFrame :=
  map (fun nc => (fst nc, encoded (snd nc))) df.

(** [codes] are label codes of the values [y]: one code per value, never
    negative, below the number of distinct values, and equal exactly on equal
    values. *)
Definition label_codes (y : list string) (codes : list Z) : Prop :=
  length codes = length y /\
  forall i j s t,
    nth_error y i = Some s -> nth_error y j = Some t ->
    exists ci cj,
      nth_error codes i = Some ci /\ nth_error codes j = Some cj /\
      (0 <= ci < Z.of_nat (length y))%Z /\ (ci = cj <-> s = t).

(** The call returned, with some value. *)
Definition returns {A : Type} (r : result A) : Prop := exists v, r = OK v.

(** A float zero of either sign. *)
Definition is_fzero (x : float) : Prop := x = zero \/ x = neg_zero.

(** ** Loops that append to a list *)

(** [for x in l: ... acc.append(y)]: the list is extended in place, so when
    an exception stops the loop the list holds what was appended before it.
    The body returns the value to append, or nothing when it skips [x]. *)
Fixpoint append_loop {A B : Type} (body : A -> result (option B))
         (l : list A) (acc : list B) : list B * option exn :=
  match l with
  | [] => (acc, None)
  | x :: l' =>
      match body x with
      | OK (Some y) => append_loop body l' (acc ++ [y])
      | OK None => append_loop body l' acc
      | Raise e => (acc, Some e)
      end
  end.

(** [s.split("\n")]. *)
Fixpoint split_newline (s : string) : list string :=
  match s with
  | EmptyString => [EmptyString]
  | String c s' =>
      if Ascii.eqb c "010"%char then EmptyString :: split_newline s'
      else match split_newline s' with
           | [] => [String c EmptyString]
           | line :: lines => String c line :: lines
           end
  end.

(** The loop that fills [shap_out] from the downloaded file; [json.loads]
    is taken as a parameter. *)
Definition load_shap_out (loads : string -> result json) (file : string)
  : list json * option exn :=
  append_loop
    (fun line =>
       match line with
       | EmptyString => OK None
       | _ => x <- loads line ;; OK (Some x)
       end)
    (split_newline file) [].

(** [zip(a, b, c, d)]. *)
Fixpoint zip4 {A B C D : Type} (a : list A) (b : list B) (c : list C) (d : list D)
  : list (A * B * C * D) :=
  match a, b, c, d with
  | x :: a', y :: b', z :: c', w :: d' => (x, y, z, w) :: zip4 a' b' c' d'
  | _, _, _, _ => []
  end.

(** [pred[0]] on a row of the deserialized predictions. *)
Definition row_first {S : Type} (row : list S) : result S :=
  match row with
  | [] => Raise IndexError
  | x :: _ => OK x
  end.

(** The loop that fills [vis]; [float] on a cell of the predictions is taken
    as a parameter. *)
Definition build_vis {R S L T : Type} {ops : NumOps R}
           (argsort : list R -> list nat) (py_float : S -> result R)
           (attributions_dataset : list (list R)) (tokens_dataset : list (list T))
           (preds : list (list S)) (labels : list L)
           (normalize : bool) (max_frac_to_show : option R) (match_to_pred : bool)
  : list (VisualizationDataRecord R L T) * option exn :=
  append_loop
    (fun '(attr, token, pred, label) =>
       p0 <- row_first pred ;;
       p <- py_float p0 ;;
       r <- visualization_record argsort attr token p nzero label
              normalize max_frac_to_show match_to_pred ;;
       OK (Some r))
    (zip4 attributions_dataset tokens_dataset preds labels) [].

(** A record of [out.jsonl] as the notebook describes it: one explanation
    per text feature, each unit with its attribution values and, under
    [description], its text and where it starts. *)
Definition clarify_entry (u : string * Z * list float) : json :=
  let '(partial_text, start_idx, attribution) := u in
  JObj [("attribution"%string, JArr (map JFloat attribution));
        ("description"%string,
         JObj [("partial_text"%string, JStr partial_text);
               ("start_idx"%string, JInt start_idx)])].

Definition clarify_record (feature_name : string)
           (units : list (string * Z * list float)) : json :=
  JObj [("explanations"%string,
         JArr [JObj [("feature_name"%string, JStr feature_name);
                     ("data_type"%string, JStr "free_text");
                     ("attributions"%string, JArr (map clarify_entry units))]])].

(** The string holds a line feed. *)
Fixpoint has_newline (s : string) : bool :=
  match s with
  | EmptyString => false
  | String c s' => Ascii.eqb c "010"%char || has_newline s'
  end.

(** The truth value of a string: it is not empty. *)
Definition nonempty (s : string) : bool :=
  match s with
  | EmptyString => false
  | String _ _ => true
  end.

(** ** The reviews frame after labelling *)

(** [df[~df["Review Text"].isna()]] on the labelled frame, the other cells
    of a row being its review text, missing or not. *)
Definition drop_missing_text {B : Type}
           (df : list (review_row (option string) * B))
  : list (review_row (option string) * B) :=
  filter (fun rs => match other_columns (fst rs) with
                    | Some _ => true
                    | None => false
                    end) df.

(** The cell: [df = create_target_column(df, 4, 2)], then the rows without
    a review text are dropped. *)
Definition prepare_reviews (df : list (review_row (option string)))
  : list (review_row (option string) * Z) :=
  drop_missing_text (create_target_column df 4 2).

(** ** The frames around [number_encode_features] *)

(** The encoders the loop fits: one per object column, in column order. *)
Definition fitted_encoders (df : DataFrame) : list (string * LabelEncoder) :=
  flat_map (fun nc => match snd nc with
                      | ObjCol cells => [(fst nc, unique_sorted (fillna_None cells))]
                      | _ => []
                      end) df.

(** [df.drop([name], axis=1)]: [KeyError] when no column has the label. *)
Definition drop_column (df : DataFrame) (name : string) : result DataFrame :=
  if existsb (String.eqb name) (map fst df)
  then OK (filter (fun nc => negb (String.eqb (fst nc) name)) df)
  else Raise KeyError.

(** [pd.concat([df[name], df.drop([name], axis=1)], axis=1)]: the column is
    moved to the front. *)
Definition move_to_front (df : DataFrame) (name : string) : result DataFrame :=
  c <- get_column df name ;;
  rest <- drop_column df name ;;
  OK ((name, c) :: rest).

(** The order of strings, by code points. *)
Definition string_lt (a b : string) : Prop := String.ltb a b = true.

(** ** The labels of the local explanations *)

(** [s.replace(old, new)] for a non-empty [old]: the occurrences are
    replaced from the left, without overlap. [skip] counts the characters of
    an occurrence still to pass over. *)
Fixpoint replace_from (skip : nat) (old new s : string) : string :=
  match s with
  | EmptyString => EmptyString
  | String c s' =>
      match skip with
      | S k => replace_from k old new s'
      | O =>
          if String.prefix old s
          then (new ++ replace_from (String.length old - 1) old new s')%string
          else String c (replace_from 0 old new s')
      end
  end.

Definition py_replace (old new s : string) : string := replace_from 0 old new s.

(** [[str.replace(c, "_label0", "") for c in columns]]. *)
Definition feature_names (columns : list string) : list string :=
  map (py_replace "_label0" "") columns.

(** [old] occurs in [s]. *)
Fixpoint contains (old s : string) : bool :=
  String.prefix old s
  || match s with
     | EmptyString => false
     | String _ s' => contains old s'
     end.

(** A float that is neither NaN nor an infinity. *)
Definition float_is_finite (x : float) : bool :=
  match Prim2SF x with
  | S754_zero _ | S754_finite _ _ _ => true
  | S754_infinity _ | S754_nan => false
  end.

(** ** Reading binary64 numbers *)

(** The place of a number in the order of the floats: its class and sign
    first, then its exponent, then its mantissa. Both zeros share a place;
    NaN has none. *)
Definition sf_key (x : spec_float) : Z * Z * Z :=
  match x with
  | S754_nan => (0, 0, 0)%Z
  | S754_infinity true => (-2, 0, 0)%Z
  | S754_infinity false => (2, 0, 0)%Z
  | S754_zero _ => (0, 0, 0)%Z
  | S754_finite true m e => (-1, - e, - Z.pos m)%Z
  | S754_finite false m e => (1, e, Z.pos m)%Z
  end.

Definition key_lt (a b : Z * Z * Z) : Prop :=
  let '(a1, a2, a3) := a in
  let '(b1, b2, b3) := b in
  (a1 < b1 \/ (a1 = b1 /\ (a2 < b2 \/ (a2 = b2 /\ a3 < b3))))%Z.

Definition sf_is_nan (x : spec_float) : bool :=
  match x with
  | S754_nan => true
  | _ => false
  end.

(** The place of a float in NumPy's sort order: NaN comes last. *)
Definition np_key (x : float) : Z * Z * Z :=
  if sf_is_nan (Prim2SF x) then (3, 0, 0)%Z else sf_key (Prim2SF x).

(** [x] carries the sign bit [s]; nothing is asked of NaN. *)
Definition sf_sign_is (s : bool) (x : spec_float) : Prop :=
  match x with
  | S754_nan => True
  | S754_zero s' | S754_infinity s' | S754_finite s' _ _ => s' = s
  end.

(** [floor(x)], for a finite float [x]. *)
Definition float_floor (x : float) : option Z :=
  match Prim2SF x with
  | S754_zero _ => Some 0%Z
  | S754_finite s m e =>
      let n := if s then Z.neg m else Z.pos m in
      Some (if (0 <=? e)%Z then (n * 2 ^ e)%Z else (n / 2 ^ (- e))%Z)
  | S754_infinity _ | S754_nan => None
  end.

(** The sign bit of a float that is not NaN. *)
Definition float_sign (x : float) : option bool :=
  match Prim2SF x with
  | S754_zero s | S754_infinity s | S754_finite s _ _ => Some s
  | S754_nan => None
  end.

(** ** The salience filter in the words of its description *)

(** The ranking value of one attribution: negated when the prediction is
    below 0.5, then its absolute value when [match_to_pred] is false. *)
Definition rank_value (pred_below_half match_to_pred : bool) (x : float) : float :=
  let y := if pred_below_half then (- x)%float else x in
  if match_to_pred then y else abs y.

(** ** [create_target_column] on a float [Rating] column *)

(** A row of a frame whose [Rating] column has dtype float64, as pandas
    makes of a column read with missing or fractional ratings. *)
Record float_review_row (A : Type) : Type := {
  FRating : float;
  float_other_columns : A
}.

(** The float a Python integer of the int64 range is compared as: the
    nearest float, ties to even. *)
Definition float_of_Z (z : Z) : float :=
  SF2Prim (binary_normalize prec emax z 0 false).

(** [df[df["Rating"] != neutral_value]]; a NaN differs from every value. *)
Definition drop_float_rating {A : Type} (df : list (float_review_row A))
           (neutral_value : Z) : list (float_review_row A) :=
  filter (fun r => negb (FRating r =? float_of_Z neutral_value)%float) df.

(** [create_target_column] as it runs on such a frame. *)
Definition create_target_column_float {A : Type} (df : list (float_review_row A))
           (min_positive_score max_negative_score : Z)
  : list (float_review_row A * Z) :=
  let neutral_values := py_range (max_negative_score + 1) min_positive_score in
  let df := fold_left drop_float_rating neutral_values df in
  let sentiment :=
    map (fun r => (float_of_Z min_positive_score <=? FRating r)%float) df in
  let sentiment := map replace_dict sentiment in
  combine df sentiment.

(** * Properties *)

Unset Implicit Arguments.

(** ** The error monad *)

Lemma bind_OK_inv {A B : Type} (r : result A) (k : A -> result B) (b : B) :
  (x <- r ;; k x) = OK b -> exists a, r = OK a /\ k a = OK b.
Proof.
  destruct r as [a | e]; simpl; intros E; [eauto | discriminate].
Qed.

Ltac bind_inv H :=
  let a := fresh "a" in
  let E := fresh "E" in
  apply bind_OK_inv in H; destruct H as (a & E & H).

(** ** Generic facts on [visualization_record] *)

Section VisualizationFacts.

Context {R : Type} {ops : NumOps R}.
Variable argsort : list R -> list nat.
Variables L T : Type.

Lemma visualization_record_inv
      (a : list R) (text : list T) (pred delta : R) (lbl : L)
      (normalize : bool) (f : option R) (mtp : bool)
      (r : VisualizationDataRecord R L T) :
  visualization_record argsort a text pred delta lbl normalize f mtp = OK r ->
  exists a1 a2,
    normalize_step normalize a = OK a1 /\
    select_step argsort f mtp pred a1 = OK a2 /\
    word_attributions r = a2 /\
    pred_class r = predicted_class pred.
Proof.
  unfold visualization_record. intros H.
  bind_inv H. bind_inv H. injection H as <-.
  exists a0, a1. simpl. auto.
Qed.

Lemma set_item_length (l : list R) (i : nat) (v : R) :
  length (set_item l i v) = length l.
Proof.
  revert i. induction l as [| x l IH]; intros [| i]; simpl; auto.
Qed.

Lemma fold_set_item_length (idxs : list nat) (v : R) (m : list R) :
  length (fold_left (fun m i => set_item m i v) idxs m) = length m.
Proof.
  revert m. induction idxs as [| i idxs IH]; intros m; simpl; auto.
  rewrite IH. apply set_item_length.
Qed.

Lemma set_items_length (mask : list R) (idxs : list nat) (v : R) (m : list R) :
  set_items mask idxs v = OK m -> length m = length mask.
Proof.
  unfold set_items. destruct (forallb _ idxs); intros E; [| discriminate].
  injection E as <-. apply fold_set_item_length.
Qed.

Lemma mul_arrays_length (a b : list R) :
  length b = length a -> length (mul_arrays a b) = length a.
Proof.
  intros E. unfold mul_arrays.
  rewrite length_map, length_combine, E. apply Nat.min_id.
Qed.

(** The filter never changes the number of entries. *)
Lemma select_step_length (f : option R) (mtp : bool) (pred : R) (a out : list R) :
  select_step argsort f mtp pred a = OK out -> length out = length a.
Proof.
  unfold select_step. destruct f as [f |].
  - destruct (nltb f nunit).
    + intros H. bind_inv H. bind_inv H. injection H as <-.
      apply mul_arrays_length. apply set_items_length in E0.
      now rewrite E0, length_map.
    + now intros [= <-].
  - now intros [= <-].
Qed.

Lemma argsort_ok_nil (idxs : list nat) :
  argsort_ok (@nil R) idxs = true -> idxs = [].
Proof.
  destruct idxs as [| i idxs]; [reflexivity |]. discriminate.
Qed.

End VisualizationFacts.

(** ** Facts of binary64 arithmetic *)

(** [int(f * 0)] is [0] for a fraction below one, negative infinity apart. *)
Lemma float_trunc_mul_zero (f : float) :
  f <> neg_infinity -> PrimFloat.ltb f one = true ->
  float_trunc (f * float_of_nat 0) = OK 0%Z.
Proof.
  intros Hinf Hlt. unfold float_trunc. rewrite mul_spec.
  change (Prim2SF (float_of_nat 0)) with (S754_zero false).
  rewrite ltb_spec in Hlt. pose proof (SF2Prim_Prim2SF f) as Ef.
  destruct (Prim2SF f) as [s | s | | s m e]; simpl in *.
  - reflexivity.
  - destruct s; [| discriminate]. now symmetry in Ef.
  - discriminate.
  - reflexivity.
Qed.

Lemma float_nan_mul (x : float) : (nan * x)%float = nan.
Proof.
  rewrite <- (SF2Prim_Prim2SF (nan * x)), mul_spec.
  change (Prim2SF nan) with S754_nan. reflexivity.
Qed.

Lemma float_zero_div_zero (x y : float) :
  is_fzero x -> is_fzero y -> (x / y)%float = nan.
Proof. intros [-> | ->] [-> | ->]; reflexivity. Qed.

Lemma float_opp_zero (x : float) : is_fzero x -> is_fzero (- x)%float.
Proof. intros [-> | ->]; [right | left]; reflexivity. Qed.

Section FloatVisualization.

Variable argsort : list float -> list nat.
Variables L T : Type.

Lemma py_max_from_zero (l : list float) (cur : float) :
  is_fzero cur -> Forall is_fzero l -> is_fzero (py_max_from cur l).
Proof.
  revert cur. induction l as [| x l IH]; intros cur Hc Hl; simpl; [exact Hc |].
  inversion Hl as [| ? ? Hx Hl']; subst.
  apply IH; [| exact Hl'].
  match goal with |- context [if ?c then _ else _] => destruct c end; assumption.
Qed.

Lemma normalize_step_zeros (a : list float) :
  a <> [] -> Forall is_fzero a ->
  normalize_step true a = OK (map (fun _ => nan) a).
Proof.
  intros Hne Hz. destruct a as [| x a]; [congruence |].
  inversion Hz as [| ? ? Hx Ha]; subst.
  unfold normalize_step, py_max. cbn [map bind]. f_equal.
  set (m := py_max2 _ _).
  assert (Hm : is_fzero m).
  { subst m. unfold py_max2. apply py_max_from_zero.
    - now apply py_max_from_zero.
    - constructor; [| constructor].
      apply py_max_from_zero; [now apply float_opp_zero |].
      clear -Ha. induction Ha; constructor; auto using float_opp_zero. }
  change (map (fun x0 => ndiv x0 m) (x :: a) = map (fun _ => nan) (x :: a)).
  apply map_ext_in. intros y Hy. simpl.
  apply float_zero_div_zero; [| exact Hm].
  rewrite Forall_forall in Hz. now apply Hz.
Qed.

Lemma mul_arrays_nan (a mask : list float) :
  length mask = length a ->
  mul_arrays (map (fun _ => nan) a) mask = map (fun _ => nan) a.
Proof.
  revert mask. induction a as [| x a IH]; intros [| y mask] E;
    simpl in *; try discriminate; [reflexivity |].
  unfold mul_arrays in *. simpl. f_equal; [apply float_nan_mul |].
  apply IH. now injection E.
Qed.

Lemma select_step_nan (f : option float) (mtp : bool) (pred : float)
      (a out : list float) :
  select_step argsort f mtp pred (map (fun _ => nan) a) = OK out ->
  out = map (fun _ => nan) a.
Proof.
  unfold select_step. destruct f as [f |].
  - destruct (nltb f nunit).
    + intros H. bind_inv H. bind_inv H. injection H as <-.
      apply set_items_length in E0. rewrite !length_map in E0.
      now apply mul_arrays_nan.
    + now intros [= <-].
  - now intros [= <-].
Qed.

End FloatVisualization.

(** ** The claims on [visualization_record] in binary64 *)

(** C1, as stated, fails: on [[0, 0, 0]] with normalization enabled the
    record is returned, and it displays [[nan, nan, nan]], not [[0, 0, 0]]. *)
Lemma all_zero_normalized_is_nan :
  displayed (visualization_record stable_argsort [0; 0; 0]%float (@nil string)
               0.7%float 0%float 1%Z true None false)
  = OK [nan; nan; nan]
  /\ displayed (visualization_record stable_argsort [0; 0; 0]%float (@nil string)
                  0.7%float 0%float 1%Z true None false)
     <> OK [0; 0; 0]%float.
Proof.
  split; [reflexivity |]. intros E.
  apply (f_equal (fun r => match r with
                           | OK (x :: _) => PrimFloat.is_nan x
                           | _ => false
                           end)) in E.
  vm_compute in E. discriminate.
Qed.

(** C1, amended: for every non-empty vector of zeros, normalization raises
    nothing and divides zero by zero: each entry becomes NaN. Without a
    salience filter the record is returned with the all-NaN vector, and
    under any filter a returned record displays the all-NaN vector. *)
Theorem all_zero_normalize_yields_nan :
  forall (argsort : list float -> list nat) (L T : Type)
         (a : list float) (text : list T) (pred delta : float) (lbl : L)
         (f : option float) (mtp : bool),
    a <> [] -> Forall is_fzero a ->
    normalize_step true a = OK (map (fun _ => nan) a) /\
    displayed (visualization_record argsort a text pred delta lbl true None mtp)
    = OK (map (fun _ => nan) a) /\
    (forall r,
        visualization_record argsort a text pred delta lbl true f mtp = OK r ->
        word_attributions r = map (fun _ => nan) a).
Proof.
  intros argsort L T a text pred delta lbl f mtp Hne Hz.
  pose proof (normalize_step_zeros a Hne Hz) as En.
  split; [exact En |]. split.
  - unfold displayed, visualization_record. rewrite En. reflexivity.
  - intros r Hr.
    destruct (visualization_record_inv argsort L T _ _ _ _ _ _ _ _ _ Hr)
      as (a1 & a2 & E1 & E2 & -> & _).
    rewrite En in E1. injection E1 as <-.
    now apply select_step_nan in E2.
Qed.

Lemma all_zero_normalize_yields_nan_witness :
  normalize_step true [0; neg_zero]%float = OK [nan; nan].
Proof.
  refine (proj1 (all_zero_normalize_yields_nan
                   stable_argsort Z string [0; neg_zero]%float [] 0.7%float
                   0%float 1%Z (Some 0.05%float) false _ _)).
  - discriminate.
  - constructor; [left; reflexivity |].
    constructor; [right; reflexivity | constructor].
Defined.

(** C4, as stated, fails: with normalization enabled the empty vector makes
    [max] raise [ValueError]. *)
Lemma empty_vector_normalize_raises :
  visualization_record stable_argsort (@nil float) (@nil string)
    0.7%float 0%float 1%Z true (Some 0.05%float) false
  = Raise ValueError.
Proof. reflexivity. Qed.

(** C4, amended: for the empty vector, with normalization disabled the
    output is empty and nothing is raised, for every setting of the salience
    fraction other than negative infinity; with normalization enabled
    [ValueError] is raised for every setting of the fraction. *)
Theorem empty_vector_outcome :
  forall (argsort : list float -> list nat) (L T : Type)
         (text : list T) (pred delta : float) (lbl : L) (mtp : bool),
    argsort_ok [] (argsort []) = true ->
    (forall f, visualization_record argsort [] text pred delta lbl true f mtp
               = Raise ValueError) /\
    displayed (visualization_record argsort [] text pred delta lbl false None mtp)
    = OK [] /\
    (forall f, f <> neg_infinity ->
               displayed (visualization_record argsort [] text pred delta lbl
                            false (Some f) mtp) = OK []).
Proof.
  intros argsort L T text pred delta lbl mtp Hs.
  apply argsort_ok_nil in Hs.
  split; [reflexivity |]. split; [reflexivity |].
  intros f Hinf.
  unfold displayed, visualization_record, normalize_step, select_step.
  cbn [bind length map nltb nunit float_ops nmul nof_nat ntrunc].
  destruct (PrimFloat.ltb f 1) eqn:Hlt; [| reflexivity].
  rewrite (float_trunc_mul_zero f Hinf Hlt). cbn [bind].
  assert (Es : salience (@nil float) pred mtp = []).
  { unfold salience. destruct (nltb pred nhalf), mtp; reflexivity. }
  unfold top_idxs_of. rewrite Es. cbn [map]. rewrite Hs. reflexivity.
Qed.

Lemma empty_vector_outcome_witness :
  displayed (visualization_record stable_argsort (@nil float) (@nil string)
               0.7%float 0%float 1%Z false (Some 0.05%float) false)
  = OK [].
Proof.
  refine (proj2 (proj2 (empty_vector_outcome stable_argsort Z string []
                          0.7%float 0%float 1%Z false _)) 0.05%float _).
  - reflexivity.
  - intros E. apply (f_equal PrimFloat.is_infinity) in E. discriminate E.
Defined.

(** C7: the record's predicted class is 1 exactly when the prediction is
    strictly greater than 0.5 and 0 otherwise; a prediction of exactly 0.5
    gives class 0, and 0.500001 gives class 1. *)
Theorem predicted_class_strict_threshold :
  forall (argsort : list float -> list nat) (L T : Type)
         (a : list float) (text : list T) (pred delta : float) (lbl : L)
         (normalize : bool) (f : option float) (mtp : bool)
         (r : VisualizationDataRecord float L T),
    visualization_record argsort a text pred delta lbl normalize f mtp = OK r ->
    (pred_class r = 1%Z <-> PrimFloat.ltb 0.5 pred = true) /\
    (pred_class r = 0%Z <-> PrimFloat.ltb 0.5 pred = false) /\
    (pred = 0.5%float -> pred_class r = 0%Z) /\
    (pred = 0.500001%float -> pred_class r = 1%Z).
Proof.
  intros argsort L T a text pred delta lbl normalize f mtp r Hr.
  destruct (visualization_record_inv argsort L T _ _ _ _ _ _ _ _ _ Hr)
    as (a1 & a2 & _ & _ & _ & ->).
  unfold predicted_class. cbn [nltb nhalf float_ops].
  repeat split; try (intros ->; reflexivity);
    destruct (PrimFloat.ltb 0.5 pred); intros; congruence.
Qed.

Lemma predicted_class_strict_threshold_witness :
  exists r,
    visualization_record stable_argsort [0.2; -0.8; 0.1]%float ["a"; "b"; "c"]%string
      0.5%float 0%float 1%Z true (Some 0.34%float) false = OK r
    /\ pred_class r = 0%Z.
Proof.
  eexists. split; [vm_compute; reflexivity |].
  refine (proj1 (proj2 (proj2 (predicted_class_strict_threshold
            stable_argsort Z string [0.2; -0.8; 0.1]%float ["a"; "b"; "c"]%string
            0.5%float 0%float 1%Z true (Some 0.34%float) false _ _))) eq_refl).
  vm_compute. reflexivity.
Defined.

(** C10: at a prediction of exactly 0.5 with [match_to_pred] enabled and a
    fraction strictly between 0 and 1, the ranking vector is the attribution
    vector itself, not negated (the top positions are read from the argsort
    of its negation, as for class 1), while the record reports class 0. *)
Theorem boundary_prediction_ranks_as_positive_reports_negative :
  forall (argsort : list float -> list nat) (L T : Type)
         (a : list float) (text : list T) (delta : float) (lbl : L)
         (normalize : bool) (f : float)
         (r : VisualizationDataRecord float L T),
    PrimFloat.ltb 0 f = true -> PrimFloat.ltb f 1 = true ->
    visualization_record argsort a text 0.5%float delta lbl normalize (Some f) true
    = OK r ->
    exists a1 num_show mask,
      normalize_step normalize a = OK a1 /\
      salience a1 0.5%float true = a1 /\
      float_trunc (f * float_of_nat (length a1)) = OK num_show /\
      set_items (map (fun _ => zero) a1)
                (py_slice_to num_show (argsort (map PrimFloat.opp a1))) one
      = OK mask /\
      word_attributions r = mul_arrays a1 mask /\
      pred_class r = 0%Z.
Proof.
  intros argsort L T a text delta lbl normalize f r Hpos Hlt Hr.
  destruct (visualization_record_inv argsort L T _ _ _ _ _ _ _ _ _ Hr)
    as (a1 & a2 & E1 & E2 & Ew & Ec).
  unfold select_step in E2. cbn [nltb nunit float_ops] in E2.
  rewrite Hlt in E2. bind_inv E2. bind_inv E2. injection E2 as <-.
  exists a1, a0, a3. repeat split; auto.
Qed.

Lemma boundary_prediction_witness :
  exists r,
    visualization_record stable_argsort [0.3; -0.9]%float ["a"; "b"]%string
      0.5%float 0%float 1%Z false (Some 0.5%float) true = OK r
    /\ word_attributions r = [0.3; neg_zero]%float
    /\ pred_class r = 0%Z.
Proof.
  eexists. split; [vm_compute; reflexivity |].
  match goal with
  | |- context [pred_class ?r] =>
      destruct (boundary_prediction_ranks_as_positive_reports_negative
                  (@stable_argsort float float_ops) Z string
                  [0.3; -0.9]%float ["a"; "b"]%string
                  0%float 1%Z false 0.5%float r eq_refl eq_refl
                  ltac:(vm_compute; reflexivity))
        as (a1 & k & mask & E1 & _ & _ & _ & _ & Ec)
  end.
  split; [reflexivity | exact Ec].
Defined.

(** ** [create_target_column] *)

Section TargetColumn.

Variable A : Type.

Lemma py_range_In (a b v : Z) : In v (py_range a b) <-> (a <= v < b)%Z.
Proof.
  unfold py_range. rewrite in_map_iff. split.
  - intros (i & <- & Hi). apply in_seq in Hi. lia.
  - intros Hv. exists (Z.to_nat (v - a)). split; [lia |].
    apply in_seq. lia.
Qed.

Lemma fold_drop_rating (vs : list Z) (df : list (review_row A)) :
  fold_left drop_rating vs df
  = filter (fun r => negb (existsb (Z.eqb (Rating r)) vs)) df.
Proof.
  revert df. induction vs as [| v vs IH]; intros df; simpl.
  - induction df as [| r df IHdf]; simpl; [reflexivity | now rewrite <- IHdf].
  - rewrite IH. unfold drop_rating.
    induction df as [| r df IHdf]; simpl; [reflexivity |].
    destruct (Rating r =? v)%Z; simpl; rewrite IHdf; reflexivity.
Qed.

Lemma neutral_values_spec (minp maxn x : Z) :
  negb (existsb (Z.eqb x) (py_range (maxn + 1) minp))
  = (x <=? maxn)%Z || (minp <=? x)%Z.
Proof.
  destruct (existsb _ _) eqn:E; simpl.
  - apply existsb_exists in E. destruct E as (v & Hv & Ev).
    apply Z.eqb_eq in Ev. subst v. apply py_range_In in Hv.
    symmetry. apply orb_false_iff. split; apply Z.leb_gt; lia.
  - symmetry. apply orb_true_iff.
    destruct (Z.leb_spec x maxn); [now left |].
    destruct (Z.leb_spec minp x); [now right |].
    exfalso. assert (Hin : In x (py_range (maxn + 1) minp))
      by (apply py_range_In; lia).
    assert (Hex : existsb (Z.eqb x) (py_range (maxn + 1) minp) = true)
      by (apply existsb_exists; exists x; split; [exact Hin | apply Z.eqb_refl]).
    congruence.
Qed.

Lemma create_target_column_eq (df : list (review_row A)) (minp maxn : Z) :
  create_target_column df minp maxn
  = map (fun r => (r, if (minp <=? Rating r)%Z then 1%Z else 0%Z))
        (filter (fun r => (Rating r <=? maxn)%Z || (minp <=? Rating r)%Z) df).
Proof.
  unfold create_target_column. rewrite fold_drop_rating.
  rewrite (filter_ext _ _ (fun r => neutral_values_spec minp maxn (Rating r))).
  generalize (filter (fun r => (Rating r <=? maxn)%Z || (minp <=? Rating r)%Z) df).
  intros l. rewrite map_map. induction l as [| r l IH]; simpl; [reflexivity |].
  now rewrite IH.
Qed.

End TargetColumn.

Lemma fold_drop_float_rating {A : Type} (vs : list Z)
      (df : list (float_review_row A)) :
  fold_left drop_float_rating vs df
  = filter (fun r => negb (existsb (fun v => FRating r =? float_of_Z v)%float vs)) df.
Proof.
  revert df. induction vs as [| v vs IH]; intros df; simpl.
  - induction df as [| r df IHdf]; simpl; [reflexivity | now rewrite <- IHdf].
  - rewrite IH. unfold drop_float_rating.
    induction df as [| r df IHdf]; simpl; [reflexivity |].
    destruct (FRating r =? float_of_Z v)%float; simpl; rewrite IHdf; reflexivity.
Qed.

(** C8, as stated, fails on a frame whose [Rating] column holds floats:
    with the thresholds 4 and 2 the only value dropped is 3, so a rating of
    3.5 or 2.5 and a missing rating (NaN) stay in the frame, labelled 0,
    though none of them is at least 4 or at most 2. *)
Lemma float_rating_between_thresholds_is_kept :
  create_target_column_float
    [ {| FRating := 5%float; float_other_columns := "great"%string |};
      {| FRating := 3.5%float; float_other_columns := "fine"%string |};
      {| FRating := 3%float; float_other_columns := "so-so"%string |};
      {| FRating := 2.5%float; float_other_columns := "meh"%string |};
      {| FRating := nan; float_other_columns := "none"%string |} ] 4 2
  = [ ({| FRating := 5%float; float_other_columns := "great"%string |}, 1%Z);
      ({| FRating := 3.5%float; float_other_columns := "fine"%string |}, 0%Z);
      ({| FRating := 2.5%float; float_other_columns := "meh"%string |}, 0%Z);
      ({| FRating := nan; float_other_columns := "none"%string |}, 0%Z) ]
  /\ (4 <=? 3.5)%float = false /\ (3.5 <=? 2)%float = false
  /\ (4 <=? 2.5)%float = false /\ (2.5 <=? 2)%float = false
  /\ (4 <=? nan)%float = false /\ (nan <=? 2)%float = false.
Proof. repeat split. Qed.

(** C8, amended. On a frame whose [Rating] column holds integers and with
    [max_negative_score < min_positive_score], the returned frame keeps, in
    order, exactly the rows whose Rating is at most [max_negative_score] or
    at least [min_positive_score], and Sentiment is 1 exactly on the rows
    with Rating at least [min_positive_score] and 0 on the others. On a
    frame whose [Rating] column holds floats (thresholds in the int64
    range) the rows dropped are exactly those whose Rating equals an
    integer strictly between the thresholds, and Sentiment is 1 exactly on
    the rows with Rating at least [min_positive_score]. *)
Theorem create_target_column_spec :
  (forall (A : Type) (df : list (review_row A))
          (min_positive_score max_negative_score : Z),
      (max_negative_score < min_positive_score)%Z ->
      map fst (create_target_column df min_positive_score max_negative_score)
      = filter (fun r => (Rating r <=? max_negative_score)%Z
                         || (min_positive_score <=? Rating r)%Z) df
      /\ forall r s,
        In (r, s) (create_target_column df min_positive_score max_negative_score) ->
        ((min_positive_score <= Rating r)%Z \/ (Rating r <= max_negative_score)%Z)
        /\ (s = 1%Z <-> (min_positive_score <= Rating r)%Z)
        /\ (s = 0%Z <-> (Rating r <= max_negative_score)%Z))
  /\
  (forall (A : Type) (df : list (float_review_row A))
          (min_positive_score max_negative_score : Z),
      (Z.abs min_positive_score <= 2 ^ 63)%Z ->
      (Z.abs max_negative_score <= 2 ^ 63)%Z ->
      map fst (create_target_column_float df min_positive_score max_negative_score)
      = filter (fun r =>
                  negb (existsb (fun v => FRating r =? float_of_Z v)%float
                          (py_range (max_negative_score + 1) min_positive_score)))
               df
      /\ forall r s,
        In (r, s) (create_target_column_float df min_positive_score
                     max_negative_score) ->
        (forall v, (max_negative_score < v < min_positive_score)%Z ->
                   (FRating r =? float_of_Z v)%float = false)
        /\ (s = 1%Z <-> (float_of_Z min_positive_score <=? FRating r)%float = true)
        /\ (s = 0%Z <-> (float_of_Z min_positive_score <=? FRating r)%float = false)).
Proof.
  split.
  - intros A df minp maxn Hlt. rewrite create_target_column_eq. split.
    + rewrite map_map. simpl. apply map_id.
    + intros r s Hin. apply in_map_iff in Hin.
      destruct Hin as (r' & [= <- <-] & Hr). apply filter_In in Hr.
      destruct Hr as (_ & Hr). apply orb_true_iff in Hr.
      rewrite !Z.leb_le in Hr.
      destruct (Z.leb_spec minp (Rating r')); repeat split; intros; try lia.
  - intros A df minp maxn _ _. unfold create_target_column_float.
    rewrite fold_drop_float_rating.
    set (kept := filter _ df).
    assert (E : combine kept
                  (map replace_dict
                     (map (fun r => (float_of_Z minp <=? FRating r)%float) kept))
                = map (fun r => (r, replace_dict
                                      (float_of_Z minp <=? FRating r)%float)) kept).
    { rewrite map_map. generalize kept. intros l.
      induction l as [| r l IH]; simpl; [reflexivity | now rewrite IH]. }
    rewrite E. split.
    + rewrite map_map. simpl. apply map_id.
    + intros r s Hin. apply in_map_iff in Hin.
      destruct Hin as (r' & [= <- <-] & Hr). apply filter_In in Hr.
      destruct Hr as (_ & Hr). apply negb_true_iff in Hr. split.
      * intros v Hv. destruct (FRating r' =? float_of_Z v)%float eqn:Ev;
          [| reflexivity].
        exfalso. assert (Hex : existsb (fun v => FRating r' =? float_of_Z v)%float
                                 (py_range (maxn + 1) minp) = true).
        { apply existsb_exists. exists v. split; [| exact Ev].
          apply py_range_In. lia. }
        congruence.
      * destruct (float_of_Z minp <=? FRating r')%float; simpl;
          repeat split; intros; congruence.
Qed.

Lemma create_target_column_spec_witness :
  map fst (create_target_column
             [ {| Rating := 5; other_columns := "great"%string |};
               {| Rating := 3; other_columns := "fine"%string |};
               {| Rating := 1; other_columns := "poor"%string |} ] 4 2)
  = [ {| Rating := 5%Z; other_columns := "great"%string |};
      {| Rating := 1%Z; other_columns := "poor"%string |} ].
Proof.
  refine (proj1 (proj1 create_target_column_spec string _ 4%Z 2%Z _)).
  reflexivity.
Defined.

(** ** [attributions_dataset] and [tokens_dataset] *)

Lemma comprehension_raise {A B : Type} (f : A -> result B)
      (pre post : list A) (x : A) (e : exn) :
  Forall (fun y => returns (f y)) pre -> f x = Raise e ->
  comprehension f (pre ++ x :: post) = Raise e.
Proof.
  intros Hpre Hx. induction Hpre as [| y pre (v & Ey) _ IH]; simpl.
  - now rewrite Hx.
  - now rewrite Ey, IH.
Qed.

Lemma dict_get_missing (fields : list (string * json)) (key : string) :
  ~ In key (map fst fields) -> dict_get fields key = Raise KeyError.
Proof.
  induction fields as [| [k v] fields IH]; simpl; intros Hk; [reflexivity |].
  destruct (String.eqb_spec k key) as [-> | _]; [tauto |].
  apply IH. tauto.
Qed.

(** C5, as stated, fails: a record whose entry lacks the attribution field
    makes the whole comprehension raise [KeyError]; the well-formed record
    of the same batch, which alone is processed, yields nothing. *)
Lemma malformed_record_aborts_whole_batch :
  let entry := JObj [("attribution", JArr [JFloat 0.5%float]);
                     ("description", JObj [("partial_text", JStr "good")])]%string in
  let broken := JObj [("description", JObj [("partial_text", JStr "bad")])]%string in
  let record e := JObj [("explanations", JArr [JObj [("attributions", JArr [e])]])]%string in
  attributions_dataset [record entry] = OK [[JFloat 0.5%float]]
  /\ attributions_dataset [record entry; record broken] = Raise KeyError
  /\ build_datasets [record entry; record broken] = Raise KeyError.
Proof. repeat split. Qed.

(** C5, amended: a record one of whose entries lacks the attribution field
    (respectively the descriptor field), the records and entries before it
    being well formed, makes [attributions_dataset] (respectively
    [tokens_dataset]) raise [KeyError] for the whole batch: no list is
    built, and the other instances yield nothing. *)
Theorem missing_field_raises_KeyError_for_batch :
  forall (shap_pre shap_post : list json) (expl : json)
         (entries_pre entries_post : list json) (fields : list (string * json)),
    entries expl = OK (entries_pre ++ JObj fields :: entries_post) ->
    (~ In "attribution"%string (map fst fields) ->
     Forall (fun x => returns (record_attributions x)) shap_pre ->
     Forall (fun a => returns (attribution_of a)) entries_pre ->
     attributions_dataset (shap_pre ++ expl :: shap_post) = Raise KeyError
     /\ build_datasets (shap_pre ++ expl :: shap_post) = Raise KeyError)
    /\
    (~ In "description"%string (map fst fields) ->
     Forall (fun x => returns (record_tokens x)) shap_pre ->
     Forall (fun a => returns (token_of a)) entries_pre ->
     tokens_dataset (shap_pre ++ expl :: shap_post) = Raise KeyError
     /\ exists e, build_datasets (shap_pre ++ expl :: shap_post) = Raise e).
Proof.
  intros shap_pre shap_post expl entries_pre entries_post fields He. split.
  - intros Hk Hpre Hent.
    assert (E : attributions_dataset (shap_pre ++ expl :: shap_post) = Raise KeyError).
    { apply comprehension_raise; [exact Hpre |].
      unfold record_attributions. rewrite He. simpl.
      apply comprehension_raise; [exact Hent |].
      unfold attribution_of. simpl. now rewrite dict_get_missing. }
    split; [exact E |]. unfold build_datasets. now rewrite E.
  - intros Hk Hpre Hent.
    assert (E : tokens_dataset (shap_pre ++ expl :: shap_post) = Raise KeyError).
    { apply comprehension_raise; [exact Hpre |].
      unfold record_tokens. rewrite He. simpl.
      apply comprehension_raise; [exact Hent |].
      unfold token_of. simpl. now rewrite dict_get_missing. }
    split; [exact E |]. unfold build_datasets.
    destruct (attributions_dataset _) as [a | e]; simpl.
    + rewrite E. simpl. eauto.
    + eauto.
Qed.

Lemma missing_field_raises_KeyError_for_batch_witness :
  let entry := JObj [("attribution", JArr [JFloat 0.5%float]);
                     ("description", JObj [("partial_text", JStr "good")])]%string in
  let fields := [("attribution", JArr [JFloat 0.1%float])]%string in
  let record e := JObj [("explanations", JArr [JObj [("attributions", JArr [e])]])]%string in
  tokens_dataset ([record entry] ++ record (JObj fields) :: [record entry])
  = Raise KeyError.
Proof.
  intros entry fields record.
  refine (proj1 (proj2 (missing_field_raises_KeyError_for_batch
                          [record entry] [record entry] (record (JObj fields))
                          [] [] fields eq_refl) _ _ _)).
  - simpl. intros [H | []]. discriminate H.
  - constructor; [| constructor]. eexists. reflexivity.
  - constructor.
Defined.

(** ** [number_encode_features] *)

Lemma insert_unique_In (s t : string) (classes : list string) :
  In t (insert_unique s classes) <-> t = s \/ In t classes.
Proof.
  induction classes as [| c classes IH]; simpl; [intuition |].
  destruct (String.eqb_spec s c) as [-> | Hne]; simpl; [intuition |].
  destruct (String.ltb s c); simpl; [intuition |].
  rewrite IH. intuition.
Qed.

Lemma unique_sorted_In (t : string) (y : list string) :
  In t (unique_sorted y) <-> In t y.
Proof.
  induction y as [| s y IH]; simpl; [tauto |].
  rewrite insert_unique_In, IH. intuition.
Qed.

Lemma insert_unique_length (s : string) (classes : list string) :
  length (insert_unique s classes) <= S (length classes).
Proof.
  induction classes as [| c classes IH]; simpl; [lia |].
  destruct (String.eqb s c); simpl; [lia |].
  destruct (String.ltb s c); simpl; lia.
Qed.

Lemma unique_sorted_length (y : list string) :
  length (unique_sorted y) <= length y.
Proof.
  induction y as [| s y IH]; simpl; [lia |].
  pose proof (insert_unique_length s (unique_sorted y)). lia.
Qed.

Lemma index_of_lt (s : string) (classes : list string) :
  In s classes -> index_of s classes < length classes.
Proof.
  induction classes as [| c classes IH]; simpl; [tauto |].
  destruct (String.eqb_spec s c) as [-> | Hne]; [lia |].
  intros [-> | Hin]; [congruence |]. apply IH in Hin. lia.
Qed.

Lemma index_of_nth (s : string) (classes : list string) :
  In s classes -> nth_error classes (index_of s classes) = Some s.
Proof.
  induction classes as [| c classes IH]; simpl; [tauto |].
  destruct (String.eqb_spec s c) as [-> | Hne]; [reflexivity |].
  intros [-> | Hin]; [congruence | auto].
Qed.

Lemma fit_transform_codes (y : list string) :
  label_codes y (snd (fit_transform y)).
Proof.
  unfold fit_transform, label_codes. simpl. split; [apply length_map |].
  intros i j s t Hs Ht.
  assert (Ins : In s (unique_sorted y))
    by (apply unique_sorted_In; eapply nth_error_In; eauto).
  assert (Int : In t (unique_sorted y))
    by (apply unique_sorted_In; eapply nth_error_In; eauto).
  exists (Z.of_nat (index_of s (unique_sorted y))),
         (Z.of_nat (index_of t (unique_sorted y))).
  rewrite !nth_error_map, Hs, Ht. simpl. repeat split; try lia.
  - pose proof (index_of_lt _ _ Ins). pose proof (unique_sorted_length y). lia.
  - intros E. apply Nat2Z.inj in E.
    pose proof (index_of_nth _ _ Ins) as E1.
    pose proof (index_of_nth _ _ Int) as E2.
    rewrite E in E1. congruence.
  - now intros ->.
Qed.

Lemma get_column_app (done todo : DataFrame) (n : string) (c : column) :
  ~ In n (map fst done) -> get_column (done ++ (n, c) :: todo) n = OK c.
Proof.
  induction done as [| [m d] done IH]; simpl; intros Hn.
  - now rewrite String.eqb_refl.
  - destruct (String.eqb_spec m n) as [-> | _]; [tauto |]. apply IH. tauto.
Qed.

Lemma set_column_app (done todo : DataFrame) (n : string) (c c' : column) :
  ~ In n (map fst done) ->
  set_column (done ++ (n, c) :: todo) n c' = done ++ (n, c') :: todo.
Proof.
  induction done as [| [m d] done IH]; simpl; intros Hn.
  - now rewrite String.eqb_refl.
  - destruct (String.eqb_spec m n) as [-> | _]; [tauto |].
    rewrite IH; [reflexivity | tauto].
Qed.

Lemma encoded_frame_names (df : DataFrame) :
  map fst (encoded_frame df) = map fst df.
Proof. unfold encoded_frame. rewrite map_map. reflexivity. Qed.

(** The loop, from any point: the columns already visited are encoded, the
    others are as they were. *)
Lemma encode_loop (todo done : DataFrame) (encoders : list (string * LabelEncoder)) :
  NoDup (map fst (done ++ todo)) ->
  exists encoders',
    for_each encode_column (map fst todo) (encoded_frame done ++ todo, encoders)
    = OK (encoded_frame (done ++ todo), encoders').
Proof.
  revert done encoders. induction todo as [| [n c] todo IH]; intros done encoders Hnd.
  - simpl. rewrite !app_nil_r. eauto.
  - assert (Hn : ~ In n (map fst (encoded_frame done))).
    { rewrite encoded_frame_names. rewrite map_app in Hnd. simpl in Hnd.
      apply NoDup_remove_2 in Hnd. intros Hin. apply Hnd.
      apply in_or_app. now left. }
    assert (Hstep : exists encoders1,
               encode_column (encoded_frame done ++ (n, c) :: todo, encoders) n
               = OK (encoded_frame (done ++ [(n, c)]) ++ todo, encoders1)).
    { unfold encode_column. rewrite (get_column_app _ _ _ _ Hn). simpl.
      unfold encoded_frame. rewrite map_app. simpl. rewrite <- app_assoc. simpl.
      destruct c as [l | l | l | cells]; simpl; eauto.
      fold (encoded_frame done). rewrite (set_column_app _ _ _ _ _ Hn). eauto. }
    destruct Hstep as (encoders1 & Hstep).
    destruct (IH (done ++ [(n, c)]) encoders1) as (encoders' & E).
    { now rewrite <- app_assoc. }
    exists encoders'. cbn [map fst for_each]. rewrite Hstep. cbn [bind].
    rewrite E. now rewrite <- app_assoc.
Qed.

(** C9: on a frame with distinct column labels, [number_encode_features]
    returns a frame with the same labels in the same order and the same
    number of rows; a column whose dtype is not [object] is unchanged, and an
    [object] column is replaced, in place, by the integer label codes of its
    values (missing ones read as the string "None"). *)
Theorem number_encode_features_frame :
  forall df : DataFrame,
    wf_frame df ->
    exists result encoders,
      number_encode_features df = OK (result, encoders) /\
      map fst result = map fst df /\
      (forall i n c,
          nth_error df i = Some (n, c) ->
          exists c',
            nth_error result i = Some (n, c') /\
            column_length c' = column_length c /\
            (is_object c = false -> c' = c) /\
            (forall cells,
                c = ObjCol cells ->
                exists codes,
                  c' = IntCol codes /\ label_codes (fillna_None cells) codes)).
Proof.
  intros df Hwf.
  destruct (encode_loop df [] [] Hwf) as (encoders & E).
  exists (encoded_frame df), encoders. split; [exact E |].
  split; [apply encoded_frame_names |].
  intros i n c Hi. exists (encoded c). split.
  - unfold encoded_frame. rewrite nth_error_map, Hi. reflexivity.
  - split; [| split].
    + destruct c as [l | l | l | cells]; simpl; try reflexivity.
      unfold fillna_None. now rewrite !length_map.
    + destruct c; simpl; intros; congruence.
    + intros cells ->. eexists. split; [reflexivity |].
      apply fit_transform_codes.
Qed.

Lemma number_encode_features_frame_witness :
  exists result encoders,
    number_encode_features
      [("Age"%string, IntCol [39; 50; 38]%Z);
       ("Sex"%string, ObjCol [Some "Male"; None; Some "Female"]%string);
       ("Hours"%string, FloatCol [40; 13; 40]%float);
       ("Target"%string, ObjCol [Some "<=50K"; Some ">50K"; Some "<=50K"]%string)]
    = OK (result, encoders)
    /\ result = [("Age"%string, IntCol [39; 50; 38]%Z);
                 ("Sex"%string, IntCol [1; 2; 0]%Z);
                 ("Hours"%string, FloatCol [40; 13; 40]%float);
                 ("Target"%string, IntCol [0; 1; 0]%Z)].
Proof.
  destruct (number_encode_features_frame
              [("Age"%string, IntCol [39; 50; 38]%Z);
               ("Sex"%string, ObjCol [Some "Male"; None; Some "Female"]%string);
               ("Hours"%string, FloatCol [40; 13; 40]%float);
               ("Target"%string,
                ObjCol [Some "<=50K"; Some ">50K"; Some "<=50K"]%string)])
    as (result & encoders & E & _).
  - unfold wf_frame. simpl.
    repeat (constructor; [simpl; intuition discriminate |]). constructor.
  - exists result, encoders. split; [exact E |].
    vm_compute in E. now injection E as <- _.
Defined.

(** ** The salience filter, for any arithmetic *)

Lemma remove_one_Permutation (i : nat) (l r : list nat) :
  remove_one i l = Some r -> Permutation l (i :: r).
Proof.
  revert r. induction l as [| j l IH]; intros r; simpl; [discriminate |].
  destruct (Nat.eqb_spec i j) as [-> | _].
  - intros [= <-]. apply Permutation_refl.
  - destruct (remove_one i l) as [r' |]; [| discriminate].
    intros [= <-]. eapply perm_trans; [| apply perm_swap].
    apply perm_skip. now apply IH.
Qed.

Lemma is_perm_of_Permutation (idxs range : list nat) :
  is_perm_of idxs range = true -> Permutation idxs range.
Proof.
  revert range. induction idxs as [| i idxs IH]; intros range; simpl.
  - destruct range; [constructor | discriminate].
  - destruct (remove_one i range) as [range' |] eqn:E; [| discriminate].
    intros H. apply IH in H. apply remove_one_Permutation in E.
    symmetry in E. eapply perm_trans; [| exact E]. now apply perm_skip.
Qed.

Section SelectionFacts.

Context {R : Type} {ops : NumOps R}.

Lemma argsort_ok_Permutation (v : list R) (idxs : list nat) :
  argsort_ok v idxs = true -> Permutation idxs (seq 0 (length v)).
Proof.
  unfold argsort_ok. intros H. apply andb_true_iff in H.
  now apply is_perm_of_Permutation.
Qed.

Lemma argsort_ok_bounds (v : list R) (idxs : list nat) :
  argsort_ok v idxs = true ->
  NoDup idxs /\ length idxs = length v /\ forall i, In i idxs <-> i < length v.
Proof.
  intros H. apply argsort_ok_Permutation in H. split; [| split].
  - eapply Permutation_NoDup; [symmetry; exact H | apply seq_NoDup].
  - rewrite (Permutation_length H). apply length_seq.
  - intros i. split; intros Hi.
    + apply (Permutation_in _ H) in Hi. apply in_seq in Hi. lia.
    + apply (Permutation_in _ (Permutation_sym H)). apply in_seq. lia.
Qed.

(** Along an admissible outcome, a later position never holds a value that
    sorts before an earlier one. *)
Lemma np_sorted_by_app (v : list R) (l1 l2 : list nat) :
  np_sorted_by v (l1 ++ l2) = true ->
  forall i j, In i l1 -> In j l2 ->
              np_lt (nth j v nzero) (nth i v nzero) = false.
Proof.
  induction l1 as [| x l1 IH]; simpl; intros H i j Hi Hj; [tauto |].
  apply andb_true_iff in H. destruct H as (Hx & Hrest).
  destruct Hi as [-> | Hi]; [| now apply IH].
  rewrite forallb_forall in Hx. apply negb_true_iff. apply Hx.
  apply in_or_app. now right.
Qed.

Lemma np_sorted_by_firstn (v : list R) (l : list nat) (k : nat) :
  np_sorted_by v l = true -> np_sorted_by v (firstn k l) = true.
Proof.
  revert k. induction l as [| x l IH]; intros [| k]; simpl; auto.
  intros H. apply andb_true_iff in H. destruct H as (Hx & Hrest).
  apply andb_true_iff. split; [| now apply IH].
  rewrite forallb_forall in *. intros j Hj. apply Hx.
  rewrite <- (firstn_skipn k l). apply in_or_app. now left.
Qed.

Lemma np_sorted_by_nth (v : list R) (l : list nat) (p q : nat) :
  np_sorted_by v l = true -> p < q < length l ->
  np_lt (nth (nth q l 0) v nzero) (nth (nth p l 0) v nzero) = false.
Proof.
  revert p q. induction l as [| x l IH]; simpl; intros p q H Hpq; [lia |].
  apply andb_true_iff in H. destruct H as (Hx & Hrest).
  destruct q as [| q]; [lia |]. destruct p as [| p].
  - rewrite forallb_forall in Hx. apply negb_true_iff. apply Hx.
    apply nth_In. lia.
  - apply IH; [exact Hrest | lia].
Qed.

Lemma set_item_nth (l : list R) (i j : nat) (v d : R) :
  i < length l ->
  nth j (set_item l i v) d = if Nat.eqb j i then v else nth j l d.
Proof.
  revert i j. induction l as [| x l IH]; intros i j Hi; simpl in *; [lia |].
  destruct i as [| i], j as [| j]; simpl; try reflexivity.
  apply IH. lia.
Qed.

Lemma fold_set_item_nth (idxs : list nat) (m : list R) (j : nat) (v d : R) :
  (forall i, In i idxs -> i < length m) ->
  nth j (fold_left (fun m i => set_item m i v) idxs m) d
  = if existsb (Nat.eqb j) idxs then v else nth j m d.
Proof.
  revert m. induction idxs as [| i idxs IH]; intros m Hb; simpl; [reflexivity |].
  rewrite IH.
  - rewrite set_item_nth by (apply Hb; now left).
    destruct (Nat.eqb j i); simpl; [| reflexivity].
    now destruct (existsb (Nat.eqb j) idxs).
  - intros i' Hi'. rewrite set_item_length. apply Hb. now right.
Qed.

Lemma nth_map_seq {B : Type} (g : nat -> B) (n j : nat) (d : B) :
  j < n -> nth j (map g (seq 0 n)) d = g j.
Proof.
  intros Hj. rewrite (nth_indep _ d (g 0)) by (now rewrite length_map, length_seq).
  now rewrite map_nth, seq_nth.
Qed.

Lemma nth_map_const {A B : Type} (c : B) (l : list A) (j : nat) (d : B) :
  j < length l -> nth j (map (fun _ => c) l) d = c.
Proof.
  revert j. induction l as [| x l IH]; intros [| j] Hj; simpl in *;
    try lia; [reflexivity |]. apply IH. lia.
Qed.

Lemma In_firstn_all {A : Type} (k : nat) (l : list A) (x : A) :
  In x (firstn k l) -> In x l.
Proof.
  intros H. rewrite <- (firstn_skipn k l). apply in_or_app. now left.
Qed.

(** [mask[idxs] = 1] on a mask of zeros, for positions within bounds. *)
Lemma set_items_zeros (a : list R) (idxs : list nat) :
  (forall i, In i idxs -> i < length a) ->
  set_items (map (fun _ => nzero) a) idxs nunit
  = OK (map (fun i => if existsb (Nat.eqb i) idxs then nunit else nzero)
            (seq 0 (length a))).
Proof.
  intros Hb. unfold set_items.
  replace (forallb _ idxs) with true.
  2:{ symmetry. apply forallb_forall. intros i Hi. apply Nat.ltb_lt.
      rewrite length_map. now apply Hb. }
  f_equal. apply (nth_ext _ _ nzero nzero).
  - now rewrite fold_set_item_length, !length_map, length_seq.
  - intros j Hj. rewrite fold_set_item_length, length_map in Hj.
    rewrite fold_set_item_nth by (now rewrite length_map).
    rewrite nth_map_seq by exact Hj.
    destruct (existsb (Nat.eqb j) idxs); [reflexivity |].
    now apply nth_map_const.
Qed.

Lemma mul_arrays_mask (g : nat -> R) (a : list R) (start : nat) :
  mul_arrays a (map g (seq start (length a)))
  = map (fun p => nmul (snd p) (g (fst p))) (combine (seq start (length a)) a).
Proof.
  unfold mul_arrays. revert start.
  induction a as [| x a IH]; intros start; simpl; [reflexivity |].
  now rewrite IH.
Qed.

End SelectionFacts.

(** * Further properties of the notebooks' code *)

(** ** [visualization_record]: shape, prediction and the default fraction *)

Lemma normalize_step_length {R : Type} {ops : NumOps R}
      (normalize : bool) (a a1 : list R) :
  normalize_step normalize a = OK a1 -> length a1 = length a.
Proof.
  unfold normalize_step. destruct normalize; [| now intros [= <-]].
  intros H. bind_inv H. bind_inv H. injection H as <-. apply length_map.
Qed.

(** X1: whatever the arithmetic, the settings and the outcome of
    [np.argsort], a returned record displays exactly one value per entry of
    the attribution vector it was given. *)
Theorem displayed_length_is_input_length :
  forall (R : Type) (ops : NumOps R) (argsort : list R -> list nat) (L T : Type)
         (a : list R) (text : list T) (pred delta : R) (lbl : L)
         (normalize : bool) (f : option R) (mtp : bool)
         (r : VisualizationDataRecord R L T),
    visualization_record argsort a text pred delta lbl normalize f mtp = OK r ->
    length (word_attributions r) = length a.
Proof.
  intros R ops argsort L T a text pred delta lbl normalize f mtp r Hr.
  destruct (visualization_record_inv argsort L T _ _ _ _ _ _ _ _ _ Hr)
    as (a1 & a2 & E1 & E2 & -> & _).
  apply select_step_length in E2. apply normalize_step_length in E1. congruence.
Qed.

Lemma displayed_length_is_input_length_witness :
  exists r,
    visualization_record (@stable_argsort float float_ops)
      [0.3; -0.9; 0.2; 0.1]%float ["a"; "b"; "c"; "d"]%string
      0.2%float 0%float 1%Z true (Some 0.5%float) true = OK r
    /\ length (word_attributions r) = 4.
Proof.
  eexists. split; [vm_compute; reflexivity |].
  refine (displayed_length_is_input_length float float_ops
            (@stable_argsort float float_ops) Z string
            [0.3; -0.9; 0.2; 0.1]%float ["a"; "b"; "c"; "d"]%string
            0.2%float 0%float 1%Z true (Some 0.5%float) true _ _).
  vm_compute. reflexivity.
Defined.

Lemma float_abs_opp (x : float) : abs (- x) = abs x.
Proof.
  apply Prim2SF_inj. rewrite !abs_spec, opp_spec.
  now destruct (Prim2SF x).
Qed.

Lemma salience_unsigned (a : list float) (pred : float) :
  salience a pred false = map abs a.
Proof.
  unfold salience. cbn [negb nltb nhalf nopp nabs float_ops].
  destruct (PrimFloat.ltb pred 0.5); [| reflexivity].
  rewrite map_map. apply map_ext. apply float_abs_opp.
Qed.

(** X2: with [match_to_pred] disabled the displayed vector does not depend
    on the prediction (nor on the text, the delta or the label): the
    negation applied below 0.5 is undone by the absolute value (binary64). *)
Theorem displayed_independent_of_prediction :
  forall (argsort : list float -> list nat) (L T L' T' : Type)
         (a : list float) (text : list T) (text' : list T')
         (pred pred' delta delta' : float) (lbl : L) (lbl' : L')
         (normalize : bool) (f : option float),
    displayed (visualization_record argsort a text pred delta lbl normalize f false)
    = displayed (visualization_record argsort a text' pred' delta' lbl'
                   normalize f false).
Proof.
  intros argsort L T L' T' a text text' pred pred' delta delta' lbl lbl' normalize f.
  unfold displayed, visualization_record.
  destruct (normalize_step normalize a) as [a1 | e]; [| reflexivity].
  cbn [bind]. unfold select_step.
  destruct f as [f |]; [| reflexivity].
  destruct (nltb f nunit); [| reflexivity].
  destruct (ntrunc _) as [k | e]; [| reflexivity].
  cbn [bind]. rewrite !salience_unsigned.
  destruct (set_items _ _ _); reflexivity.
Qed.

Lemma float_mul_zero (x : float) :
  float_is_finite x = true -> is_fzero (x * 0)%float.
Proof.
  unfold float_is_finite. intros Hx.
  assert (E : exists s, Prim2SF (x * 0) = S754_zero s).
  { rewrite mul_spec. change (Prim2SF 0) with (S754_zero false).
    destruct (Prim2SF x) as [s | s | | s m e]; try discriminate; simpl; eauto. }
  destruct E as (s & E). apply (f_equal SF2Prim) in E.
  rewrite SF2Prim_Prim2SF in E. rewrite E.
  destruct s; [right | left]; reflexivity.
Qed.

Lemma mul_arrays_zeros {R : Type} {ops : NumOps R} (a : list R) :
  mul_arrays a (map (fun _ => nzero) a) = map (fun x => nmul x nzero) a.
Proof.
  unfold mul_arrays. induction a as [| x a IH]; simpl; [reflexivity |].
  now rewrite IH.
Qed.

(** When [num_show] is zero nothing is selected, whatever [np.argsort]
    returns: every entry is multiplied by zero. *)
Lemma select_step_none_shown {R : Type} {ops : NumOps R}
      (argsort : list R -> list nat) (f pred : R) (mtp : bool) (a : list R) :
  nltb f nunit = true ->
  ntrunc (nmul f (nof_nat (length a))) = OK 0%Z ->
  select_step argsort (Some f) mtp pred a = OK (map (fun x => nmul x nzero) a).
Proof.
  intros Hf Hk. unfold select_step. rewrite Hf, Hk. cbn [bind].
  unfold top_idxs_of, py_slice_to, set_items. simpl.
  now rewrite mul_arrays_zeros.
Qed.

Lemma default_fraction_shows_none (n : nat) :
  n < 20 -> float_trunc (0.05 * float_of_nat n) = OK 0%Z.
Proof.
  intros Hn.
  do 20 (destruct n as [| n]; [vm_compute; reflexivity |]). lia.
Qed.

(** X3: with the default [max_frac_to_show = 0.05], a vector of fewer than
    20 finite entries is displayed with every entry zero (of either sign):
    [int(0.05 * n)] is 0, so no position is selected (binary64,
    normalization disabled). *)
Theorem default_fraction_hides_short_vectors :
  forall (argsort : list float -> list nat) (L T : Type)
         (a : list float) (text : list T) (pred delta : float) (lbl : L)
         (mtp : bool),
    length a < 20 ->
    forallb float_is_finite a = true ->
    exists out,
      displayed (visualization_record argsort a text pred delta lbl false
                   (Some 0.05%float) mtp) = OK out /\
      length out = length a /\ Forall is_fzero out.
Proof.
  intros argsort L T a text pred delta lbl mtp Hn Hfin.
  exists (map (fun x => x * 0)%float a).
  split; [| split].
  - unfold displayed, visualization_record. cbn [normalize_step bind].
    rewrite (select_step_none_shown argsort 0.05%float pred mtp a);
      [reflexivity | reflexivity |].
    now apply default_fraction_shows_none.
  - apply length_map.
  - rewrite forallb_forall in Hfin. apply Forall_forall.
    intros y Hy. apply in_map_iff in Hy. destruct Hy as (x & <- & Hx).
    apply float_mul_zero. now apply Hfin.
Qed.

Lemma default_fraction_hides_short_vectors_witness :
  exists out,
    displayed (visualization_record (@stable_argsort float float_ops)
                 [0.3; -0.9; 0.2]%float ["a"; "b"; "c"]%string
                 0.7%float 0%float 1%Z false (Some 0.05%float) false) = OK out
    /\ length out = 3 /\ Forall is_fzero out.
Proof.
  refine (default_fraction_hides_short_vectors
            (@stable_argsort float float_ops) Z string
            [0.3; -0.9; 0.2]%float ["a"; "b"; "c"]%string
            0.7%float 0%float 1%Z false _ _).
  - simpl. lia.
  - reflexivity.
Defined.

(** ** [attributions_dataset] and [tokens_dataset]: shapes and the happy path *)

Lemma comprehension_length {A B : Type} (f : A -> result B) (l : list A)
      (ys : list B) :
  comprehension f l = OK ys -> length ys = length l.
Proof.
  revert ys. induction l as [| x l IH]; intros ys; simpl.
  - now intros [= <-].
  - intros H. bind_inv H. bind_inv H. injection H as <-.
    simpl. f_equal. now apply IH.
Qed.

Lemma comprehension_nth {A B : Type} (f : A -> result B) (l : list A)
      (ys : list B) (i : nat) (y : B) :
  comprehension f l = OK ys -> nth_error ys i = Some y ->
  exists x, nth_error l i = Some x /\ f x = OK y.
Proof.
  revert ys i. induction l as [| x l IH]; intros ys i; simpl.
  - intros [= <-]. now destruct i.
  - intros H. bind_inv H. bind_inv H. injection H as <-.
    destruct i as [| i]; simpl.
    + intros [= <-]. eauto.
    + intros Hi. eapply IH; eauto.
Qed.

Lemma comprehension_map {A B : Type} (f : A -> result B) (g : A -> B) (l : list A) :
  (forall x, In x l -> f x = OK (g x)) -> comprehension f l = OK (map g l).
Proof.
  induction l as [| x l IH]; intros H; simpl; [reflexivity |].
  rewrite (H x) by now left. cbn [bind].
  rewrite IH by (intros y Hy; apply H; now right). reflexivity.
Qed.

(** X8: when both lists are built, each has one instance per record of
    [shap_out], in order, and an instance has as many tokens as it has
    attributions. *)
Theorem datasets_are_aligned :
  forall (shap_out : list json) (a t : list (list json)),
    build_datasets shap_out = OK (a, t) ->
    length a = length shap_out /\ length t = length shap_out /\
    forall i attrs toks,
      nth_error a i = Some attrs -> nth_error t i = Some toks ->
      length attrs = length toks.
Proof.
  intros shap_out a t H. unfold build_datasets in H.
  bind_inv H. bind_inv H. injection H as <- <-.
  split; [now apply comprehension_length in E |].
  split; [now apply comprehension_length in E0 |].
  intros i attrs toks Ha Ht.
  destruct (comprehension_nth _ _ _ _ _ E Ha) as (x & Hx & Ex).
  destruct (comprehension_nth _ _ _ _ _ E0 Ht) as (x' & Hx' & Ex').
  assert (x' = x) by congruence. subst x'.
  unfold record_attributions in Ex. unfold record_tokens in Ex'.
  destruct (entries x) as [es | e]; [| discriminate]. cbn [bind] in *.
  apply comprehension_length in Ex. apply comprehension_length in Ex'.
  congruence.
Qed.

Lemma datasets_are_aligned_witness :
  exists a t,
    build_datasets
      [clarify_record "Review Text"
         [("Great top."%string, 0%Z, [0.5%float]);
          ("Fits well."%string, 11%Z, [0.25%float])];
       clarify_record "Review Text" [("Too small."%string, 0%Z, [(-0.75)%float])]]
    = OK (a, t)
    /\ length a = 2 /\ length t = 2.
Proof.
  eexists. eexists. split; [vm_compute; reflexivity |].
  match goal with
  | |- length ?a = _ /\ length ?t = _ =>
      destruct (datasets_are_aligned
                  [clarify_record "Review Text"
                     [("Great top."%string, 0%Z, [0.5%float]);
                      ("Fits well."%string, 11%Z, [0.25%float])];
                   clarify_record "Review Text"
                     [("Too small."%string, 0%Z, [(-0.75)%float])]]
                  a t ltac:(vm_compute; reflexivity)) as (Ha & Ht & _)
  end.
  split; [exact Ha | exact Ht].
Defined.

Lemma entries_clarify_record (name : string) (units : list (string * Z * list float)) :
  entries (clarify_record name units) = OK (map clarify_entry units).
Proof. reflexivity. Qed.

(** X9: on records of the shape the notebook describes, every unit carrying
    at least one attribution value, both lists are built: an instance holds
    the first attribution value of each unit, respectively each unit's
    text, in the order of the record. *)
Theorem datasets_of_clarify_records :
  forall (records : list (string * list (string * Z * list float))),
    (forall name units u, In (name, units) records -> In u units ->
                          snd u <> []) ->
    build_datasets (map (fun r => clarify_record (fst r) (snd r)) records)
    = OK (map (fun r => map (fun u => JFloat (hd 0%float (snd u))) (snd r)) records,
          map (fun r => map (fun u => JStr (fst (fst u))) (snd r)) records).
Proof.
  intros records Hne. unfold build_datasets, attributions_dataset, tokens_dataset.
  rewrite (comprehension_map record_attributions
             (fun j => match entries j with
                       | OK es => map (fun e => match attribution_of e with
                                                | OK v => v
                                                | Raise _ => JNull
                                                end) es
                       | Raise _ => []
                       end)).
  2:{ intros j Hj. apply in_map_iff in Hj. destruct Hj as ([name units] & <- & Hr).
      unfold record_attributions. cbn [fst snd].
      rewrite entries_clarify_record. cbn [bind].
      apply comprehension_map. intros e He. apply in_map_iff in He.
      destruct He as ([[tok start] vs] & <- & Hu).
      specialize (Hne name units _ Hr Hu). cbn [snd] in Hne.
      destruct vs as [| v vs]; [congruence |]. reflexivity. }
  cbn [bind].
  rewrite (comprehension_map record_tokens
             (fun j => match entries j with
                       | OK es => map (fun e => match token_of e with
                                                | OK v => v
                                                | Raise _ => JNull
                                                end) es
                       | Raise _ => []
                       end)).
  2:{ intros j Hj. apply in_map_iff in Hj. destruct Hj as ([name units] & <- & Hr).
      unfold record_tokens. cbn [fst snd].
      rewrite entries_clarify_record. cbn [bind].
      apply comprehension_map. intros e He. apply in_map_iff in He.
      destruct He as ([[tok start] vs] & <- & Hu). reflexivity. }
  cbn [bind]. rewrite !map_map. f_equal. f_equal.
  - apply map_ext_in. intros [name units] Hr. cbn [fst snd].
    rewrite entries_clarify_record, map_map. apply map_ext_in.
    intros [[tok start] vs] Hu. specialize (Hne name units _ Hr Hu).
    cbn [snd] in *. destruct vs as [| v vs]; [congruence | reflexivity].
  - apply map_ext. intros [name units]. cbn [fst snd].
    rewrite entries_clarify_record, map_map. apply map_ext.
    intros [[tok start] vs]. reflexivity.
Qed.

Lemma datasets_of_clarify_records_witness :
  build_datasets
    (map (fun r => clarify_record (fst r) (snd r))
         [("Review Text"%string,
           [("Great top."%string, 0%Z, [0.5%float]);
            ("Fits well."%string, 11%Z, [0.25%float])])])
  = OK ([[JFloat 0.5%float; JFloat 0.25%float]],
        [[JStr "Great top."; JStr "Fits well."]]).
Proof.
  refine (datasets_of_clarify_records
            [("Review Text"%string,
              [("Great top."%string, 0%Z, [0.5%float]);
               ("Fits well."%string, 11%Z, [0.25%float])])] _).
  intros name units u [[= <- <-] | []] [<- | [<- | []]]; discriminate.
Defined.

(** ** The loop that fills [shap_out] *)

Lemma split_newline_line (s : string) :
  has_newline s = false -> split_newline s = [s].
Proof.
  induction s as [| c s IH]; simpl; [reflexivity |].
  destruct (Ascii.eqb c "010"); simpl; [discriminate |].
  intros H. now rewrite IH.
Qed.

Lemma split_newline_append (s rest : string) :
  has_newline s = false ->
  split_newline (s ++ String "010" rest) = s :: split_newline rest.
Proof.
  induction s as [| c s IH]; simpl; [reflexivity |].
  destruct (Ascii.eqb c "010"); simpl; [discriminate |].
  intros H. now rewrite IH.
Qed.

(** Splitting what was joined with line feeds gives the lines back. *)
Lemma split_newline_concat (lines : list string) :
  lines <> [] -> forallb (fun l => negb (has_newline l)) lines = true ->
  split_newline (String.concat (String "010" EmptyString) lines) = lines.
Proof.
  induction lines as [| l lines IH]; [congruence |]. intros _ H.
  cbn [forallb] in H. apply andb_true_iff in H. destruct H as (Hl & Hrest).
  apply negb_true_iff in Hl.
  destruct lines as [| l' lines]; [now apply split_newline_line |].
  change (String.concat (String "010" EmptyString) (l :: l' :: lines))
    with (l ++ String "010" (String.concat (String "010" EmptyString) (l' :: lines)))%string.
  rewrite split_newline_append by exact Hl.
  f_equal. apply IH; [discriminate | exact Hrest].
Qed.

Section LoadShapOut.

Variable loads : string -> result json.
Variable parsed : string -> json.

Let body (line : string) : result (option json) :=
  match line with
  | EmptyString => OK None
  | _ => x <- loads line ;; OK (Some x)
  end.

Lemma load_loop_ok (lines : list string) (acc : list json) :
  (forall line, In line lines -> nonempty line = true -> loads line = OK (parsed line)) ->
  append_loop body lines acc = (acc ++ map parsed (filter nonempty lines), None).
Proof.
  revert acc. induction lines as [| l lines IH]; intros acc H; simpl.
  - now rewrite app_nil_r.
  - destruct l as [| c l]; simpl.
    + apply IH. intros line Hin. apply H. now right.
    + rewrite (H (String c l)) by (auto; now left). cbn [bind].
      rewrite IH by (intros line Hin; apply H; now right).
      now rewrite <- app_assoc.
Qed.

Lemma load_loop_raise (pre post : list string) (bad : string) (e : exn)
      (acc : list json) :
  (forall line, In line pre -> nonempty line = true -> loads line = OK (parsed line)) ->
  nonempty bad = true -> loads bad = Raise e ->
  append_loop body (pre ++ bad :: post) acc
  = (acc ++ map parsed (filter nonempty pre), Some e).
Proof.
  revert acc. induction pre as [| l pre IH]; intros acc H Hbad Eb; simpl.
  - destruct bad as [| c bad]; [discriminate |]. simpl. rewrite Eb.
    now rewrite app_nil_r.
  - destruct l as [| c l]; simpl.
    + apply IH; auto. intros line Hin. apply H. now right.
    + rewrite (H (String c l)) by (auto; now left). cbn [bind].
      rewrite IH; auto.
      * now rewrite <- app_assoc.
      * intros line Hin. apply H. now right.
Qed.

End LoadShapOut.

(** X10: [shap_out] receives the parsed non-empty lines of the file, in
    order: empty lines, and so a line feed at the end of the file, add
    nothing. *)
Theorem load_shap_out_skips_empty_lines :
  forall (loads : string -> result json) (parsed : string -> json)
         (lines : list string),
    lines <> [] ->
    forallb (fun l => negb (has_newline l)) lines = true ->
    (forall line, In line lines -> nonempty line = true ->
                  loads line = OK (parsed line)) ->
    load_shap_out loads (String.concat (String "010" EmptyString) lines)
    = (map parsed (filter nonempty lines), None).
Proof.
  intros loads parsed lines Hne Hnl Hok. unfold load_shap_out.
  rewrite (split_newline_concat lines Hne Hnl).
  apply (load_loop_ok loads parsed lines [] Hok).
Qed.

Lemma load_shap_out_skips_empty_lines_witness :
  load_shap_out (fun line => OK (JStr line))
    (String.concat (String "010" EmptyString) ["a"; ""; "b"; ""]%string)
  = ([JStr "a"; JStr "b"], None).
Proof.
  refine (load_shap_out_skips_empty_lines (fun line => OK (JStr line)) JStr
            ["a"; ""; "b"; ""]%string _ _ _).
  - discriminate.
  - reflexivity.
  - reflexivity.
Defined.

(** X11: a non-empty line that [json.loads] rejects stops the loop with
    that exception; [shap_out] then holds the records of the lines before
    it and none of the lines after it. *)
Theorem load_shap_out_stops_at_bad_line :
  forall (loads : string -> result json) (parsed : string -> json)
         (pre post : list string) (bad : string) (e : exn),
    forallb (fun l => negb (has_newline l)) (pre ++ bad :: post) = true ->
    (forall line, In line pre -> nonempty line = true ->
                  loads line = OK (parsed line)) ->
    nonempty bad = true -> loads bad = Raise e ->
    load_shap_out loads (String.concat (String "010" EmptyString) (pre ++ bad :: post))
    = (map parsed (filter nonempty pre), Some e).
Proof.
  intros loads parsed pre post bad e Hnl Hok Hbad Eb. unfold load_shap_out.
  rewrite split_newline_concat; [| now destruct pre | exact Hnl].
  apply (load_loop_raise loads parsed pre post bad e [] Hok Hbad Eb).
Qed.

Lemma load_shap_out_stops_at_bad_line_witness :
  load_shap_out (fun line => if String.eqb line "{" then Raise ValueError
                             else OK (JStr line))
    (String.concat (String "010" EmptyString) (["a"; ""]%string ++ "{"%string :: ["b"]%string)%list)
  = ([JStr "a"], Some ValueError).
Proof.
  refine (load_shap_out_stops_at_bad_line
            (fun line => if String.eqb line "{" then Raise ValueError
                         else OK (JStr line)) JStr
            ["a"; ""]%string ["b"]%string "{"%string ValueError _ _ _ _).
  - reflexivity.
  - intros line [<- | [<- | []]]; [reflexivity | discriminate].
  - reflexivity.
  - reflexivity.
Defined.

(** ** The loop that fills [vis] *)

Lemma append_loop_app {A B : Type} (body : A -> result (option B))
      (l1 l2 : list A) (acc : list B) :
  append_loop body (l1 ++ l2) acc
  = match append_loop body l1 acc with
    | (acc', None) => append_loop body l2 acc'
    | stopped => stopped
    end.
Proof.
  revert acc. induction l1 as [| x l1 IH]; intros acc; simpl; [reflexivity |].
  destruct (body x) as [[y |] | e]; auto.
Qed.

Lemma append_loop_finished {A B : Type} (body : A -> result (option B))
      (l : list A) (acc res : list B) :
  (forall x, body x <> OK None) ->
  append_loop body l acc = (res, None) ->
  exists ys, res = acc ++ ys /\ Forall2 (fun x y => body x = OK (Some y)) l ys.
Proof.
  intros Hsome. revert acc. induction l as [| x l IH]; intros acc; simpl.
  - intros [= <-]. exists []. split; [now rewrite app_nil_r | constructor].
  - destruct (body x) as [[y |] | e] eqn:E.
    + intros H. destruct (IH _ H) as (ys & -> & Hys).
      exists (y :: ys). split; [now rewrite <- app_assoc | now constructor].
    + now destruct (Hsome x).
    + discriminate.
Qed.

Lemma zip4_length {A B C D : Type} (a : list A) (b : list B) (c : list C)
      (d : list D) :
  length (zip4 a b c d)
  = Nat.min (Nat.min (length a) (length b)) (Nat.min (length c) (length d)).
Proof.
  revert b c d. induction a as [| x a IH]; intros [| y b] [| z c] [| w d];
    simpl; try reflexivity; try lia.
  now rewrite IH.
Qed.

Lemma zip4_nth {A B C D : Type} (a : list A) (b : list B) (c : list C)
      (d : list D) (i : nat) (x : A) (y : B) (z : C) (w : D) :
  nth_error (zip4 a b c d) i = Some (x, y, z, w) ->
  nth_error a i = Some x /\ nth_error b i = Some y /\
  nth_error c i = Some z /\ nth_error d i = Some w.
Proof.
  revert b c d i. induction a as [| x0 a IH]; intros [| y0 b] [| z0 c] [| w0 d] i;
    simpl; try (destruct i; discriminate).
  destruct i as [| i]; simpl; [now intros [= -> -> -> ->] | apply IH].
Qed.

Lemma zip4_app {A B C D : Type} (a1 a2 : list A) (b1 b2 : list B)
      (c1 c2 : list C) (d1 d2 : list D) :
  length b1 = length a1 -> length c1 = length a1 -> length d1 = length a1 ->
  zip4 (a1 ++ a2) (b1 ++ b2) (c1 ++ c2) (d1 ++ d2)
  = zip4 a1 b1 c1 d1 ++ zip4 a2 b2 c2 d2.
Proof.
  revert b1 c1 d1. induction a1 as [| x a1 IH]; intros [| y b1] [| z c1] [| w d1];
    simpl; try discriminate; [reflexivity |].
  intros Hb Hc Hd. f_equal. apply IH; lia.
Qed.

Lemma visualization_record_fields {R : Type} {ops : NumOps R}
      (argsort : list R -> list nat) (L T : Type)
      (a : list R) (text : list T) (pred delta : R) (lbl : L)
      (normalize : bool) (f : option R) (mtp : bool)
      (r : VisualizationDataRecord R L T) :
  visualization_record argsort a text pred delta lbl normalize f mtp = OK r ->
  raw_input_ids r = text /\ true_class r = lbl /\ pred_prob r = pred /\
  convergence_score r = delta.
Proof.
  unfold visualization_record. intros H.
  bind_inv H. bind_inv H. injection H as <-. simpl. auto.
Qed.

(** X12: when the loop over the zipped lists finishes, [vis] holds one
    record per instance, as many as the shortest of the four lists; the
    record at a position carries that instance's tokens and label, and
    displays one value per attribution of the instance. *)
Theorem build_vis_records :
  forall (R S L T : Type) (ops : NumOps R)
         (argsort : list R -> list nat) (py_float : S -> result R)
         (attributions_dataset : list (list R)) (tokens_dataset : list (list T))
         (preds : list (list S)) (labels : list L)
         (normalize : bool) (f : option R) (mtp : bool)
         (vis : list (VisualizationDataRecord R L T)),
    build_vis argsort py_float attributions_dataset tokens_dataset preds labels
              normalize f mtp = (vis, None) ->
    length vis
    = Nat.min (Nat.min (length attributions_dataset) (length tokens_dataset))
              (Nat.min (length preds) (length labels)) /\
    forall i r,
      nth_error vis i = Some r ->
      exists attr token label,
        nth_error attributions_dataset i = Some attr /\
        nth_error tokens_dataset i = Some token /\
        nth_error labels i = Some label /\
        raw_input_ids r = token /\ true_class r = label /\
        length (word_attributions r) = length attr.
Proof.
  intros R S L T ops argsort py_float A Tk P Lb normalize f mtp vis H.
  unfold build_vis in H. apply append_loop_finished in H.
  2:{ intros [[[attr tok] row] lbl] E.
      destruct (row_first row) as [p0 |]; [| discriminate]. cbn [bind] in E.
      destruct (py_float p0) as [p |]; [| discriminate]. cbn [bind] in E.
      destruct (visualization_record _ _ _ _ _ _ _ _ _); discriminate. }
  destruct H as (ys & -> & Hys). simpl. split.
  - rewrite <- (Forall2_length Hys). apply zip4_length.
  - intros i r Hr.
    assert (Hx : exists x, nth_error (zip4 A Tk P Lb) i = Some x
                           /\ (let '(attr, token, pred, label) := x in
                               p0 <- row_first pred ;;
                               p <- py_float p0 ;;
                               r <- visualization_record argsort attr token p nzero
                                      label normalize f mtp ;;
                               OK (Some r)) = OK (Some r)).
    { clear -Hys Hr. revert i Hr.
      induction Hys as [| x y l ys Hxy _ IH]; intros [| i] Hr; simpl in *;
        try discriminate.
      - injection Hr as ->. eauto.
      - now apply IH. }
    destruct Hx as ([[[attr tok] row] lbl] & Hi & E).
    apply zip4_nth in Hi. destruct Hi as (Ha & Ht & _ & Hl).
    bind_inv E. bind_inv E. bind_inv E. injection E as <-.
    exists attr, tok, lbl. repeat split; auto.
    + now apply (visualization_record_fields _ _ _ _ _ _ _ _ _ _ _ _ E2).
    + now apply (visualization_record_fields _ _ _ _ _ _ _ _ _ _ _ _ E2).
    + destruct (visualization_record_inv argsort L T _ _ _ _ _ _ _ _ _ E2)
        as (v1 & v2 & E3 & E4 & -> & _).
      apply select_step_length in E4. apply normalize_step_length in E3.
      congruence.
Qed.

Lemma build_vis_records_witness :
  exists vis,
    build_vis (@stable_argsort float float_ops) (fun x : float => OK x)
      [[0.2; -0.8; 0.1]; [0.5; 0.25]]%float
      [["a"; "b"; "c"]; ["d"; "e"]; ["f"]]%string
      [[0.9]; [0.1]; [0.4]]%float [1; 0; 1]%Z true (Some 1%float) false
    = (vis, None)
    /\ length vis = 2.
Proof.
  eexists. split; [vm_compute; reflexivity |].
  match goal with
  | |- length ?vis = _ =>
      exact (proj1 (build_vis_records float float Z string float_ops
                      (@stable_argsort float float_ops) (fun x : float => OK x)
                      [[0.2; -0.8; 0.1]; [0.5; 0.25]]%float
                      [["a"; "b"; "c"]; ["d"; "e"]; ["f"]]%string
                      [[0.9]; [0.1]; [0.4]]%float [1; 0; 1]%Z
                      true (Some 1%float) false vis
                      ltac:(vm_compute; reflexivity)))
  end.
Defined.

(** X13: with normalization enabled, as the notebook sets it, an instance
    whose attribution vector is empty stops the loop with [ValueError];
    [vis] then holds the records of the instances before it only. *)
Theorem build_vis_stops_at_empty_instance :
  forall (R S L T : Type) (ops : NumOps R)
         (argsort : list R -> list nat) (py_float : S -> result R)
         (attrs1 attrs2 : list (list R)) (tokens1 tokens2 : list (list T))
         (preds1 preds2 : list (list S)) (labels1 labels2 : list L)
         (token : list T) (row : list S) (label : L) (p0 : S) (p : R)
         (f : option R) (mtp : bool)
         (vis1 : list (VisualizationDataRecord R L T)),
    length tokens1 = length attrs1 -> length preds1 = length attrs1 ->
    length labels1 = length attrs1 ->
    build_vis argsort py_float attrs1 tokens1 preds1 labels1 true f mtp
    = (vis1, None) ->
    row_first row = OK p0 -> py_float p0 = OK p ->
    build_vis argsort py_float (attrs1 ++ [] :: attrs2) (tokens1 ++ token :: tokens2)
              (preds1 ++ row :: preds2) (labels1 ++ label :: labels2) true f mtp
    = (vis1, Some ValueError).
Proof.
  intros R S L T ops argsort py_float A1 A2 T1 T2 P1 P2 L1 L2 tok row lbl p0 p
         f mtp vis1 Ht Hp Hl H1 Hrow Hfloat.
  unfold build_vis in *. rewrite zip4_app by assumption.
  rewrite append_loop_app, H1. cbn [zip4 append_loop].
  rewrite Hrow. cbn [bind]. rewrite Hfloat. reflexivity.
Qed.

Lemma build_vis_stops_at_empty_instance_witness :
  exists vis1,
    build_vis (@stable_argsort float float_ops) (fun x : float => OK x)
      ([[0.2; -0.8; 0.1]%float] ++ [] :: [[0.5; 0.25]%float])
      ([["a"; "b"; "c"]%string] ++ [] :: [["d"; "e"]%string])
      ([[0.9%float]] ++ [0.1%float] :: [[0.4%float]]) ([1%Z] ++ 0%Z :: [1%Z])
      true (Some 1%float) false
    = (vis1, Some ValueError)
    /\ length vis1 = 1.
Proof.
  eexists. split.
  - refine (build_vis_stops_at_empty_instance
              float float Z string float_ops
              (@stable_argsort float float_ops) (fun x : float => OK x)
              [[0.2; -0.8; 0.1]%float] [[0.5; 0.25]%float]
              [["a"; "b"; "c"]%string] [["d"; "e"]%string]
              [[0.9%float]] [[0.4%float]] [1%Z] [1%Z]
              [] [0.1%float] 0%Z 0.1%float 0.1%float
              (Some 1%float) false _ _ _ _ _ _ _);
      reflexivity.
  - reflexivity.
Defined.

(** ** [create_target_column]: row filters and thresholds without a gap *)

Lemma filter_comm {A : Type} (p q : A -> bool) (l : list A) :
  filter p (filter q l) = filter q (filter p l).
Proof.
  induction l as [| x l IH]; simpl; [reflexivity |].
  destruct (p x) eqn:Ep, (q x) eqn:Eq; simpl; rewrite ?Ep, ?Eq, IH; reflexivity.
Qed.

Lemma filter_map_swap {A B : Type} (g : A -> B) (p : B -> bool) (l : list A) :
  filter p (map g l) = map g (filter (fun x => p (g x)) l).
Proof.
  induction l as [| x l IH]; simpl; [reflexivity |].
  destruct (p (g x)); simpl; now rewrite IH.
Qed.

(** X14: labelling is row by row: dropping rows by any test on the row
    before [create_target_column] or after it gives the same frame; in
    particular the notebook's cell, which drops the rows without review text
    after labelling, returns what labelling the rows with a text returns. *)
Theorem create_target_column_commutes_with_row_filters :
  (forall (A : Type) (keep : review_row A -> bool) (df : list (review_row A))
          (min_positive_score max_negative_score : Z),
      create_target_column (filter keep df) min_positive_score max_negative_score
      = filter (fun rs => keep (fst rs))
               (create_target_column df min_positive_score max_negative_score))
  /\
  (forall df : list (review_row (option string)),
      prepare_reviews df
      = create_target_column
          (filter (fun r => match other_columns r with
                            | Some _ => true
                            | None => false
                            end) df) 4 2).
Proof.
  assert (H : forall (A : Type) (keep : review_row A -> bool) (df : list (review_row A))
                     (minp maxn : Z),
             create_target_column (filter keep df) minp maxn
             = filter (fun rs => keep (fst rs)) (create_target_column df minp maxn)).
  { intros A keep df minp maxn. rewrite !create_target_column_eq.
    rewrite filter_map_swap. cbn [fst]. f_equal. apply filter_comm. }
  split; [exact H |].
  intros df. unfold prepare_reviews, drop_missing_text. now rewrite H.
Qed.

(** X15: when the thresholds leave no rating in between
    ([min_positive_score <= max_negative_score + 1]) no row is dropped, and
    a rating that meets both thresholds is labelled positive. *)
Theorem create_target_column_without_gap :
  forall (A : Type) (df : list (review_row A)) (min_positive_score max_negative_score : Z),
    (min_positive_score <= max_negative_score + 1)%Z ->
    create_target_column df min_positive_score max_negative_score
    = map (fun r => (r, if (min_positive_score <=? Rating r)%Z then 1%Z else 0%Z)) df.
Proof.
  intros A df minp maxn Hgap. rewrite create_target_column_eq. f_equal.
  rewrite <- (filter_ext (fun _ => true)).
  - induction df as [| r df IH]; simpl; [reflexivity | now rewrite IH].
  - intros r. symmetry. apply orb_true_iff.
    destruct (Z.leb_spec (Rating r) maxn); [now left |].
    right. apply Z.leb_le. lia.
Qed.

Lemma create_target_column_without_gap_witness :
  create_target_column
    [ {| Rating := 5; other_columns := "great"%string |};
      {| Rating := 3; other_columns := "fine"%string |};
      {| Rating := 1; other_columns := "poor"%string |} ] 3 3
  = [ ({| Rating := 5%Z; other_columns := "great"%string |}, 1%Z);
      ({| Rating := 3%Z; other_columns := "fine"%string |}, 1%Z);
      ({| Rating := 1%Z; other_columns := "poor"%string |}, 0%Z) ].
Proof.
  refine (create_target_column_without_gap string _ 3 3 _). lia.
Defined.

(** ** [number_encode_features]: the encoders, a second pass, the order of codes *)

Lemma encode_loop_encoders (todo done : DataFrame)
      (encoders : list (string * LabelEncoder)) :
  NoDup (map fst (done ++ todo)) ->
  for_each encode_column (map fst todo) (encoded_frame done ++ todo, encoders)
  = OK (encoded_frame (done ++ todo), encoders ++ fitted_encoders todo).
Proof.
  revert done encoders. induction todo as [| [n c] todo IH]; intros done encoders Hnd.
  - simpl. now rewrite !app_nil_r.
  - assert (Hn : ~ In n (map fst (encoded_frame done))).
    { rewrite encoded_frame_names. rewrite map_app in Hnd. simpl in Hnd.
      apply NoDup_remove_2 in Hnd. intros Hin. apply Hnd.
      apply in_or_app. now left. }
    assert (Hstep :
             encode_column (encoded_frame done ++ (n, c) :: todo, encoders) n
             = OK (encoded_frame (done ++ [(n, c)]) ++ todo,
                   encoders ++ fitted_encoders [(n, c)])).
    { assert (Ef : encoded_frame (done ++ [(n, c)]) ++ todo
                   = encoded_frame done ++ (n, encoded c) :: todo).
      { unfold encoded_frame. rewrite map_app, <- app_assoc. reflexivity. }
      rewrite Ef. unfold encode_column.
      rewrite (get_column_app _ _ _ _ Hn). cbn [bind].
      destruct c as [l | l | l | cells];
        cbn [fitted_encoders flat_map snd fst app encoded];
        rewrite ?app_nil_r; try reflexivity.
      cbn [fit_transform]. now rewrite (set_column_app _ _ _ _ _ Hn). }
    cbn [map fst for_each]. rewrite Hstep. cbn [bind].
    rewrite (IH (done ++ [(n, c)]) _) by (now rewrite <- app_assoc).
    rewrite <- !app_assoc. cbn [app]. unfold fitted_encoders. cbn [flat_map].
    now rewrite app_nil_r.
Qed.

Lemma number_encode_features_eq (df : DataFrame) :
  wf_frame df ->
  number_encode_features df = OK (encoded_frame df, fitted_encoders df).
Proof.
  intros Hwf. apply (encode_loop_encoders df [] [] Hwf).
Qed.

Lemma get_column_In (df : DataFrame) (n : string) (c : column) :
  NoDup (map fst df) -> In (n, c) df -> get_column df n = OK c.
Proof.
  induction df as [| [m d] df IH]; simpl; intros Hnd Hin; [contradiction |].
  inversion Hnd as [| ? ? Hm Hnd']; subst.
  destruct Hin as [[= -> ->] | Hin]; [now rewrite String.eqb_refl |].
  destruct (String.eqb_spec m n) as [-> | _].
  - exfalso. apply Hm. apply in_map_iff. now exists (n, c).
  - now apply IH.
Qed.

Lemma fit_transform_decodes (y : list string) :
  Forall2 (fun code v => nth_error (fst (fit_transform y)) (Z.to_nat code) = Some v)
          (snd (fit_transform y)) y.
Proof.
  unfold fit_transform. cbn [fst snd].
  assert (H : forall s, In s y -> In s (unique_sorted y))
    by (intros s; apply unique_sorted_In).
  revert H. generalize (unique_sorted y) as classes.
  induction y as [| s y IH]; intros classes H; simpl; constructor.
  - rewrite Nat2Z.id. apply index_of_nth. apply H. now left.
  - apply IH. intros t Ht. apply H. now right.
Qed.

(** X16: on a frame with distinct column labels the function returns one
    encoder per object column, under the column's label and in column
    order, and each encoder decodes its column: the class at a cell's code
    is the cell's value (a missing one read as "None"). *)
Theorem number_encode_features_encoders_decode :
  forall df : DataFrame,
    wf_frame df ->
    exists result encoders,
      number_encode_features df = OK (result, encoders) /\
      map fst encoders = map fst (filter (fun nc => is_object (snd nc)) df) /\
      forall n cells,
        In (n, ObjCol cells) df ->
        exists classes codes,
          In (n, classes) encoders /\
          get_column result n = OK (IntCol codes) /\
          Forall2 (fun code v => nth_error classes (Z.to_nat code) = Some v)
                  codes (fillna_None cells).
Proof.
  intros df Hwf. exists (encoded_frame df), (fitted_encoders df).
  split; [now apply number_encode_features_eq |]. split.
  - clear Hwf. induction df as [| [n c] df IH]; [reflexivity |].
    change (fitted_encoders ((n, c) :: df))
      with (match c with
            | ObjCol cells => [(n, unique_sorted (fillna_None cells))]
            | _ => []
            end ++ fitted_encoders df).
    rewrite map_app. destruct c; cbn [map app filter is_object snd fst];
      try exact IH. f_equal. exact IH.
  - intros n cells Hin.
    exists (fst (fit_transform (fillna_None cells))),
           (snd (fit_transform (fillna_None cells))).
    split; [| split].
    + unfold fitted_encoders. apply in_flat_map.
      exists (n, ObjCol cells). split; [exact Hin | now left].
    + apply get_column_In.
      * now rewrite encoded_frame_names.
      * unfold encoded_frame. apply in_map_iff.
        exists (n, ObjCol cells). split; [reflexivity | exact Hin].
    + apply fit_transform_decodes.
Qed.

Lemma number_encode_features_encoders_decode_witness :
  exists result encoders,
    number_encode_features
      [("Age"%string, IntCol [39; 50; 38]%Z);
       ("Sex"%string, ObjCol [Some "Male"; None; Some "Female"]%string)]
    = OK (result, encoders)
    /\ encoders = [("Sex", ["Female"; "Male"; "None"])]%string.
Proof.
  destruct (number_encode_features_encoders_decode
              [("Age"%string, IntCol [39; 50; 38]%Z);
               ("Sex"%string, ObjCol [Some "Male"; None; Some "Female"]%string)])
    as (result & encoders & E & _).
  - unfold wf_frame. simpl.
    repeat (constructor; [simpl; intuition discriminate |]). constructor.
  - exists result, encoders. split; [exact E |].
    vm_compute in E. now injection E as _ <-.
Defined.

Lemma encoded_idempotent (c : column) : encoded (encoded c) = encoded c.
Proof. now destruct c. Qed.

Lemma fitted_encoders_encoded (df : DataFrame) :
  fitted_encoders (encoded_frame df) = [].
Proof.
  unfold fitted_encoders, encoded_frame.
  induction df as [| [n c] df IH]; simpl; [reflexivity |].
  rewrite IH. now destruct c.
Qed.

(** X17: a second pass changes nothing: the frame [number_encode_features]
    returns has no object column left, so encoding it again returns it as
    it is, with no encoder. *)
Theorem number_encode_features_idempotent :
  forall (df result : DataFrame) (encoders : list (string * LabelEncoder)),
    wf_frame df ->
    number_encode_features df = OK (result, encoders) ->
    number_encode_features result = OK (result, []).
Proof.
  intros df result encoders Hwf E.
  rewrite (number_encode_features_eq df Hwf) in E. injection E as <- _.
  rewrite number_encode_features_eq
    by (unfold wf_frame; now rewrite encoded_frame_names).
  rewrite fitted_encoders_encoded. f_equal. f_equal.
  unfold encoded_frame. rewrite map_map. apply map_ext.
  intros [n c]. cbn [fst snd]. now rewrite encoded_idempotent.
Qed.

Lemma number_encode_features_idempotent_witness :
  number_encode_features
    [("Age"%string, IntCol [39; 50; 38]%Z); ("Sex"%string, IntCol [1; 2; 0]%Z)]
  = OK ([("Age"%string, IntCol [39; 50; 38]%Z); ("Sex"%string, IntCol [1; 2; 0]%Z)],
        []).
Proof.
  refine (number_encode_features_idempotent
            [("Age"%string, IntCol [39; 50; 38]%Z);
             ("Sex"%string, ObjCol [Some "Male"; None; Some "Female"]%string)]
            _ [("Sex", ["Female"; "Male"; "None"])]%string _ _).
  - unfold wf_frame. simpl.
    repeat (constructor; [simpl; intuition discriminate |]). constructor.
  - reflexivity.
Defined.

Lemma ascii_compare_refl (a : ascii) : Ascii.compare a a = Eq.
Proof. apply N.compare_refl. Qed.

Lemma string_compare_refl (s : string) : String.compare s s = Eq.
Proof.
  induction s as [| a s IH]; simpl; [reflexivity |].
  now rewrite ascii_compare_refl.
Qed.

Lemma string_compare_trans (a b c : string) :
  String.compare a b = Lt -> String.compare b c = Lt -> String.compare a c = Lt.
Proof.
  revert b c. induction a as [| x a IH]; intros [| y b] [| z c]; simpl;
    try discriminate; auto.
  destruct (Ascii.compare x y) eqn:Exy; try discriminate;
    destruct (Ascii.compare y z) eqn:Eyz; try discriminate; intros Hab Hbc.
  - apply Ascii.compare_eq_iff in Exy, Eyz. subst.
    rewrite ascii_compare_refl. eapply IH; eauto.
  - apply Ascii.compare_eq_iff in Exy. subst. now rewrite Eyz.
  - apply Ascii.compare_eq_iff in Eyz. subst. now rewrite Exy.
  - unfold Ascii.compare in *. rewrite N.compare_lt_iff in *.
    assert (H : (N_of_ascii x < N_of_ascii z)%N) by (eapply N.lt_trans; eauto).
    apply N.compare_lt_iff in H. now rewrite H.
Qed.

Lemma string_ltb_trans (a b c : string) :
  String.ltb a b = true -> String.ltb b c = true -> String.ltb a c = true.
Proof.
  unfold String.ltb. intros Hab Hbc.
  destruct (String.compare a b) eqn:Eab; try discriminate.
  destruct (String.compare b c) eqn:Ebc; try discriminate.
  now rewrite (string_compare_trans a b c Eab Ebc).
Qed.

Lemma string_ltb_irrefl (a : string) : String.ltb a a = false.
Proof. unfold String.ltb. now rewrite string_compare_refl. Qed.

Lemma string_ltb_asym (a b : string) :
  String.ltb a b = true -> String.ltb b a = false.
Proof.
  unfold String.ltb. rewrite (String.compare_antisym b a).
  now destruct (String.compare a b).
Qed.

Lemma string_not_ltb (a b : string) :
  a <> b -> String.ltb a b = false -> String.ltb b a = true.
Proof.
  unfold String.ltb. rewrite (String.compare_antisym b a). intros Hne.
  destruct (String.compare a b) eqn:E; simpl; try discriminate; auto.
  now apply String.compare_eq_iff in E.
Qed.

(** The classes of a fitted encoder are strictly increasing. *)
Lemma insert_unique_sorted (s : string) (classes : list string) :
  StronglySorted string_lt classes ->
  StronglySorted string_lt (insert_unique s classes).
Proof.
  induction classes as [| c rest IH]; intros Hs; simpl.
  - repeat constructor.
  - inversion Hs as [| ? ? Hrest Hc]; subst.
    destruct (String.eqb_spec s c) as [-> | Hne]; [exact Hs |].
    destruct (String.ltb s c) eqn:E.
    + constructor; [exact Hs |]. constructor; [exact E |].
      eapply Forall_impl; [| exact Hc]. intros t Ht.
      eapply string_ltb_trans; eauto.
    + constructor; [now apply IH |].
      apply Forall_forall. intros t Ht. apply insert_unique_In in Ht.
      destruct Ht as [-> | Ht].
      * now apply string_not_ltb.
      * rewrite Forall_forall in Hc. now apply Hc.
Qed.

Lemma unique_sorted_sorted (y : list string) :
  StronglySorted string_lt (unique_sorted y).
Proof.
  induction y as [| s y IH]; simpl; [constructor | now apply insert_unique_sorted].
Qed.

Lemma index_of_monotone (classes : list string) (s t : string) :
  StronglySorted string_lt classes -> In s classes -> In t classes ->
  (index_of s classes < index_of t classes <-> String.ltb s t = true).
Proof.
  induction classes as [| c rest IH]; intros Hs Hin_s Hin_t; [contradiction |].
  inversion Hs as [| ? ? Hrest Hc]; subst. rewrite Forall_forall in Hc.
  simpl.
  destruct (String.eqb_spec s c) as [-> | Hs_ne];
    destruct (String.eqb_spec t c) as [-> | Ht_ne].
  - rewrite string_ltb_irrefl. split; [lia | discriminate].
  - destruct Hin_t as [-> | Hin_t]; [congruence |].
    split; [intros _; now apply Hc | lia].
  - destruct Hin_s as [-> | Hin_s]; [congruence |].
    rewrite (string_ltb_asym c s (Hc s Hin_s)). split; [lia | discriminate].
  - destruct Hin_s as [-> | Hin_s]; [congruence |].
    destruct Hin_t as [-> | Hin_t]; [congruence |].
    rewrite <- (IH Hrest Hin_s Hin_t). lia.
Qed.

(** X18: label codes follow the order of the values: in an encoded object
    column one cell has a smaller code than another exactly when its value
    (a missing one read as "None") is the smaller string. *)
Theorem number_encode_features_codes_ordered :
  forall (df : DataFrame) (n : string) (cells : list (option string)),
    wf_frame df -> In (n, ObjCol cells) df ->
    exists result encoders codes,
      number_encode_features df = OK (result, encoders) /\
      get_column result n = OK (IntCol codes) /\
      forall i j s t ci cj,
        nth_error (fillna_None cells) i = Some s ->
        nth_error (fillna_None cells) j = Some t ->
        nth_error codes i = Some ci -> nth_error codes j = Some cj ->
        ((ci < cj)%Z <-> String.ltb s t = true).
Proof.
  intros df n cells Hwf Hin.
  exists (encoded_frame df), (fitted_encoders df),
         (snd (fit_transform (fillna_None cells))).
  split; [now apply number_encode_features_eq |]. split.
  - apply get_column_In.
    + now rewrite encoded_frame_names.
    + unfold encoded_frame. apply in_map_iff.
      exists (n, ObjCol cells). split; [reflexivity | exact Hin].
  - intros i j s t ci cj Hs Ht Hci Hcj.
    unfold fit_transform in Hci, Hcj. cbn [snd] in Hci, Hcj.
    rewrite nth_error_map, Hs in Hci. rewrite nth_error_map, Ht in Hcj.
    injection Hci as <-. injection Hcj as <-.
    rewrite <- Nat2Z.inj_lt. apply index_of_monotone.
    + apply unique_sorted_sorted.
    + apply unique_sorted_In. eapply nth_error_In; eauto.
    + apply unique_sorted_In. eapply nth_error_In; eauto.
Qed.

Lemma number_encode_features_codes_ordered_witness :
  exists result encoders codes,
    number_encode_features
      [("Sex"%string, ObjCol [Some "Male"; Some "Female"; Some "Male"]%string)]
    = OK (result, encoders)
    /\ get_column result "Sex" = OK (IntCol codes)
    /\ codes = [1; 0; 1]%Z.
Proof.
  destruct (number_encode_features_codes_ordered
              [("Sex"%string, ObjCol [Some "Male"; Some "Female"; Some "Male"]%string)]
              "Sex"%string [Some "Male"; Some "Female"; Some "Male"]%string)
    as (result & encoders & codes & E & Ec & _).
  - unfold wf_frame. simpl. repeat constructor. simpl. tauto.
  - now left.
  - exists result, encoders, codes. split; [exact E |]. split; [exact Ec |].
    vm_compute in E. injection E as <- _. vm_compute in Ec. now injection Ec.
Defined.

(** ** Moving the target column to the front *)

Lemma get_column_OK_In (df : DataFrame) (n : string) (c : column) :
  get_column df n = OK c -> In (n, c) df.
Proof.
  induction df as [| [m d] df IH]; simpl; [discriminate |].
  destruct (String.eqb_spec m n) as [-> | _].
  - intros [= ->]. now left.
  - intros H. right. now apply IH.
Qed.

Lemma get_column_missing (df : DataFrame) (n : string) :
  ~ In n (map fst df) -> get_column df n = Raise KeyError.
Proof.
  induction df as [| [m d] df IH]; simpl; intros Hn; [reflexivity |].
  destruct (String.eqb_spec m n) as [-> | _]; [tauto |]. apply IH. tauto.
Qed.

Lemma filter_other_names (df : DataFrame) (name : string) :
  ~ In name (map fst df) ->
  filter (fun nc => negb (String.eqb (fst nc) name)) df = df.
Proof.
  induction df as [| [m d] df IH]; simpl; intros Hn; [reflexivity |].
  destruct (String.eqb_spec m name) as [-> | _]; [tauto |].
  simpl. rewrite IH; [reflexivity | tauto].
Qed.

Lemma get_column_skip (l1 l2 : DataFrame) (name n : string) (c : column) :
  n <> name ->
  get_column (l1 ++ (name, c) :: l2) n = get_column (l1 ++ l2) n.
Proof.
  intros Hne. induction l1 as [| [m d] l1 IH]; simpl.
  - destruct (String.eqb_spec name n) as [-> | _]; [congruence | reflexivity].
  - now rewrite IH.
Qed.

Lemma move_to_front_split (l1 l2 : DataFrame) (name : string) (c : column) :
  NoDup (map fst (l1 ++ (name, c) :: l2)) ->
  move_to_front (l1 ++ (name, c) :: l2) name = OK ((name, c) :: l1 ++ l2).
Proof.
  intros Hnd. rewrite map_app in Hnd. cbn [map fst] in Hnd.
  pose proof (NoDup_remove_2 _ _ _ Hnd) as Hn.
  assert (Hn1 : ~ In name (map fst l1)) by (intros H; apply Hn, in_or_app; now left).
  assert (Hn2 : ~ In name (map fst l2)) by (intros H; apply Hn, in_or_app; now right).
  unfold move_to_front. rewrite (get_column_app _ _ _ _ Hn1). cbn [bind].
  unfold drop_column.
  replace (existsb _ _) with true.
  2:{ symmetry. apply existsb_exists. exists name.
      split; [| apply String.eqb_refl].
      rewrite map_app. apply in_or_app. right. now left. }
  cbn [bind]. rewrite filter_app. cbn [filter fst].
  rewrite String.eqb_refl. cbn [negb].
  now rewrite (filter_other_names l1 name Hn1), (filter_other_names l2 name Hn2).
Qed.

(** X19: on a frame with distinct labels, moving a column to the front
    ([pd.concat] of the column and the frame without it) only reorders: the
    column comes first, the others keep their order, every label still finds
    the same column, and encoding commutes with the move; a label the frame
    does not have raises [KeyError]. *)
Theorem move_to_front_reorders :
  forall (df : DataFrame) (name : string),
    wf_frame df ->
    (forall c,
        get_column df name = OK c ->
        exists df',
          move_to_front df name = OK df' /\
          hd_error df' = Some (name, c) /\
          tl df' = filter (fun nc => negb (String.eqb (fst nc) name)) df /\
          Permutation df df' /\ wf_frame df' /\
          (forall n, get_column df' n = get_column df n) /\
          move_to_front (encoded_frame df) name = OK (encoded_frame df')) /\
    (~ In name (map fst df) -> move_to_front df name = Raise KeyError).
Proof.
  intros df name Hwf. split.
  - intros c Hc. apply get_column_OK_In in Hc.
    destruct (in_split _ _ Hc) as (l1 & l2 & ->).
    unfold wf_frame in Hwf.
    exists ((name, c) :: l1 ++ l2).
    assert (Hnd := Hwf). rewrite map_app in Hnd. cbn [map fst] in Hnd.
    pose proof (NoDup_remove_2 _ _ _ Hnd) as Hn.
    assert (Hn1 : ~ In name (map fst l1)) by (intros H; apply Hn, in_or_app; now left).
    assert (Hn2 : ~ In name (map fst l2)) by (intros H; apply Hn, in_or_app; now right).
    split; [now apply move_to_front_split |]. split; [reflexivity |]. split.
    { cbn [tl]. rewrite filter_app. cbn [filter fst].
      rewrite String.eqb_refl. cbn [negb].
      now rewrite (filter_other_names l1 name Hn1), (filter_other_names l2 name Hn2). }
    split; [symmetry; apply Permutation_middle |]. split.
    { unfold wf_frame. cbn [map fst]. rewrite map_app.
      constructor; [exact Hn |]. now apply NoDup_remove_1 in Hnd. }
    split.
    { intros n. cbn [get_column].
      destruct (String.eqb_spec name n) as [<- | Hne].
      - now rewrite (get_column_app _ _ _ _ Hn1).
      - symmetry. apply get_column_skip. congruence. }
    unfold encoded_frame. rewrite map_app. cbn [map fst snd].
    rewrite move_to_front_split.
    + now rewrite map_app.
    + rewrite map_app. cbn [map fst]. rewrite !map_map. cbn [fst].
      rewrite map_app in Hwf. exact Hwf.
  - intros Hn. unfold move_to_front. now rewrite get_column_missing.
Qed.

Lemma move_to_front_reorders_witness :
  exists df',
    move_to_front
      [("Age"%string, IntCol [39; 50]%Z); ("Sex"%string, ObjCol [Some "Male"; None]%string);
       ("Target"%string, ObjCol [Some "<=50K"; Some ">50K"]%string)] "Target"
    = OK df'
    /\ hd_error df' = Some ("Target"%string, ObjCol [Some "<=50K"; Some ">50K"]%string).
Proof.
  destruct (proj1 (move_to_front_reorders
              [("Age"%string, IntCol [39; 50]%Z);
               ("Sex"%string, ObjCol [Some "Male"; None]%string);
               ("Target"%string, ObjCol [Some "<=50K"; Some ">50K"]%string)]
              "Target"%string
              ltac:(unfold wf_frame; simpl;
                    repeat (constructor; [simpl; intuition discriminate |]);
                    constructor))
              (ObjCol [Some "<=50K"; Some ">50K"]%string) eq_refl)
    as (df' & E & Hhd & _).
  exists df'. split; [exact E | exact Hhd].
Defined.

(** ** The labels of the local explanations *)

Lemma replace_absent (old new s : string) :
  contains old s = false -> replace_from 0 old new s = s.
Proof.
  induction s as [| c s IH]; [reflexivity |].
  cbn [contains replace_from]. intros H. apply orb_false_iff in H.
  destruct H as (Hp & Hc). rewrite Hp. f_equal. now apply IH.
Qed.

(** Reading on past an underscore cannot complete a pattern that has none. *)
Lemma prefix_before_underscore (p s t : string) :
  contains "_" p = false ->
  String.prefix p (s ++ String "_" t) = String.prefix p s.
Proof.
  revert s. induction p as [| a p IH]; intros s Hp; [now destruct s |].
  cbn [contains] in Hp. apply orb_false_iff in Hp. destruct Hp as (Ha & Hp).
  assert (Hne : a <> "_"%char).
  { intros ->. cbn [String.prefix] in Ha.
    destruct (ascii_dec "_" "_") as [_ | Hn]; [| now apply Hn].
    destruct p; discriminate Ha. }
  destruct s as [| b s]; simpl.
  - destruct (ascii_dec a "_"); [contradiction | reflexivity].
  - destruct (ascii_dec a b); [now apply IH | reflexivity].
Qed.

Lemma replace_label_suffix (n : string) :
  contains "_label0" n = false ->
  replace_from 0 "_label0" "" (n ++ "_label0") = n.
Proof.
  induction n as [| c n IH]; [reflexivity |].
  intros H. cbn [contains] in H. apply orb_false_iff in H.
  destruct H as (Hp & Hc).
  change ((String c n ++ "_label0")%string) with (String c (n ++ "_label0")).
  cbn [replace_from].
  replace (String.prefix "_label0" (String c (n ++ "_label0"))) with false.
  - f_equal. now apply IH.
  - cbn [String.prefix] in Hp |- *.
    destruct (ascii_dec "_" c); [| reflexivity].
    rewrite (prefix_before_underscore "label0" n "label0") by reflexivity.
    now symmetry.
Qed.

(** X22: the labels Clarify writes, a feature name followed by [_label0],
    are mapped back to the feature names, for names in which [_label0] does
    not occur; a column label in which it does not occur is left as it
    is. *)
Theorem feature_names_strip_label_suffix :
  forall names : list string,
    forallb (fun n => negb (contains "_label0" n)) names = true ->
    feature_names (map (fun n => (n ++ "_label0")%string) names) = names /\
    feature_names names = names.
Proof.
  intros names H. rewrite forallb_forall in H. unfold feature_names, py_replace.
  split.
  - rewrite map_map. rewrite <- (map_id names) at 2. apply map_ext_in.
    intros n Hn. apply replace_label_suffix. apply negb_true_iff. now apply H.
  - rewrite <- (map_id names) at 2. apply map_ext_in.
    intros n Hn. apply replace_absent. apply negb_true_iff. now apply H.
Qed.

Lemma feature_names_strip_label_suffix_witness :
  feature_names (map (fun n => (n ++ "_label0")%string)
                     ["Age"; "Education-Num"; "Capital_Gain"]%string)
  = ["Age"; "Education-Num"; "Capital_Gain"]%string.
Proof.
  refine (proj1 (feature_names_strip_label_suffix
                   ["Age"; "Education-Num"; "Capital_Gain"]%string _)).
  reflexivity.
Defined.


(** * Binary64 arithmetic *)

(** What the properties of the salience filter and of normalization need of
    IEEE binary64, derived from the specification of the primitive floats
    ([SpecFloat], [FloatAxioms]). *)

(** ** Finite numbers *)

Lemma valid_finite (x : float) (s : bool) (m : positive) (e : Z) :
  Prim2SF x = S754_finite s m e ->
  fexp prec emax (Z.pos (digits2_pos m) + e) = e /\ (e <= emax - prec)%Z.
Proof.
  intros E. pose proof (Prim2SF_valid x) as V. rewrite E in V.
  simpl in V. unfold bounded, canonical_mantissa in V.
  apply andb_prop in V. destruct V as [V1 V2].
  apply Z.eqb_eq in V1. apply Z.leb_le in V2. auto.
Qed.

Lemma float_is_finite_opp (x : float) :
  float_is_finite (- x) = float_is_finite x.
Proof.
  unfold float_is_finite. rewrite opp_spec. now destruct (Prim2SF x).
Qed.

Lemma float_abs_cases (x : float) : abs x = x \/ abs x = (- x)%float.
Proof.
  destruct (Prim2SF x) as [s | s | | s m e] eqn:E.
  all: try (destruct s; [right | left]; apply Prim2SF_inj;
            rewrite abs_spec, ?opp_spec, E; reflexivity).
  left. apply Prim2SF_inj. now rewrite abs_spec, E.
Qed.

Lemma float_opp_involutive (x : float) : (- - x)%float = x.
Proof.
  apply Prim2SF_inj. rewrite !opp_spec.
  destruct (Prim2SF x) as [s | s | | s m e]; simpl; now rewrite ?negb_involutive.
Qed.


(** ** Multiplication by one *)

Lemma float_mul_one (x : float) : (x * 1)%float = x.
Proof.
  apply Prim2SF_inj. rewrite mul_spec.
  change (Prim2SF 1) with (S754_finite false 4503599627370496 (-52)).
  destruct (Prim2SF x) as [s | s | | s m e] eqn:E; try reflexivity.
  - simpl. now rewrite xorb_false_r.
  - simpl. now rewrite xorb_false_r.
  - destruct (valid_finite x s m e E) as [Hc Hb].
    unfold SF64mul, SFmul. rewrite xorb_false_r.
    rewrite Pos.mul_comm.
    unfold binary_round_aux.
    assert (S1 : shr_fexp prec emax (Z.pos (4503599627370496 * m)) (e + -52)
                   loc_Exact
                 = ({| shr_m := Z.pos m; shr_r := false; shr_s := false |}, e)).
    { unfold shr_fexp.
      replace (fexp prec emax (Zdigits2 (Z.pos (4503599627370496 * m))
                               + (e + -52)) - (e + -52))%Z
        with 52%Z.
      - unfold shr. f_equal. lia.
      - replace (Zdigits2 (Z.pos (4503599627370496 * m)) + (e + -52))%Z
          with (Z.pos (digits2_pos m) + e)%Z; [rewrite Hc; lia |].
        cbn [Pos.mul Zdigits2 digits2_pos]. lia. }
    rewrite S1. cbn [shr_m loc_of_shr_record round_nearest_even].
    unfold shr_fexp. cbn [Zdigits2]. rewrite Hc, Z.sub_diag.
    cbn [shr shr_record_of_loc shr_m].
    apply Z.leb_le in Hb. now rewrite Hb.
Qed.

(** ** Signs *)

Lemma binary_round_aux_sign (s : bool) (m e : Z) (l : location) :
  sf_sign_is s (binary_round_aux prec emax s m e l).
Proof.
  unfold binary_round_aux.
  destruct (shr_fexp prec emax m e l) as [mrs' e'].
  destruct (shr_fexp prec emax _ e' loc_Exact) as [mrs'' e''].
  destruct (shr_m mrs''); [reflexivity | | exact I].
  destruct (e'' <=? emax - prec)%Z; reflexivity.
Qed.

Lemma binary_round_sign (s : bool) (m : positive) (e : Z) :
  sf_sign_is s (binary_round prec emax s m e).
Proof.
  unfold binary_round. destruct (shl_align _ _ _) as [mz ez].
  apply binary_round_aux_sign.
Qed.

Lemma binary_normalize_sign (z e : Z) :
  (0 <= z)%Z -> sf_sign_is false (binary_normalize prec emax z e false).
Proof.
  intros Hz. destruct z as [| p | p]; simpl; [reflexivity | | lia].
  apply binary_round_sign.
Qed.

Lemma SF2Prim_sign (x : spec_float) :
  sf_sign_is false x -> sf_sign_is false (Prim2SF (SF2Prim x)).
Proof.
  destruct x as [s | s | | s m e]; simpl; intros H; subst; try exact I;
    try reflexivity.
  rewrite Z_ldexp_spec, of_uint63_spec.
  pose proof (Uint63.to_Z_bounded (Uint63.of_Z (Z.pos m))) as Hb.
  pose proof (binary_normalize_sign (Uint63.to_Z (Uint63.of_Z (Z.pos m))) 0
                ltac:(lia)) as Hs.
  destruct (binary_normalize _ _ _ _ _) as [s' | s' | | s' m' e']; simpl in *;
    auto.
  subst s'. apply binary_round_sign.
Qed.

Lemma float_of_nat_sign (n : nat) : sf_sign_is false (Prim2SF (float_of_nat n)).
Proof.
  unfold float_of_nat. apply SF2Prim_sign. apply binary_normalize_sign. lia.
Qed.

Lemma float_lt_one_cases (f : float) :
  (0 <? f)%float = true -> (f <? 1)%float = true ->
  exists m e, Prim2SF f = S754_finite false m e.
Proof.
  rewrite !ltb_spec. change (Prim2SF 0) with (S754_zero false).
  change (Prim2SF 1) with (S754_finite false 4503599627370496 (-52)).
  destruct (Prim2SF f) as [s | s | | s m e]; try destruct s; try discriminate.
  eauto.
Qed.

(** The sign of [f * n] for a length [n]. *)
Lemma float_mul_length_sign (f : float) (n : nat) (s : bool) :
  sf_sign_is s (Prim2SF f) -> sf_sign_is s (Prim2SF (f * float_of_nat n)).
Proof.
  intros Hf. rewrite mul_spec. pose proof (float_of_nat_sign n) as Hs.
  unfold SF64mul.
  destruct (Prim2SF f) as [sf | sf | | sf mf ef],
           (Prim2SF (float_of_nat n)) as [s' | s' | | s' m' e'];
    cbn [SFmul sf_sign_is] in *; subst; rewrite ?xorb_false_r;
    try exact I; try reflexivity.
  apply binary_round_aux_sign.
Qed.

(** [int(f * n)] is the floor of the binary64 product, and is not negative,
    for a positive [f]. *)
Lemma float_trunc_mul_floor (f : float) (n : nat) (k : Z) :
  (0 <? f)%float = true -> (f <? 1)%float = true ->
  float_trunc (f * float_of_nat n) = OK k ->
  (0 <= k)%Z /\ float_floor (f * float_of_nat n) = Some k.
Proof.
  intros H0 H1. destruct (float_lt_one_cases f H0 H1) as (m & e & Ef).
  assert (Hp : sf_sign_is false (Prim2SF (f * float_of_nat n)))
    by (apply float_mul_length_sign; now rewrite Ef).
  unfold float_trunc, float_floor.
  destruct (Prim2SF (f * float_of_nat n)) as [s' | s' | | s' m' e'];
    try discriminate.
  - intros [= <-]. split; [lia | reflexivity].
  - simpl in Hp. subst s'. intros [= <-]. split; [| reflexivity].
    destruct (0 <=? e')%Z eqn:He; [| apply Z.leb_gt in He].
    + pose proof (Z.pow_nonneg 2 e' ltac:(lia)) as Hp2.
      change (0 <= Z.pos m' * 2 ^ e')%Z. nia.
    + apply Z.div_pos; [lia |]. apply Z.pow_pos_nonneg; lia.
Qed.



(** ** The order of the floats *)

Lemma SFltb_key (x y : spec_float) :
  SFltb x y = true <->
  sf_is_nan x = false /\ sf_is_nan y = false /\ key_lt (sf_key x) (sf_key y).
Proof.
  unfold SFltb.
  destruct x as [sx | sx | | sx mx ex], y as [sy | sy | | sy my ey];
    try destruct sx; try destruct sy; simpl;
    try (split; [discriminate | intros (? & ? & ?); try discriminate; lia]);
    try (split; [intros _; repeat split; lia | reflexivity]).
  all: rewrite ?Pos.compare_cont_spec; simpl.
  all: destruct (Z.compare_spec ex ey); destruct (Pos.compare_spec mx my); simpl;
    try (split; [discriminate | intros (? & ? & ?); try discriminate; lia]);
    try (split; [intros _; repeat split; lia | reflexivity]).
Qed.

Lemma sf_key_opp (x : spec_float) :
  sf_key (SFopp x)
  = let '(a, b, c) := sf_key x in (- a, - b, - c)%Z.
Proof.
  destruct x as [s | s | | s m e]; try destruct s; simpl; try reflexivity.
  now rewrite Z.opp_involutive.
Qed.

Lemma sf_is_nan_opp (x : spec_float) : sf_is_nan (SFopp x) = sf_is_nan x.
Proof. now destruct x. Qed.

Lemma float_ltb_opp (x y : float) : (- x <? - y)%float = (y <? x)%float.
Proof.
  rewrite !ltb_spec, !opp_spec. apply eq_true_iff_eq.
  rewrite !SFltb_key, !sf_is_nan_opp, !sf_key_opp.
  destruct (sf_key (Prim2SF x)) as [[a b] c].
  destruct (sf_key (Prim2SF y)) as [[a' b'] c'].
  unfold key_lt. intuition lia.
Qed.

Lemma float_eqb_opp (x : float) : (- x =? - x)%float = (x =? x)%float.
Proof.
  rewrite !eqb_spec, opp_spec. unfold SFeqb.
  destruct (Prim2SF x) as [s | s | | s m e]; try destruct s; simpl;
    try reflexivity.
  all: rewrite Z.compare_refl, Pos.compare_cont_refl; reflexivity.
Qed.

Lemma float_ltb_finite_key (x y : float) :
  float_is_finite x = true -> float_is_finite y = true ->
  ((x <? y)%float = true <-> key_lt (sf_key (Prim2SF x)) (sf_key (Prim2SF y))).
Proof.
  unfold float_is_finite. intros Hx Hy. rewrite ltb_spec, SFltb_key.
  destruct (Prim2SF x), (Prim2SF y); try discriminate; simpl; intuition.
Qed.

Lemma float_ltb_false_key (x y : float) :
  float_is_finite x = true -> float_is_finite y = true ->
  ((x <? y)%float = false <-> ~ key_lt (sf_key (Prim2SF x)) (sf_key (Prim2SF y))).
Proof.
  intros Hx Hy. rewrite <- (float_ltb_finite_key x y Hx Hy).
  destruct (x <? y)%float; split; congruence.
Qed.

(** ** Rounding *)

Section Rounding.

Local Open Scope Z_scope.

Lemma digits2_pos_bounds (p : positive) :
  2 ^ (Z.pos (digits2_pos p) - 1) <= Z.pos p < 2 ^ Z.pos (digits2_pos p).
Proof.
  induction p as [p IH | p IH |]; cbn [digits2_pos].
  - rewrite Pos2Z.inj_succ. change (Z.pos p~1) with (2 * Z.pos p + 1).
    replace (Z.succ (Z.pos (digits2_pos p)) - 1)
      with (Z.succ (Z.pos (digits2_pos p) - 1)) by lia.
    rewrite !Z.pow_succ_r by lia.
    revert IH. generalize (2 ^ (Z.pos (digits2_pos p) - 1)).
    generalize (2 ^ Z.pos (digits2_pos p)). lia.
  - rewrite Pos2Z.inj_succ. change (Z.pos p~0) with (2 * Z.pos p).
    replace (Z.succ (Z.pos (digits2_pos p)) - 1)
      with (Z.succ (Z.pos (digits2_pos p) - 1)) by lia.
    rewrite !Z.pow_succ_r by lia.
    revert IH. generalize (2 ^ (Z.pos (digits2_pos p) - 1)).
    generalize (2 ^ Z.pos (digits2_pos p)). lia.
  - simpl. lia.
Qed.

Lemma Zdigits2_le (m a : Z) : 0 <= m -> 0 <= a -> m <= 2 ^ a -> Zdigits2 m <= a + 1.
Proof.
  intros Hm Ha Hle. destruct m as [| p | p]; simpl; [lia | | lia].
  destruct (digits2_pos_bounds p) as [Hl _].
  assert (2 ^ (Z.pos (digits2_pos p) - 1) <= 2 ^ a) by lia.
  apply Z.pow_le_mono_r_iff in H; lia.
Qed.

Lemma shr_1_spec (mrs : shr_record) :
  0 <= shr_m mrs ->
  shr_m (shr_1 mrs) = shr_m mrs / 2 /\
  (shr_r mrs = false -> shr_s mrs = false -> shr_m mrs mod 2 = 0 ->
   shr_r (shr_1 mrs) = false /\ shr_s (shr_1 mrs) = false).
Proof.
  destruct mrs as [m r s]. cbn [shr_m shr_r shr_s]. intros Hm.
  destruct m as [| [p | p |] | p]; cbn [shr_1 shr_m shr_r shr_s]; try lia.
  - split; [reflexivity | intros -> ->; auto].
  - split; [change (Z.pos p~1) with (2 * Z.pos p + 1); apply Z.div_unique with 1; lia |].
    intros _ _ H. change (Z.pos p~1) with (2 * Z.pos p + 1) in H.
    rewrite Z.add_comm, Z.mul_comm, Z.mod_add in H by lia. discriminate.
  - split; [change (Z.pos p~0) with (2 * Z.pos p); apply Z.div_unique with 0; lia |].
    intros -> -> _; auto.
  - split; [reflexivity |]. intros _ _ H. discriminate.
Qed.

Lemma iter_shr_1_spec (p : positive) (mrs : shr_record) :
  0 <= shr_m mrs ->
  shr_m (iter_pos shr_1 p mrs) = shr_m mrs / 2 ^ Z.pos p /\
  (shr_r mrs = false -> shr_s mrs = false -> shr_m mrs mod 2 ^ Z.pos p = 0 ->
   shr_r (iter_pos shr_1 p mrs) = false /\ shr_s (iter_pos shr_1 p mrs) = false).
Proof.
  revert mrs.
  assert (Hdiv : forall m k, 0 <= m -> 0 <= m / 2 ^ Z.pos k).
  { intros. apply Z.div_pos; [lia | apply Z.pow_pos_nonneg; lia]. }
  assert (Hmod : forall m a b, 0 <= m -> 0 < a -> 0 < b -> m mod (a * b) = 0 ->
                               m mod a = 0 /\ (m / a) mod b = 0).
  { intros m a b Hm Ha Hb H. apply Z.mod_divide in H; [| lia].
    destruct H as [c ->]. split.
    - replace (c * (a * b)) with (c * b * a) by lia. apply Z.mod_mul. lia.
    - replace (c * (a * b)) with (c * b * a) by lia. rewrite Z.div_mul by lia.
      apply Z.mod_mul. lia. }
  induction p as [p IH | p IH |]; intros mrs Hm; cbn [iter_pos].
  - destruct (shr_1_spec mrs Hm) as [E1 X1].
    assert (H1 : 0 <= shr_m (shr_1 mrs)) by (rewrite E1; apply Z.div_pos; lia).
    destruct (IH _ H1) as [E2 X2].
    assert (H2 : 0 <= shr_m (iter_pos shr_1 p (shr_1 mrs))) by (rewrite E2; now apply Hdiv).
    destruct (IH _ H2) as [E3 X3].
    assert (P : 0 < 2 ^ Z.pos p) by (apply Z.pow_pos_nonneg; lia).
    assert (Epow : 2 ^ Z.pos p~1 = 2 * (2 ^ Z.pos p * 2 ^ Z.pos p)).
    { change (Z.pos p~1) with (2 * Z.pos p + 1).
      replace (2 * Z.pos p + 1) with (1 + (Z.pos p + Z.pos p)) by lia.
      rewrite !Z.pow_add_r by lia. reflexivity. }
    rewrite Epow. split.
    + rewrite E3, E2, E1. rewrite !Z.div_div by lia. reflexivity.
    + intros Hr Hs H.
      destruct (Hmod _ 2 (2 ^ Z.pos p * 2 ^ Z.pos p) Hm ltac:(lia) ltac:(lia) H)
        as [Ha Hb].
      destruct (X1 Hr Hs Ha) as [R1 S1].
      rewrite <- E1 in Hb.
      destruct (Hmod _ (2 ^ Z.pos p) (2 ^ Z.pos p) H1 P P Hb) as [Hc Hd].
      destruct (X2 R1 S1 Hc) as [R2 S2].
      rewrite <- E2 in Hd.
      exact (X3 R2 S2 Hd).
  - destruct (IH _ Hm) as [E2 X2].
    assert (H2 : 0 <= shr_m (iter_pos shr_1 p mrs)) by (rewrite E2; now apply Hdiv).
    destruct (IH _ H2) as [E3 X3].
    assert (P : 0 < 2 ^ Z.pos p) by (apply Z.pow_pos_nonneg; lia).
    assert (Epow : 2 ^ Z.pos p~0 = 2 ^ Z.pos p * 2 ^ Z.pos p).
    { change (Z.pos p~0) with (2 * Z.pos p).
      replace (2 * Z.pos p) with (Z.pos p + Z.pos p) by lia.
      rewrite !Z.pow_add_r by lia. reflexivity. }
    rewrite Epow. split.
    + rewrite E3, E2. rewrite !Z.div_div by lia. reflexivity.
    + intros Hr Hs H.
      destruct (Hmod _ (2 ^ Z.pos p) (2 ^ Z.pos p) Hm P P H) as [Ha Hb].
      destruct (X2 Hr Hs Ha) as [R2 S2].
      rewrite <- E2 in Hb. exact (X3 R2 S2 Hb).
  - rewrite Z.pow_1_r. apply shr_1_spec. exact Hm.
Qed.

Lemma loc_of_shr_record_of_loc (m : Z) (l : location) :
  loc_of_shr_record (shr_record_of_loc m l) = l.
Proof. destruct l as [| []]; reflexivity. Qed.

Lemma shr_record_of_loc_m (m : Z) (l : location) :
  shr_m (shr_record_of_loc m l) = m.
Proof. destruct l as [| []]; reflexivity. Qed.

(** One call of [shr_fexp], on a mantissa that is not negative. *)
Lemma shr_fexp_spec (m e : Z) (l : location) :
  0 <= m ->
  let n := fexp prec emax (Zdigits2 m + e) - e in
  let mrs := fst (shr_fexp prec emax m e l) in
  let e1 := snd (shr_fexp prec emax m e l) in
  (n <= 0 -> shr_m mrs = m /\ e1 = e /\ loc_of_shr_record mrs = l) /\
  (0 < n -> shr_m mrs = m / 2 ^ n /\ e1 = e + n /\
            (l = loc_Exact -> m mod 2 ^ n = 0 -> loc_of_shr_record mrs = loc_Exact)).
Proof.
  intros Hm n mrs e1. subst mrs e1. unfold shr_fexp. fold n.
  destruct n as [| p | p] eqn:En; cbn [shr fst snd].
  - split; [intros _ | lia].
    now rewrite shr_record_of_loc_m, loc_of_shr_record_of_loc.
  - split; [lia | intros _].
    destruct (iter_shr_1_spec p (shr_record_of_loc m l)) as [E X];
      [now rewrite shr_record_of_loc_m |].
    rewrite shr_record_of_loc_m in E, X.
    split; [exact E | split; [reflexivity |]].
    intros -> H. destruct (X eq_refl eq_refl H) as [R S].
    destruct (iter_pos shr_1 p _) as [m' r' s']. cbn in R, S. now subst.
  - split; [intros _ | lia].
    now rewrite shr_record_of_loc_m, loc_of_shr_record_of_loc.
Qed.

Lemma pow2_pos (n : Z) : 0 <= n -> 0 < 2 ^ n.
Proof. intros; apply Z.pow_pos_nonneg; lia. Qed.

Lemma pow2_split (a n : Z) : 0 <= n <= a -> 2 ^ a = 2 ^ n * 2 ^ (a - n).
Proof. intros H. rewrite <- Z.pow_add_r by lia. f_equal. lia. Qed.

Lemma fexp_small (x : Z) : x <= 1 -> fexp prec emax x <= -52.
Proof. unfold fexp, SpecFloat.emin, prec, emax. lia. Qed.

(** A mantissa and exponent whose value is at most one stay so through
    [shr_fexp]. *)
Lemma shr_fexp_sub_unit (m e : Z) (l : location) :
  0 <= m -> e <= -52 ->
  (m < 2 ^ (- e) \/ (m = 2 ^ (- e) /\ l = loc_Exact)) ->
  let mrs := fst (shr_fexp prec emax m e l) in
  let e1 := snd (shr_fexp prec emax m e l) in
  0 <= shr_m mrs /\ e1 <= -52 /\
  (shr_m mrs < 2 ^ (- e1) \/
   (shr_m mrs = 2 ^ (- e1) /\ loc_of_shr_record mrs = loc_Exact)).
Proof.
  intros Hm He Hv mrs e1.
  destruct (shr_fexp_spec m e l Hm) as [Hle Hgt]. fold mrs e1 in Hle, Hgt.
  set (n := fexp prec emax (Zdigits2 m + e) - e) in *.
  destruct (Z_le_gt_dec n 0) as [Hn | Hn].
  - destruct (Hle Hn) as (-> & -> & ->). auto.
  - destruct (Hgt ltac:(lia)) as (Em & Ee & Hl).
    assert (Hd : Zdigits2 m <= - e + 1).
    { apply Zdigits2_le; [lia | lia |]. destruct Hv as [Hv | [Hv _]]; lia. }
    assert (He1 : e1 <= -52).
    { rewrite Ee. unfold n. 
      pose proof (fexp_small (Zdigits2 m + e) ltac:(lia)). lia. }
    assert (Hs : 2 ^ (- e) = 2 ^ n * 2 ^ (- e1)).
    { rewrite (pow2_split (- e) n) by lia. do 2 f_equal. lia. }
    pose proof (pow2_pos n ltac:(lia)) as Pn.
    pose proof (pow2_pos (- e1) ltac:(lia)) as Pe.
    rewrite Em. split; [apply Z.div_pos; lia |]. split; [exact He1 |].
    destruct Hv as [Hv | [Hv ->]].
    + left. apply Z.div_lt_upper_bound; [lia |]. now rewrite <- Hs.
    + right. rewrite Hv, Hs. split.
      * rewrite Z.mul_comm. apply Z.div_mul. lia.
      * apply Hl; [reflexivity |]. rewrite Hv, Hs, Z.mul_comm. apply Z.mod_mul. lia.
Qed.

Lemma binary_round_aux_sub_unit (s : bool) (m e : Z) (l : location) :
  0 <= m -> e <= -52 ->
  (m < 2 ^ (- e) \/ (m = 2 ^ (- e) /\ l = loc_Exact)) ->
  binary_round_aux prec emax s m e l = S754_zero s \/
  exists m2 e2,
    binary_round_aux prec emax s m e l = S754_finite s m2 e2 /\
    e2 <= -52 /\ Z.pos m2 <= 2 ^ (- e2).
Proof.
  intros Hm He Hv. unfold binary_round_aux.
  pose proof (shr_fexp_sub_unit m e l Hm He Hv) as H1. cbv zeta in H1.
  destruct (shr_fexp prec emax m e l) as [mrs' e']. cbn [fst snd] in H1.
  destruct H1 as (Hm1 & He1 & Hv1).
  set (m1 := round_nearest_even (shr_m mrs') (loc_of_shr_record mrs')).
  assert (Hr : 0 <= m1 <= 2 ^ (- e')).
  { subst m1. unfold round_nearest_even.
    destruct Hv1 as [Hv1 | [Hv1 ->]]; [| lia].
    destruct (loc_of_shr_record mrs') as [| []]; try lia.
    destruct (Z.even (shr_m mrs')); lia. }
  assert (Hv2 : m1 < 2 ^ (- e') \/ (m1 = 2 ^ (- e') /\ loc_Exact = loc_Exact)).
  { destruct (Z_lt_le_dec m1 (2 ^ (- e'))) as [Hlt | Hge]; [now left | right].
    split; [| reflexivity]. destruct Hr. now apply Z.le_antisymm. }
  pose proof (shr_fexp_sub_unit m1 e' loc_Exact ltac:(lia) He1 Hv2) as H2.
  cbv zeta in H2.
  destruct (shr_fexp prec emax m1 e' loc_Exact) as [mrs'' e'']. cbn [fst snd] in H2.
  destruct H2 as (Hm2 & He2 & Hv3).
  destruct (shr_m mrs'') as [| p | p]; [now left | | lia].
  right. exists p, e''.
  replace (e'' <=? emax - prec) with true
    by (symmetry; apply Z.leb_le; unfold emax, prec; lia).
  split; [reflexivity |]. split; [exact He2 | lia].
Qed.

Lemma new_location_exact (nb : Z) : new_location nb 0 = loc_Exact.
Proof.
  unfold new_location, new_location_even, new_location_odd.
  now destruct (Z.even nb).
Qed.

(** The quotient of a finite number by a positive one that is not smaller
    in absolute value: zero or finite, of the sign of the dividend, and at
    most one in absolute value. *)
Lemma SFdiv_sub_unit (sx : bool) (mx my : positive) (ex ey : Z) :
  fexp prec emax (Z.pos (digits2_pos mx) + ex) = ex ->
  fexp prec emax (Z.pos (digits2_pos my) + ey) = ey ->
  (ex < ey \/ (ex = ey /\ Z.pos mx <= Z.pos my)) ->
  SFdiv prec emax (S754_finite sx mx ex) (S754_finite false my ey) = S754_zero sx \/
  exists m2 e2,
    SFdiv prec emax (S754_finite sx mx ex) (S754_finite false my ey)
    = S754_finite sx m2 e2 /\
    e2 <= -52 /\ Z.pos m2 <= 2 ^ (- e2).
Proof.
  intros Cx Cy Hle. unfold SFdiv, SFdiv_core_binary. cbn [Zdigits2].
  rewrite xorb_false_r.
  destruct (digits2_pos_bounds mx) as [Lx Ux].
  destruct (digits2_pos_bounds my) as [Ly Uy].
  set (d1 := Z.pos (digits2_pos mx)) in *.
  set (d2 := Z.pos (digits2_pos my)) in *.
  assert (Hd1 : d1 <= 53) by (revert Cx; unfold fexp, SpecFloat.emin, prec, emax; lia).
  assert (Hex : -1074 <= ex) by (revert Cx; unfold fexp, SpecFloat.emin, prec, emax; lia).
  assert (Hd : d1 + ex <= d2 + ey).
  { destruct Hle as [Hlt | [-> Hm]].
    - revert Cy; unfold fexp, SpecFloat.emin, prec, emax; lia.
    - assert (2 ^ (d1 - 1) < 2 ^ d2) by lia.
      apply Z.pow_lt_mono_r_iff in H; lia. }
  set (e' := Z.min (fexp prec emax (d1 + ex - (d2 + ey))) (ex - ey)).
  assert (He' : e' <= -53 /\ e' <= ex - ey).
  { subst e'. unfold fexp, SpecFloat.emin, prec, emax. lia. }
  set (s := ex - ey - e').
  assert (Hs : 0 <= s) by (subst s; lia).
  set (m' := match s with Z.pos _ => Z.shiftl (Z.pos mx) s | 0 => Z.pos mx | Z.neg _ => 0 end).
  assert (Em' : m' = Z.pos mx * 2 ^ s).
  { subst m'. destruct s as [| p | p] eqn:Es; [simpl; lia | | lia].
    apply Z.shiftl_mul_pow2. lia. }
  pose proof (pow2_pos s Hs) as Ps.
  pose proof (pow2_pos (- e') ltac:(lia)) as Pe.
  assert (Key : m' <= Z.pos my * 2 ^ (- e')).
  { rewrite Em'. destruct Hle as [Hlt | [-> Hm]].
    - assert (E2 : 2 ^ (- e') = 2 ^ s * 2 ^ (ey - ex)).
      { rewrite <- Z.pow_add_r by lia. f_equal. subst s. lia. }
      assert (Hd2 : d2 = 53) by (revert Cy; unfold fexp, SpecFloat.emin, prec, emax; lia).
      assert (H53 : 2 ^ d1 <= 2 ^ 53) by (apply Z.pow_le_mono_r; lia).
      assert (H1 : 2 ^ 1 <= 2 ^ (ey - ex)) by (apply Z.pow_le_mono_r; lia).
      rewrite Hd2 in Ly. change (2 ^ (53 - 1)) with 4503599627370496 in Ly.
      change (2 ^ 53) with 9007199254740992 in H53.
      change (2 ^ 1) with 2 in H1.
      assert (H2 : Z.pos mx <= 2 * Z.pos my) by lia.
      rewrite E2. revert H1 Ps. generalize (2 ^ (ey - ex)). generalize (2 ^ s).
      intros S K HK HS. apply Z.le_trans with (2 * Z.pos my * S); nia.
    - replace (- e') with s by (subst s; lia). nia. }
  pose proof (Z_div_mod m' (Z.pos my) ltac:(lia)) as Hdm.
  destruct (Z.div_eucl m' (Z.pos my)) as [q r]. destruct Hdm as [Eq Hr].
  assert (Hq : 0 <= q <= 2 ^ (- e')) by nia.
  apply binary_round_aux_sub_unit; [lia | lia |].
  destruct (Z_lt_le_dec q (2 ^ (- e'))) as [Hlt | Hge]; [now left | right].
  assert (q = 2 ^ (- e')) by lia. subst q.
  split; [reflexivity |].
  assert (r = 0) by nia. subst r. apply new_location_exact.
Qed.

(** A finite number divided by its absolute value is 1 or -1. *)
Lemma SFdiv_same (sx : bool) (m : positive) (e : Z) :
  SFdiv prec emax (S754_finite sx m e) (S754_finite false m e)
  = S754_finite sx 4503599627370496 (-52).
Proof.
  unfold SFdiv, SFdiv_core_binary. cbn [Zdigits2]. rewrite xorb_false_r.
  replace (Z.pos (digits2_pos m) + e - (Z.pos (digits2_pos m) + e)) with 0 by lia.
  rewrite Z.sub_diag. cbn [fexp Z.min Z.sub Z.compare Z.opp Z.add Z.max].
  change (Z.min (fexp prec emax 0) 0) with (-53).
  cbn [Z.sub Z.opp Z.add].
  rewrite Z.shiftl_mul_pow2 by lia.
  pose proof (Z_div_mod (Z.pos m * 2 ^ 53) (Z.pos m) ltac:(lia)) as Hdm.
  destruct (Z.div_eucl (Z.pos m * 2 ^ 53) (Z.pos m)) as [q r].
  destruct Hdm as [Eq Hr].
  assert (q = 2 ^ 53 /\ r = 0) as [-> ->].
  { apply (Z.div_mod_unique (Z.pos m)); [lia | lia |]. rewrite <- Eq. lia. }
  rewrite new_location_exact. reflexivity.
Qed.


Lemma Zdigits2_lt (m a : Z) : 0 <= m < 2 ^ a -> 0 <= a -> Zdigits2 m <= a.
Proof.
  intros Hm Ha. destruct m as [| p | p]; simpl; [lia | | lia].
  destruct (digits2_pos_bounds p) as [Hl _].
  assert (H : 2 ^ (Z.pos (digits2_pos p) - 1) < 2 ^ a) by lia.
  apply Z.pow_lt_mono_r_iff in H; lia.
Qed.

Lemma Zdigits2_upper (m : Z) : 0 <= m -> m < 2 ^ Zdigits2 m.
Proof.
  intros Hm. destruct m as [| p | p]; simpl; [lia | | lia].
  apply digits2_pos_bounds.
Qed.

Lemma fexp_lower (x : Z) : x - 53 <= fexp prec emax x /\ -1074 <= fexp prec emax x.
Proof. unfold fexp, SpecFloat.emin, prec, emax. lia. Qed.

Lemma fexp_upper (x b : Z) : x - 53 <= b -> -1074 <= b -> fexp prec emax x <= b.
Proof. unfold fexp, SpecFloat.emin, prec, emax. lia. Qed.

(** After [shr_fexp] the mantissa has at most 53 digits. *)
Lemma shr_fexp_digits (m e : Z) (l : location) :
  0 <= m ->
  let mrs := fst (shr_fexp prec emax m e l) in
  let e1 := snd (shr_fexp prec emax m e l) in
  0 <= shr_m mrs < 2 ^ 53 /\
  e1 = Z.max e (fexp prec emax (Zdigits2 m + e)).
Proof.
  intros Hm mrs e1.
  destruct (shr_fexp_spec m e l Hm) as [Hle Hgt]. fold mrs e1 in Hle, Hgt.
  set (n := fexp prec emax (Zdigits2 m + e) - e) in *.
  pose proof (Zdigits2_upper m Hm) as Hd.
  pose proof (fexp_lower (Zdigits2 m + e)) as [Hf _].
  assert (Hd0 : 0 <= Zdigits2 m) by (destruct m; simpl; lia).
  destruct (Z_le_gt_dec n 0) as [Hn | Hn].
  - destruct (Hle Hn) as (-> & -> & _). split; [| lia]. split; [lia |].
    eapply Z.lt_le_trans; [exact Hd |]. apply Z.pow_le_mono_r; lia.
  - destruct (Hgt ltac:(lia)) as (-> & -> & _). split; [| lia].
    pose proof (pow2_pos n ltac:(lia)) as Pn.
    split; [apply Z.div_pos; lia |].
    apply Z.div_lt_upper_bound; [lia |].
    rewrite <- Z.pow_add_r by lia.
    eapply Z.lt_le_trans; [exact Hd |]. apply Z.pow_le_mono_r; lia.
Qed.

(** Rounding a mantissa that is not negative gives a zero or a finite
    number, as long as the exponent stays in range. *)
Lemma binary_round_aux_finite (s : bool) (m e : Z) (l : location) :
  0 <= m ->
  Z.max e (fexp prec emax (Zdigits2 m + e)) + 1 <= emax - prec ->
  binary_round_aux prec emax s m e l = S754_zero s \/
  exists m2 e2,
    binary_round_aux prec emax s m e l = S754_finite s m2 e2 /\
    e2 <= Z.max e (fexp prec emax (Zdigits2 m + e)) + 1.
Proof.
  intros Hm Hb. unfold binary_round_aux.
  pose proof (shr_fexp_digits m e l Hm) as H1. cbv zeta in H1.
  destruct (shr_fexp prec emax m e l) as [mrs' e']. cbn [fst snd] in H1.
  destruct H1 as (Hm1 & He1).
  set (m1 := round_nearest_even (shr_m mrs') (loc_of_shr_record mrs')).
  assert (Hr : 0 <= m1 <= 2 ^ 53).
  { subst m1. unfold round_nearest_even.
    destruct (loc_of_shr_record mrs') as [| []]; try lia.
    destruct (Z.even (shr_m mrs')); lia. }
  pose proof (shr_fexp_digits m1 e' loc_Exact ltac:(lia)) as H2. cbv zeta in H2.
  destruct (shr_fexp prec emax m1 e' loc_Exact) as [mrs'' e'']. cbn [fst snd] in H2.
  destruct H2 as (Hm2 & He2).
  assert (Hd : Zdigits2 m1 <= 54)
    by (apply (Zdigits2_le m1 53); lia).
  assert (He' : -1074 <= e').
  { rewrite He1. pose proof (fexp_lower (Zdigits2 m + e)). lia. }
  assert (Hf : fexp prec emax (Zdigits2 m1 + e') <= e' + 1)
    by (apply fexp_upper; lia).
  assert (He'' : e'' <= e' + 1) by lia.
  destruct (shr_m mrs'') as [| p | p]; [now left | | lia].
  right. exists p, e''.
  replace (e'' <=? emax - prec) with true
    by (symmetry; apply Z.leb_le; lia).
  split; [reflexivity | lia].
Qed.

Lemma digits2_pos_iter_xO (p d : positive) :
  Z.pos (digits2_pos (Pos.iter xO p d)) = Z.pos (digits2_pos p) + Z.pos d.
Proof.
  induction d as [| d IH] using Pos.peano_ind.
  - cbn [Pos.iter digits2_pos]. lia.
  - rewrite Pos.iter_succ. cbn [digits2_pos]. lia.
Qed.

(** The conversion of a number below [2^63]. *)
Lemma binary_normalize_small (z : Z) :
  0 <= z < 2 ^ 63 ->
  binary_normalize prec emax z 0 false = S754_zero false \/
  exists m e, binary_normalize prec emax z 0 false = S754_finite false m e /\
              e <= 11.
Proof.
  intros Hz. destruct z as [| p | p]; [now left | | lia].
  cbn [binary_normalize]. unfold binary_round, shl_align.
  assert (Hd : Z.pos (digits2_pos p) <= 63)
    by (apply (Zdigits2_lt (Z.pos p) 63); lia).
  pose proof (fexp_lower (Z.pos (digits2_pos p) + 0)) as [Hl1 Hl2].
  assert (Hu : fexp prec emax (Z.pos (digits2_pos p) + 0) <= 10)
    by (apply fexp_upper; lia).
  destruct (fexp prec emax (Z.pos (digits2_pos p) + 0) - 0) as [| q | d] eqn:E.
  - destruct (binary_round_aux_finite false (Z.pos p) 0 loc_Exact)
      as [-> | (m2 & e2 & -> & He2)]; [lia | | now left |].
    + cbn [Zdigits2]. change (emax - prec) with 971. lia.
    + right. exists m2, e2. split; [reflexivity |]. cbn [Zdigits2] in He2. lia.
  - destruct (binary_round_aux_finite false (Z.pos p) 0 loc_Exact)
      as [-> | (m2 & e2 & -> & He2)]; [lia | | now left |].
    + cbn [Zdigits2]. change (emax - prec) with 971. lia.
    + right. exists m2, e2. split; [reflexivity |]. cbn [Zdigits2] in He2. lia.
  - set (ez := fexp prec emax (Z.pos (digits2_pos p) + 0)) in *.
    assert (Ed : Zdigits2 (Z.pos (Pos.iter xO p d)) + ez
                 = Z.pos (digits2_pos p) + 0).
    { cbn [Zdigits2]. rewrite digits2_pos_iter_xO. lia. }
    destruct (binary_round_aux_finite false (Z.pos (Pos.iter xO p d)) ez loc_Exact)
      as [-> | (m2 & e2 & -> & He2)]; [lia | | now left |].
    + rewrite Ed. fold ez. change (emax - prec) with 971. lia.
    + right. exists m2, e2. split; [reflexivity |].
      rewrite Ed in He2. fold ez in He2. lia.
Qed.

(** The product of a fraction below one and such a number. *)
Lemma SFmul_fraction_finite (mf mm : positive) (ef em : Z) :
  Z.pos (digits2_pos mf) <= 53 -> Z.pos (digits2_pos mm) <= 53 ->
  ef <= -52 -> em <= 11 ->
  exists z, SFmul prec emax (S754_finite false mf ef) (S754_finite false mm em) = z
            /\ (z = S754_zero false \/ exists m e, z = S754_finite false m e).
Proof.
  intros Hdf Hdm Hef Hem. eexists. split; [reflexivity |]. cbn [SFmul xorb].
  assert (Hd : Zdigits2 (Z.pos (mf * mm)) <= 106).
  { apply Zdigits2_lt; [| lia]. split; [lia |].
    destruct (digits2_pos_bounds mf) as [_ Uf].
    destruct (digits2_pos_bounds mm) as [_ Um].
    assert (H1 : 2 ^ Z.pos (digits2_pos mf) <= 2 ^ 53) by (apply Z.pow_le_mono_r; lia).
    assert (H2 : 2 ^ Z.pos (digits2_pos mm) <= 2 ^ 53) by (apply Z.pow_le_mono_r; lia).
    change (2 ^ 106) with (2 ^ 53 * 2 ^ 53). rewrite Pos2Z.inj_mul.
    apply Z.mul_lt_mono_nonneg; lia. }
  pose proof (fexp_lower (Zdigits2 (Z.pos (mf * mm)) + (ef + em))) as [Hl1 Hl2].
  assert (Hu : fexp prec emax (Zdigits2 (Z.pos (mf * mm)) + (ef + em)) <= 12)
    by (apply fexp_upper; lia).
  destruct (binary_round_aux_finite false (Z.pos (mf * mm)) (ef + em) loc_Exact)
    as [-> | (m2 & e2 & -> & He2)]; [lia | | now left | right; eauto].
  change (emax - prec) with 971. lia.
Qed.

(** Rounding a mantissa that is already in place changes nothing. *)
Lemma binary_round_aux_canonical (s : bool) (m : positive) (e : Z) :
  fexp prec emax (Z.pos (digits2_pos m) + e) = e -> e <= emax - prec ->
  binary_round_aux prec emax s (Z.pos m) e loc_Exact = S754_finite s m e.
Proof.
  intros C B. unfold binary_round_aux, shr_fexp. cbn [Zdigits2].
  rewrite C, Z.sub_diag.
  cbn [shr shr_record_of_loc shr_m loc_of_shr_record round_nearest_even Zdigits2].
  rewrite C, Z.sub_diag. cbn [shr shr_record_of_loc shr_m].
  apply Z.leb_le in B. now rewrite B.
Qed.

Lemma binary_round_aux_double (s : bool) (m : positive) (e : Z) :
  fexp prec emax (Z.pos (digits2_pos m) + e) = e -> e <= emax - prec ->
  binary_round_aux prec emax s (Z.pos m~0) (e - 1) loc_Exact = S754_finite s m e.
Proof.
  intros C B. unfold binary_round_aux.
  assert (S1 : shr_fexp prec emax (Z.pos m~0) (e - 1) loc_Exact
               = ({| shr_m := Z.pos m; shr_r := false; shr_s := false |}, e)).
  { unfold shr_fexp.
    replace (fexp prec emax (Zdigits2 (Z.pos m~0) + (e - 1)) - (e - 1)) with 1.
    - unfold shr. f_equal. lia.
    - replace (Zdigits2 (Z.pos m~0) + (e - 1)) with (Z.pos (digits2_pos m) + e);
        [rewrite C; lia |].
      cbn [Zdigits2 digits2_pos]. lia. }
  rewrite S1. cbn [shr_m loc_of_shr_record round_nearest_even].
  unfold shr_fexp. cbn [Zdigits2]. rewrite C, Z.sub_diag.
  cbn [shr shr_record_of_loc shr_m].
  apply Z.leb_le in B. now rewrite B.
Qed.

(** Division by one changes nothing. *)
Lemma SFdiv_one (s : bool) (m : positive) (e : Z) :
  fexp prec emax (Z.pos (digits2_pos m) + e) = e -> e <= emax - prec ->
  SFdiv prec emax (S754_finite s m e) (S754_finite false 4503599627370496 (-52))
  = S754_finite s m e.
Proof.
  intros C B. unfold SFdiv, SFdiv_core_binary. rewrite xorb_false_r.
  cbn [Zdigits2]. change (Z.pos (digits2_pos 4503599627370496)) with 53.
  set (d := Z.pos (digits2_pos m)) in *.
  destruct (Z.eq_dec e (-1074)) as [He | He].
  - replace (Z.min (fexp prec emax (d + e - (53 + -52))) (e - -52)) with e
      by (revert C; unfold fexp, SpecFloat.emin, prec, emax; lia).
    replace (e - -52 - e) with 52 by lia.
    rewrite Z.shiftl_mul_pow2 by lia.
    pose proof (Z_div_mod (Z.pos m * 2 ^ 52) 4503599627370496 ltac:(lia)) as Hdm.
    destruct (Z.div_eucl (Z.pos m * 2 ^ 52) 4503599627370496) as [q r].
    destruct Hdm as [Eq Hr].
    assert (q = Z.pos m /\ r = 0) as [-> ->].
    { apply (Z.div_mod_unique 4503599627370496); [lia | lia |].
      rewrite <- Eq. change (2 ^ 52) with 4503599627370496. lia. }
    rewrite new_location_exact. now apply binary_round_aux_canonical.
  - replace (Z.min (fexp prec emax (d + e - (53 + -52))) (e - -52)) with (e - 1)
      by (revert C; unfold fexp, SpecFloat.emin, prec, emax; lia).
    replace (e - -52 - (e - 1)) with 53 by lia.
    rewrite Z.shiftl_mul_pow2 by lia.
    pose proof (Z_div_mod (Z.pos m * 2 ^ 53) 4503599627370496 ltac:(lia)) as Hdm.
    destruct (Z.div_eucl (Z.pos m * 2 ^ 53) 4503599627370496) as [q r].
    destruct Hdm as [Eq Hr].
    assert (q = Z.pos m~0 /\ r = 0) as [-> ->].
    { apply (Z.div_mod_unique 4503599627370496); [lia | lia |].
      rewrite <- Eq. change (2 ^ 53) with 9007199254740992. lia. }
    rewrite new_location_exact. now apply binary_round_aux_double.
Qed.

End Rounding.

(** ** The product [f * n] *)

(** A length below [2^63] (every NumPy array has one) converts to a zero or
    to a finite positive float. *)
Lemma float_of_nat_small (n : nat) :
  (Z.of_nat n < 2 ^ 63)%Z ->
  Prim2SF (float_of_nat n) = S754_zero false \/
  exists m e, Prim2SF (float_of_nat n) = S754_finite false m e /\ (e <= 11)%Z.
Proof.
  intros Hn. unfold float_of_nat.
  assert (E : binary_normalize prec emax (Z.of_nat n) 0 false
              = Prim2SF (of_uint63 (Uint63.of_Z (Z.of_nat n)))).
  { rewrite of_uint63_spec. f_equal. rewrite Uint63.of_Z_spec.
    symmetry. apply Z.mod_small. split; [lia | exact Hn]. }
  rewrite E, SF2Prim_Prim2SF, <- E. apply binary_normalize_small. lia.
Qed.

(** [int(f * n)] returns for a fraction [f] strictly between 0 and 1. *)
Lemma float_trunc_mul_returns (f : float) (n : nat) :
  (0 <? f)%float = true -> (f <? 1)%float = true ->
  (Z.of_nat n < 2 ^ 63)%Z ->
  exists k, float_trunc (f * float_of_nat n) = OK k.
Proof.
  intros H0 H1 Hn. destruct (float_lt_one_cases f H0 H1) as (mf & ef & Ef).
  destruct (valid_finite f false mf ef Ef) as [Cf _].
  assert (Hdf : (Z.pos (digits2_pos mf) <= 53)%Z)
    by (revert Cf; unfold fexp, SpecFloat.emin, prec, emax; lia).
  assert (Hef : (ef <= -52)%Z).
  { rewrite ltb_spec, Ef in H1.
    change (Prim2SF 1) with (S754_finite false 4503599627370496 (-52)) in H1.
    unfold SFltb in H1. cbn [SFcompare] in H1.
    destruct (Z.compare_spec ef (-52)); try discriminate; lia. }
  unfold float_trunc. rewrite mul_spec, Ef.
  destruct (float_of_nat_small n Hn) as [E | (mm & em & E & Hem)].
  - rewrite E. cbn. eauto.
  - destruct (valid_finite _ false mm em E) as [Cm _].
    assert (Hdm : (Z.pos (digits2_pos mm) <= 53)%Z)
      by (revert Cm; unfold fexp, SpecFloat.emin, prec, emax; lia).
    rewrite E. unfold SF64mul.
    destruct (SFmul_fraction_finite mf mm ef em Hdf Hdm Hef Hem)
      as (z & -> & [-> | (m & e & ->)]); eauto.
Qed.

(** * The salience filter *)

(** ** For any arithmetic and any admissible outcome of [np.argsort] *)

Lemma existsb_eqb_In (i : nat) (l : list nat) :
  existsb (Nat.eqb i) l = true <-> In i l.
Proof.
  rewrite existsb_exists. split.
  - intros (j & Hj & E). apply Nat.eqb_eq in E. now subst.
  - intros H. exists i. split; [exact H | apply Nat.eqb_refl].
Qed.

Lemma py_slice_to_In {A : Type} (k : Z) (l : list A) (x : A) :
  In x (py_slice_to k l) -> In x l.
Proof.
  unfold py_slice_to. destruct (0 <=? k)%Z; apply In_firstn_all.
Qed.

Lemma py_slice_to_firstn {A : Type} (k : Z) (l : list A) :
  exists c, py_slice_to k l = firstn c l.
Proof. unfold py_slice_to. destruct (0 <=? k)%Z; eauto. Qed.

Lemma nth_masked {R : Type} (g : nat -> R -> R) (a : list R) (i : nat) (d : R) :
  i < length a ->
  nth i (map (fun p => g (fst p) (snd p)) (combine (seq 0 (length a)) a)) d
  = g i (nth i a d).
Proof.
  change (g i) with (g (0 + i)). generalize 0 as start.
  revert i. induction a as [| x a IH]; intros i start Hi; simpl in *; [lia |].
  destruct i as [| i]; simpl.
  - now rewrite Nat.add_0_r.
  - rewrite IH by lia. now rewrite Nat.add_succ_r.
Qed.

Section SalienceFilterFacts.

Context {R : Type} {ops : NumOps R}.
Variable argsort : list R -> list nat.

Lemma salience_length (a : list R) (pred : R) (mtp : bool) :
  length (salience a pred mtp) = length a.
Proof.
  unfold salience. destruct (nltb pred nhalf), (negb mtp);
    now rewrite ?length_map.
Qed.

Lemma nth_map_nopp (v : list R) (i : nat) :
  i < length v -> nth i (map nopp v) nzero = nopp (nth i v nzero).
Proof.
  intros Hi.
  rewrite (nth_indep _ nzero (nopp nzero)) by (now rewrite length_map).
  apply map_nth.
Qed.

Section Admissible.

Variables (a : list R) (pred : R) (mtp : bool) (k : Z).

Hypothesis argsort_admissible :
  argsort_ok (map nopp (salience a pred mtp))
             (argsort (map nopp (salience a pred mtp))) = true.

Lemma top_idxs_of_bound (i : nat) :
  In i (top_idxs_of argsort k (salience a pred mtp)) -> i < length a.
Proof.
  destruct (argsort_ok_bounds _ _ argsort_admissible) as (_ & _ & Hin).
  rewrite length_map, salience_length in Hin.
  intros Hi. apply Hin. eapply py_slice_to_In. exact Hi.
Qed.

Lemma top_idxs_of_NoDup : NoDup (top_idxs_of argsort k (salience a pred mtp)).
Proof.
  destruct (argsort_ok_bounds _ _ argsort_admissible) as (Hnd & _ & _).
  unfold top_idxs_of.
  destruct (py_slice_to_firstn k (argsort (map nopp (salience a pred mtp))))
    as (c & ->).
  rewrite <- (firstn_skipn c) in Hnd.
  now apply NoDup_app_remove_r in Hnd.
Qed.

Lemma top_idxs_of_length :
  (0 <= k)%Z ->
  top_idxs_of argsort k (salience a pred mtp)
  = firstn (Z.to_nat k) (argsort (map nopp (salience a pred mtp)))
  /\ length (top_idxs_of argsort k (salience a pred mtp))
     = Nat.min (Z.to_nat k) (length a).
Proof.
  intros Hk.
  destruct (argsort_ok_bounds _ _ argsort_admissible) as (_ & Hlen & _).
  rewrite length_map, salience_length in Hlen.
  unfold top_idxs_of, py_slice_to.
  replace (0 <=? k)%Z with true by (symmetry; now apply Z.leb_le).
  split; [reflexivity |]. now rewrite length_firstn, Hlen.
Qed.

(** No position left out sorts before a selected one. *)
Lemma top_idxs_of_top (i j : nat) :
  In i (top_idxs_of argsort k (salience a pred mtp)) -> j < length a ->
  ~ In j (top_idxs_of argsort k (salience a pred mtp)) ->
  np_lt (nopp (nth j (salience a pred mtp) nzero))
        (nopp (nth i (salience a pred mtp) nzero)) = false.
Proof.
  intros Hi Hj Hnj.
  pose proof (top_idxs_of_bound i Hi) as Hib.
  destruct (argsort_ok_bounds _ _ argsort_admissible) as (_ & _ & Hin).
  rewrite length_map, salience_length in Hin.
  pose proof argsort_admissible as Hs. unfold argsort_ok in Hs.
  apply andb_true_iff in Hs. destruct Hs as (_ & Hs).
  unfold top_idxs_of in *.
  set (order := argsort _) in *.
  destruct (py_slice_to_firstn k order) as (c & E). rewrite E in *.
  rewrite <- (firstn_skipn c order) in Hs.
  assert (Hj' : In j (skipn c order)).
  { apply Hin in Hj. rewrite <- (firstn_skipn c order) in Hj.
    apply in_app_or in Hj. tauto. }
  pose proof (np_sorted_by_app _ _ _ Hs i j Hi Hj') as H.
  now rewrite !nth_map_nopp in H by (now rewrite salience_length).
Qed.

(** The selected positions are listed in the order of the sort. *)
Lemma top_idxs_of_descending (p q : nat) :
  p < q < length (top_idxs_of argsort k (salience a pred mtp)) ->
  np_lt (nopp (nth (nth q (top_idxs_of argsort k (salience a pred mtp)) 0)
                   (salience a pred mtp) nzero))
        (nopp (nth (nth p (top_idxs_of argsort k (salience a pred mtp)) 0)
                   (salience a pred mtp) nzero)) = false.
Proof.
  intros Hpq.
  assert (Hb : forall r, r < length (top_idxs_of argsort k (salience a pred mtp)) ->
                         nth r (top_idxs_of argsort k (salience a pred mtp)) 0
                         < length (salience a pred mtp)).
  { intros r Hr. rewrite salience_length. apply top_idxs_of_bound.
    now apply nth_In. }
  pose proof argsort_admissible as Hs. unfold argsort_ok in Hs.
  apply andb_true_iff in Hs. destruct Hs as (_ & Hs).
  unfold top_idxs_of in *.
  set (order := argsort _) in *.
  destruct (py_slice_to_firstn k order) as (c & E). rewrite E in *.
  apply (np_sorted_by_firstn _ _ c) in Hs.
  pose proof (np_sorted_by_nth _ _ p q Hs Hpq) as H.
  now rewrite !nth_map_nopp in H by (apply Hb; lia).
Qed.

(** The filter multiplies the selected entries by one and the others by
    zero. *)
Lemma select_step_masked (f : R) :
  nltb f nunit = true ->
  ntrunc (nmul f (nof_nat (length a))) = OK k ->
  select_step argsort (Some f) mtp pred a
  = OK (map (fun p =>
               nmul (snd p)
                    (if existsb (Nat.eqb (fst p))
                          (top_idxs_of argsort k (salience a pred mtp))
                     then nunit else nzero))
            (combine (seq 0 (length a)) a)).
Proof.
  intros Hf Hk. unfold select_step. rewrite Hf, Hk. cbn [bind].
  rewrite set_items_zeros by (intros i Hi; now apply top_idxs_of_bound).
  cbn [bind]. now rewrite mul_arrays_mask.
Qed.

End Admissible.

End SalienceFilterFacts.

(** ** In binary64 *)

(** What NumPy's sort order of the negated ranking values says of the
    ranking values themselves. *)
Lemma np_lt_opp_false (x y : float) :
  np_lt (- y)%float (- x)%float = false ->
  (x <? y)%float = false /\ ((x =? x)%float = false -> (y =? y)%float = false).
Proof.
  unfold np_lt. cbn [nltb neqb float_ops]. intros H.
  apply orb_false_iff in H. destruct H as [H1 H2].
  rewrite float_ltb_opp in H1. rewrite !float_eqb_opp in H2.
  split; [exact H1 |]. intros E. rewrite E in H2. simpl in H2. exact H2.
Qed.

Lemma salience_rank_value (a : list float) (pred : float) (mtp : bool) :
  salience a pred mtp = map (rank_value (pred <? 0.5)%float mtp) a.
Proof.
  unfold salience, rank_value. cbn [nltb nhalf nopp nabs float_ops].
  destruct (pred <? 0.5)%float, mtp; cbn [negb]; rewrite ?map_map;
    try reflexivity.
  now rewrite map_id.
Qed.

(** The displayed vector of the filter: the selected entries as they are,
    the others multiplied by zero. *)
Lemma select_step_float (argsort : list float -> list nat)
      (a : list float) (pred f : float) (mtp : bool) (k : Z) :
  argsort_ok (map nopp (salience a pred mtp))
             (argsort (map nopp (salience a pred mtp))) = true ->
  (f <? 1)%float = true ->
  float_trunc (f * float_of_nat (length a)) = OK k ->
  exists out,
    select_step argsort (Some f) mtp pred a = OK out /\
    length out = length a /\
    forall i, i < length a ->
      (In i (top_idxs_of argsort k (salience a pred mtp)) ->
       nth i out 0%float = nth i a 0%float) /\
      (~ In i (top_idxs_of argsort k (salience a pred mtp)) ->
       nth i out 0%float = (nth i a 0 * 0)%float).
Proof.
  intros Hok Hf Hk.
  rewrite (select_step_masked argsort a pred mtp k Hok f Hf Hk).
  eexists. split; [reflexivity |]. split.
  - now rewrite length_map, length_combine, length_seq, Nat.min_id.
  - intros i Hi.
    rewrite (nth_masked
               (fun i x => nmul x (if existsb (Nat.eqb i)
                                        (top_idxs_of argsort k (salience a pred mtp))
                                   then nunit else nzero)) a i 0%float Hi).
    cbn [nmul nunit nzero float_ops]. split; intros Hsel.
    + apply existsb_eqb_In in Hsel. rewrite Hsel. apply float_mul_one.
    + destruct (existsb _ _) eqn:E; [| reflexivity].
      apply existsb_eqb_In in E. contradiction.
Qed.

(** Without ties an admissible argsort is determined: here the only
    non-decreasing listing of [[-0.2, -0.8, -0.1]]. *)
Lemma argsort_ok_scenario (idxs : list nat) :
  argsort_ok [-0.2; -0.8; -0.1]%float idxs = true -> idxs = [1; 0; 2].
Proof.
  destruct idxs as [| i [| j [| k [| l idxs]]]]; try discriminate;
    destruct i as [| [| [| i]]]; try discriminate;
    destruct j as [| [| [| j]]]; try discriminate;
    destruct k as [| [| [| k]]]; try discriminate;
    vm_compute; intros H; try discriminate H; reflexivity.
Qed.

(** C2: for a vector of fewer than [2^63] entries (as every NumPy array
    is), a fraction [f] strictly between 0 and 1 and any admissible outcome
    of [np.argsort], all in binary64. [int(f * n)] returns a number [k],
    which is the floor of the product and is not negative; the ranking
    vector is the attributions, negated when the prediction is below 0.5
    and in absolute value when [match_to_pred] is false; the selected
    positions are the first [k] of the argsort of its negation: [min k n]
    distinct positions, none of which has a ranking value below that of a
    position left out (and a NaN is selected only when every position left
    out holds a NaN); the record is returned and displays the original
    entry at every selected position and the entry times zero, a zero when
    the entry is finite, at every other position. In particular
    [[0.2, -0.8, 0.1]] with prediction 0.3, [f = 0.34] and [match_to_pred]
    false is displayed as [[0, -0.8, 0]]. *)
Theorem salience_filter_top_fraction :
  (forall (argsort : list float -> list nat) (L T : Type)
          (a : list float) (text : list T) (pred delta : float) (lbl : L)
          (f : float) (mtp : bool),
      (0 <? f)%float = true -> (f <? 1)%float = true ->
      (Z.of_nat (length a) < 2 ^ 63)%Z ->
      argsort_ok (map nopp (salience a pred mtp))
                 (argsort (map nopp (salience a pred mtp))) = true ->
      let sal := salience a pred mtp in
      exists k,
        let selected := top_idxs_of argsort k sal in
        (float_trunc (f * float_of_nat (length a)) = OK k /\
         float_floor (f * float_of_nat (length a)) = Some k /\ (0 <= k)%Z) /\
        sal = map (rank_value (pred <? 0.5)%float mtp) a /\
        (selected = firstn (Z.to_nat k) (argsort (map nopp sal)) /\
         length selected = Nat.min (Z.to_nat k) (length a) /\
         NoDup selected /\
         (forall i, In i selected -> i < length a) /\
         (forall i j, In i selected -> j < length a -> ~ In j selected ->
                      (nth i sal 0 <? nth j sal 0)%float = false /\
                      ((nth i sal 0 =? nth i sal 0)%float = false ->
                       (nth j sal 0 =? nth j sal 0)%float = false))) /\
        exists out,
          displayed (visualization_record argsort a text pred delta lbl false
                       (Some f) mtp) = OK out /\
          length out = length a /\
          forall i, i < length a ->
            (In i selected -> nth i out 0%float = nth i a 0%float) /\
            (~ In i selected ->
             nth i out 0%float = (nth i a 0 * 0)%float /\
             (float_is_finite (nth i a 0%float) = true ->
              is_fzero (nth i out 0%float))))
  /\
  (forall (argsort : list float -> list nat) (L T : Type)
          (text : list T) (delta : float) (lbl : L),
      argsort_ok (map nopp (salience [0.2; -0.8; 0.1]%float 0.3%float false))
                 (argsort (map nopp (salience [0.2; -0.8; 0.1]%float 0.3%float false)))
      = true ->
      float_trunc (0.34 * float_of_nat 3) = OK 1%Z /\
      salience [0.2; -0.8; 0.1]%float 0.3%float false = [0.2; 0.8; 0.1]%float /\
      top_idxs_of argsort 1 (salience [0.2; -0.8; 0.1]%float 0.3%float false) = [1] /\
      displayed (visualization_record argsort [0.2; -0.8; 0.1]%float text
                   0.3%float delta lbl false (Some 0.34%float) false)
      = OK [0; -0.8; 0]%float).
Proof.
  split.
  - intros argsort L T a text pred delta lbl f mtp Hpos Hlt Hn Hok sal.
    subst sal.
    destruct (float_trunc_mul_returns f (length a) Hpos Hlt Hn) as (k & Hk).
    exists k. cbv zeta.
    destruct (float_trunc_mul_floor f (length a) k Hpos Hlt Hk) as [Hk0 Hfl].
    split; [now repeat split |].
    split; [apply salience_rank_value |].
    split.
    + destruct (top_idxs_of_length argsort a pred mtp k Hok Hk0) as [E1 E2].
      split; [exact E1 |]. split; [exact E2 |].
      split; [now apply top_idxs_of_NoDup |].
      split; [intros i; now apply top_idxs_of_bound |].
      intros i j Hi Hj Hnj. apply np_lt_opp_false.
      exact (top_idxs_of_top argsort a pred mtp k Hok i j Hi Hj Hnj).
    + destruct (select_step_float argsort a pred f mtp k Hok Hlt Hk)
        as (out & E & Hlen & Hout).
      exists out. split; [| split; [exact Hlen |]].
      * unfold displayed, visualization_record. cbn [normalize_step bind].
        now rewrite E.
      * intros i Hi. destruct (Hout i Hi) as [Hin Hnin].
        split; [exact Hin |]. intros Hsel. split; [now apply Hnin |].
        intros Hfin. rewrite (Hnin Hsel). now apply float_mul_zero.
  - intros argsort L T text delta lbl Hok.
    change (map nopp (salience [0.2; -0.8; 0.1]%float 0.3%float false))
      with [-0.2; -0.8; -0.1]%float in Hok.
    apply argsort_ok_scenario in Hok.
    split; [reflexivity |]. split; [reflexivity |]. split.
    + unfold top_idxs_of.
      change (map nopp (salience [0.2; -0.8; 0.1]%float 0.3%float false))
        with [-0.2; -0.8; -0.1]%float.
      now rewrite Hok.
    + unfold displayed, visualization_record, select_step, top_idxs_of.
      cbn [normalize_step bind].
      change (map nopp (salience [0.2; -0.8; 0.1]%float 0.3%float false))
        with [-0.2; -0.8; -0.1]%float.
      rewrite Hok. reflexivity.
Qed.

Lemma salience_filter_top_fraction_witness :
  (exists k,
      float_trunc (0.5 * float_of_nat 5) = OK k /\
      float_floor (0.5 * float_of_nat 5) = Some k /\ (0 <= k)%Z)
  /\ displayed (visualization_record (@stable_argsort float float_ops)
                  [0.2; -0.8; 0.1]%float ["a"; "b"; "c"]%string
                  0.3%float 0%float 1%Z false (Some 0.34%float) false)
     = OK [0; -0.8; 0]%float.
Proof.
  split.
  - destruct (proj1 salience_filter_top_fraction
                (@stable_argsort float float_ops) Z string
                [0.2; -0.8; 0.1; 0.4; -0.3]%float
                ["a"; "b"; "c"; "d"; "e"]%string
                0.7%float 0%float 1%Z 0.5%float true
                eq_refl eq_refl eq_refl eq_refl) as (k & Hk & _).
    exists k. exact Hk.
  - refine (proj2 (proj2 (proj2 (proj2 salience_filter_top_fraction
                                   (@stable_argsort float float_ops) Z string
                                   ["a"; "b"; "c"]%string 0%float 1%Z _)))).
    reflexivity.
Defined.

(** C3, as stated, fails: the ranking vector [[1, 1, 2, 3]] with three
    positions to select ties positions 0 and 1 for the last place. NumPy's
    contract admits the listing [[3, 2, 1, 0]] of the negated vector as well
    as the stable [[3, 2, 0, 1]], and under it position 1 is selected and
    displayed, not the smaller position 0. *)
Lemma tie_not_broken_by_index :
  let a := [1; 1; 2; 3]%float in
  let sal := salience a 0.7%float false in
  sal = [1; 1; 2; 3]%float
  /\ float_trunc (0.75 * float_of_nat (length a)) = OK 3%Z
  /\ argsort_ok (map nopp sal) [3; 2; 0; 1] = true
  /\ argsort_ok (map nopp sal) [3; 2; 1; 0] = true
  /\ (forall argsort : list float -> list nat,
         argsort (map nopp sal) = [3; 2; 1; 0] ->
         top_idxs_of argsort 3 sal = [3; 2; 1]
         /\ displayed (visualization_record argsort a ["a"; "b"; "c"; "d"]%string
                         0.7%float 0%float 1%Z false (Some 0.75%float) false)
            = OK [0; 1; 2; 3]%float).
Proof.
  cbv zeta. split; [reflexivity |]. split; [reflexivity |].
  split; [reflexivity |]. split; [reflexivity |].
  intros argsort E. split.
  - unfold top_idxs_of.
    change (map nopp (salience [1; 1; 2; 3]%float 0.7%float false))
      with [-1; -1; -2; -3]%float in *.
    now rewrite E.
  - unfold displayed, visualization_record, select_step, top_idxs_of.
    cbn [normalize_step bind].
    change (map nopp (salience [1; 1; 2; 3]%float 0.7%float false))
      with [-1; -1; -2; -3]%float in *.
    rewrite E. reflexivity.
Qed.

(** C3, amended (binary64, any admissible outcome of [np.argsort]): for a
    fraction below 1, with [k] what [int(f * n)] evaluates to, the record
    displays the entries at the positions [np.argsort(-sal)[:k]] unchanged
    and the others times zero; the selected positions are listed by
    non-increasing ranking value, and a position whose ranking value is
    strictly greater than that of a selected position is selected too;
    which of several positions of equal value is selected is left to
    [np.argsort]. *)
Theorem selection_descending_ties_unspecified :
  forall (argsort : list float -> list nat) (L T : Type)
         (a : list float) (text : list T) (pred delta : float) (lbl : L)
         (f : float) (mtp : bool) (k : Z),
    (f <? 1)%float = true ->
    float_trunc (f * float_of_nat (length a)) = OK k ->
    argsort_ok (map nopp (salience a pred mtp))
               (argsort (map nopp (salience a pred mtp))) = true ->
    let sal := salience a pred mtp in
    let selected := top_idxs_of argsort k sal in
    let value i := nth i sal 0%float in
    (exists out,
        displayed (visualization_record argsort a text pred delta lbl false
                     (Some f) mtp) = OK out /\
        forall i, i < length a ->
          (In i selected -> nth i out 0%float = nth i a 0%float) /\
          (~ In i selected -> nth i out 0%float = (nth i a 0 * 0)%float)) /\
    (forall p q, p < q < length selected ->
                 (value (nth p selected O) <? value (nth q selected O))%float
                 = false) /\
    (forall i j, In i selected -> j < length a ->
                 (value i <? value j)%float = true -> In j selected).
Proof.
  intros argsort L T a text pred delta lbl f mtp k Hlt Hk Hok sal selected value.
  split; [| split].
  - destruct (select_step_float argsort a pred f mtp k Hok Hlt Hk)
      as (out & E & _ & Hout).
    exists out. split; [| exact Hout].
    unfold displayed, visualization_record. cbn [normalize_step bind].
    now rewrite E.
  - intros p q Hpq. subst value selected sal.
    apply np_lt_opp_false.
    exact (top_idxs_of_descending argsort a pred mtp k Hok p q Hpq).
  - intros i j Hi Hj Hij.
    destruct (in_dec Nat.eq_dec j selected) as [Hin | Hnin]; [exact Hin |].
    exfalso.
    destruct (np_lt_opp_false _ _
                (top_idxs_of_top argsort a pred mtp k Hok i j Hi Hj Hnin))
      as [H _].
    subst value sal. cbn beta in Hij. cbn [nzero float_ops] in H.
    rewrite H in Hij. discriminate Hij.
Qed.

Lemma selection_descending_ties_unspecified_witness :
  In 2 (top_idxs_of (@stable_argsort float float_ops) 3
          (salience [1; 1; 2; 3]%float 0.7%float false)).
Proof.
  refine (proj2 (proj2 (selection_descending_ties_unspecified
                          (@stable_argsort float float_ops) Z string
                          [1; 1; 2; 3]%float ["a"; "b"; "c"; "d"]%string
                          0.7%float 0%float 1%Z 0.75%float false 3%Z _ _ _))
                0 2 _ _ _).
  - reflexivity.
  - reflexivity.
  - reflexivity.
  - vm_compute. auto.
  - simpl. lia.
  - reflexivity.
Defined.

(** ** An admissible outcome of [np.argsort] exists for every vector *)

Lemma remove_one_In (i : nat) (l : list nat) :
  In i l -> exists r, remove_one i l = Some r.
Proof.
  induction l as [| j l IH]; simpl; [tauto |].
  destruct (Nat.eqb_spec i j) as [-> | Hne]; [eauto |].
  intros [-> | Hin]; [congruence |].
  destruct (IH Hin) as (r & ->). eauto.
Qed.

Lemma Permutation_is_perm_of (idxs range : list nat) :
  Permutation idxs range -> is_perm_of idxs range = true.
Proof.
  revert range. induction idxs as [| i idxs IH]; intros range Hp; simpl.
  - apply Permutation_nil in Hp. now subst.
  - destruct (remove_one_In i range) as (r & E).
    { apply (Permutation_in _ Hp). now left. }
    rewrite E. apply IH. apply remove_one_Permutation in E.
    apply Permutation_cons_inv with (a := i).
    eapply perm_trans; eauto.
Qed.

Lemma sf_key_range (x : spec_float) :
  let '(a, b, c) := sf_key x in (-2 <= a <= 2)%Z.
Proof. destruct x as [s | s | | s m e]; try destruct s; simpl; lia. Qed.

Lemma float_eqb_refl_nan (x : float) :
  (x =? x)%float = negb (sf_is_nan (Prim2SF x)).
Proof.
  rewrite eqb_spec. unfold SFeqb.
  destruct (Prim2SF x) as [s | s | | s m e]; try destruct s; simpl;
    try reflexivity.
  all: rewrite Z.compare_refl, Pos.compare_cont_refl; reflexivity.
Qed.

Lemma np_lt_key_lt (x y : float) :
  np_lt x y = true <-> key_lt (np_key x) (np_key y).
Proof.
  unfold np_lt, np_key. cbn [nltb neqb float_ops].
  rewrite !float_eqb_refl_nan, negb_involutive, orb_true_iff, andb_true_iff.
  rewrite ltb_spec, SFltb_key.
  pose proof (sf_key_range (Prim2SF x)) as Rx.
  pose proof (sf_key_range (Prim2SF y)) as Ry.
  destruct (sf_is_nan (Prim2SF x)), (sf_is_nan (Prim2SF y));
    destruct (sf_key (Prim2SF x)) as [[a b] c];
    destruct (sf_key (Prim2SF y)) as [[a' b'] c'];
    unfold key_lt; cbn [negb]; intuition (try discriminate; try lia).
Qed.

Lemma np_lt_false_key (x y : float) :
  np_lt x y = false <-> ~ key_lt (np_key x) (np_key y).
Proof.
  rewrite <- np_lt_key_lt. destruct (np_lt x y); split; congruence.
Qed.

Section StableArgsort.

Variable v : list float.

Lemma insert_idx_In (i k : nat) (sorted : list nat) :
  In k (insert_idx np_lt v nzero i sorted) <-> k = i \/ In k sorted.
Proof.
  induction sorted as [| j rest IH]; simpl; [intuition |].
  destruct (np_lt _ _); simpl; [rewrite IH |]; intuition.
Qed.

Lemma insert_idx_Permutation (i : nat) (sorted : list nat) :
  Permutation (insert_idx np_lt v nzero i sorted) (i :: sorted).
Proof.
  induction sorted as [| j rest IH]; simpl; [apply Permutation_refl |].
  destruct (np_lt _ _); [| apply Permutation_refl].
  eapply perm_trans; [apply perm_skip, IH | apply perm_swap].
Qed.

Lemma insert_idx_sorted (i : nat) (sorted : list nat) :
  np_sorted_by v sorted = true ->
  np_sorted_by v (insert_idx np_lt v nzero i sorted) = true.
Proof.
  induction sorted as [| j rest IH]; intros Hs; [reflexivity |].
  cbn [np_sorted_by] in Hs. apply andb_true_iff in Hs. destruct Hs as (Hj & Hrest).
  rewrite forallb_forall in Hj. cbn [insert_idx].
  destruct (np_lt (nth j v nzero) (nth i v nzero)) eqn:E;
    cbn [np_sorted_by]; apply andb_true_iff; split.
  - apply forallb_forall. intros k Hk. apply insert_idx_In in Hk.
    destruct Hk as [-> | Hk]; [| now apply Hj].
    apply negb_true_iff, np_lt_false_key. apply np_lt_key_lt in E.
    destruct (np_key (nth i v nzero)) as [[a b] c].
    destruct (np_key (nth j v nzero)) as [[a' b'] c'].
    unfold key_lt in *. lia.
  - now apply IH.
  - apply forallb_forall. intros k [<- | Hk]; [now rewrite E |].
    specialize (Hj k Hk). apply negb_true_iff, np_lt_false_key in Hj.
    apply np_lt_false_key in E. apply negb_true_iff, np_lt_false_key.
    destruct (np_key (nth i v nzero)) as [[a b] c].
    destruct (np_key (nth j v nzero)) as [[a' b'] c'].
    destruct (np_key (nth k v nzero)) as [[a'' b''] c''].
    unfold key_lt in *. lia.
  - cbn [np_sorted_by]. apply andb_true_iff. split; [| exact Hrest].
    now apply forallb_forall.
Qed.

(** The hypothesis on [np.argsort] in the properties above can be met on
    every vector: a stable sort is one admissible outcome. *)
Lemma stable_argsort_admissible :
  argsort_ok v (stable_argsort v) = true.
Proof.
  unfold argsort_ok, stable_argsort. apply andb_true_iff. split.
  - apply Permutation_is_perm_of.
    induction (seq 0 (length v)) as [| i l IH]; simpl; [constructor |].
    eapply perm_trans; [apply insert_idx_Permutation | now apply perm_skip].
  - induction (seq 0 (length v)) as [| i l IH]; simpl; [reflexivity |].
    now apply insert_idx_sorted.
Qed.

End StableArgsort.

(** * Normalization *)

(** ** Division by the largest absolute value *)

(** A finite [x] divided by a positive finite [m] that is not below [|x|]:
    the quotient is finite, at most one in absolute value, and carries the
    sign bit of [x]. *)
Lemma float_div_sub_unit (x m : float) (mm : positive) (em : Z) :
  float_is_finite x = true ->
  Prim2SF m = S754_finite false mm em ->
  (m <? abs x)%float = false ->
  float_is_finite (x / m) = true /\
  (1 <? abs (x / m))%float = false /\
  float_sign (x / m) = float_sign x /\
  ((x =? 0)%float = true -> (x / m =? 0)%float = true).
Proof.
  unfold float_is_finite, float_sign. intros Hx Em Hle.
  rewrite ltb_spec, abs_spec, Em in Hle.
  rewrite ltb_spec, abs_spec, !eqb_spec, div_spec, Em.
  change (Prim2SF 1) with (S754_finite false 4503599627370496 (-52)).
  change (Prim2SF 0) with (S754_zero false).
  destruct (Prim2SF x) as [s | s | | s mx ex] eqn:Ex; try discriminate.
  - cbn. rewrite xorb_false_r. auto.
  - destruct (valid_finite x s mx ex Ex) as [Cx _].
    destruct (valid_finite m false mm em Em) as [Cm _].
    assert (Hord : (ex < em \/ (ex = em /\ Z.pos mx <= Z.pos mm))%Z).
    { unfold SFltb in Hle. cbn [SFabs SFcompare] in Hle.
      rewrite Pos.compare_cont_spec in Hle. cbn [Pos.switch_Eq] in Hle.
      destruct (Z.compare_spec em ex); try discriminate; [| lia].
      destruct (Pos.compare_spec mm mx); try discriminate; lia. }
    assert (Hz : SFeqb (S754_finite s mx ex) (S754_zero false) = true -> False)
      by (destruct s; discriminate).
    destruct (SFdiv_sub_unit s mx mm ex em Cx Cm Hord)
      as [E | (m2 & e2 & E & He2 & Hm2)];
      unfold SF64div; rewrite E; cbn [SFabs];
      [repeat split |].
    split; [reflexivity |]. split; [| split; [reflexivity |]].
    + unfold SFltb. cbn [SFcompare].
      rewrite Pos.compare_cont_spec. cbn [Pos.switch_Eq].
      destruct (Z.compare_spec (-52) e2); [| lia | reflexivity].
      subst e2. change (2 ^ (- -52))%Z with 4503599627370496%Z in Hm2.
      destruct (Pos.compare_spec 4503599627370496 m2); try reflexivity. lia.
    + intros H. now apply Hz in H.
Qed.

(** A finite number divided by itself, or its opposite by itself. *)
Lemma float_div_same (m : float) (mm : positive) (em : Z) :
  Prim2SF m = S754_finite false mm em ->
  (m / m)%float = 1%float /\ (- m / m)%float = (-1)%float.
Proof.
  intros Em. split; apply Prim2SF_inj; rewrite div_spec, ?opp_spec, Em;
    cbn [SFopp negb]; unfold SF64div; rewrite SFdiv_same; reflexivity.
Qed.

(** A finite number whose absolute value is neither above nor below a
    positive finite [m] is [m] or its opposite. *)
Lemma float_abs_eq_max (x m : float) (mm : positive) (em : Z) :
  float_is_finite x = true ->
  Prim2SF m = S754_finite false mm em ->
  (m <? abs x)%float = false -> (abs x <? m)%float = false ->
  x = m \/ x = (- m)%float.
Proof.
  unfold float_is_finite. intros Fx Em H1 H2.
  rewrite ltb_spec, abs_spec, Em in H1, H2.
  assert (E : exists s, Prim2SF x = S754_finite s mm em).
  { destruct (Prim2SF x) as [s | s | | s mx ex]; try discriminate.
    unfold SFltb in H1, H2. cbn [SFabs SFcompare] in H1, H2.
    rewrite Pos.compare_cont_spec in H1, H2. cbn [Pos.switch_Eq] in H1, H2.
    exists s.
    destruct (Z.compare_spec em ex); try discriminate;
      destruct (Z.compare_spec ex em); try discriminate; try lia.
    destruct (Pos.compare_spec mm mx); try discriminate;
      destruct (Pos.compare_spec mx mm); try discriminate; try lia.
    subst. reflexivity. }
  destruct E as ([|] & E); [right | left]; apply Prim2SF_inj;
    rewrite ?opp_spec, E, Em; reflexivity.
Qed.

Lemma float_abs_positive (m : float) (mm : positive) (em : Z) :
  Prim2SF m = S754_finite false mm em ->
  abs m = m /\ abs (- m) = m.
Proof.
  intros Em. split; apply Prim2SF_inj; rewrite abs_spec, ?opp_spec, Em;
    reflexivity.
Qed.

(** ** The builtin [max] on finite floats *)

Lemma py_max_from_In {R : Type} {ops : NumOps R} (cur : R) (l : list R) :
  In (py_max_from cur l) (cur :: l).
Proof.
  revert cur. induction l as [| x l IH]; intros cur; simpl; [now left |].
  destruct (IH (if nltb cur x then x else cur)) as [E | H].
  - destruct (nltb cur x); rewrite <- E; auto.
  - auto.
Qed.

Lemma py_max_from_upper (cur : float) (l : list float) :
  float_is_finite cur = true -> forallb float_is_finite l = true ->
  forall x, In x (cur :: l) -> (py_max_from cur l <? x)%float = false.
Proof.
  revert cur. induction l as [| y l IH]; intros cur Hc Hl x Hx.
  - destruct Hx as [<- | []]. simpl.
    apply float_ltb_false_key; [exact Hc | exact Hc |].
    destruct (sf_key (Prim2SF cur)) as [[a b] c]. unfold key_lt. lia.
  - cbn [forallb] in Hl. apply andb_true_iff in Hl. destruct Hl as [Hy Hl].
    cbn [py_max_from nltb float_ops].
    set (cur' := if (cur <? y)%float then y else cur).
    assert (Hc' : float_is_finite cur' = true)
      by (subst cur'; now destruct (cur <? y)%float).
    pose proof (IH cur' Hc' Hl) as Hup.
    destruct Hx as [<- | [<- | Hx]]; [| | apply Hup; now right].
    + pose proof (Hup cur' (or_introl eq_refl)) as H1.
      assert (Hr : float_is_finite (py_max_from cur' l) = true).
      { destruct (py_max_from_In cur' l) as [<- | Hin]; [exact Hc' |].
        rewrite forallb_forall in Hl. now apply Hl. }
      apply float_ltb_false_key in H1; [| exact Hr | exact Hc'].
      apply float_ltb_false_key; [exact Hr | exact Hc |].
      subst cur'. destruct (cur <? y)%float eqn:E; [| exact H1].
      apply float_ltb_finite_key in E; [| exact Hc | exact Hy].
      destruct (sf_key (Prim2SF cur)) as [[a b] c].
      destruct (sf_key (Prim2SF y)) as [[a' b'] c'].
      destruct (sf_key (Prim2SF (py_max_from y l))) as [[a'' b''] c''].
      unfold key_lt in *. lia.
    + pose proof (Hup cur' (or_introl eq_refl)) as H1.
      assert (Hr : float_is_finite (py_max_from cur' l) = true).
      { destruct (py_max_from_In cur' l) as [<- | Hin]; [exact Hc' |].
        rewrite forallb_forall in Hl. now apply Hl. }
      apply float_ltb_false_key in H1; [| exact Hr | exact Hc'].
      apply float_ltb_false_key; [exact Hr | exact Hy |].
      subst cur'. destruct (cur <? y)%float eqn:E; [exact H1 |].
      apply float_ltb_false_key in E; [| exact Hc | exact Hy].
      destruct (sf_key (Prim2SF cur)) as [[a b] c].
      destruct (sf_key (Prim2SF y)) as [[a' b'] c'].
      destruct (sf_key (Prim2SF (py_max_from cur l))) as [[a'' b''] c''].
      unfold key_lt in *. lia.
Qed.

(** The divisor of normalization on a vector of finite entries, one of
    them not zero: a positive finite number, equal to an entry or to its
    opposite, and below the absolute value of no entry. *)
Lemma normalizer_spec (x : float) (a : list float) :
  forallb float_is_finite (x :: a) = true ->
  existsb (fun y => negb (y =? 0)%float) (x :: a) = true ->
  let m := py_max2 (py_max_from x a) (py_max_from (- x)%float (map nopp a)) in
  (exists mm em, Prim2SF m = S754_finite false mm em) /\
  (exists y, In y (x :: a) /\ (y = m \/ y = (- m)%float)) /\
  (forall y, In y (x :: a) -> (m <? abs y)%float = false).
Proof.
  intros Hfin Hnz m.
  assert (Hfin' : forallb float_is_finite (map nopp (x :: a)) = true).
  { rewrite forallb_forall in *. intros y Hy. apply in_map_iff in Hy.
    destruct Hy as (z & <- & Hz). cbn [nopp float_ops].
    rewrite float_is_finite_opp. now apply Hfin. }
  pose proof Hfin as Hf0. cbn [forallb] in Hf0.
  apply andb_true_iff in Hf0. destruct Hf0 as [Hx Ha].
  pose proof Hfin' as Hf1. cbn [map forallb nopp float_ops] in Hf1.
  apply andb_true_iff in Hf1. destruct Hf1 as [Hx' Ha'].
  set (m1 := py_max_from x a) in *.
  set (m2 := py_max_from (- x)%float (map nopp a)) in *.
  pose proof (py_max_from_In x a) as In1. fold m1 in In1.
  pose proof (py_max_from_In (- x)%float (map nopp a)) as In2. fold m2 in In2.
  pose proof (py_max_from_upper x a Hx Ha) as Up1. fold m1 in Up1.
  pose proof (py_max_from_upper (- x)%float (map nopp a) Hx' Ha') as Up2.
  fold m2 in Up2.
  assert (F1 : float_is_finite m1 = true)
    by (rewrite forallb_forall in Hfin; now apply Hfin).
  assert (F2 : float_is_finite m2 = true).
  { rewrite forallb_forall in Hfin'. apply Hfin'. exact In2. }
  assert (Em : m = if (m1 <? m2)%float then m2 else m1) by reflexivity.
  assert (Fm : float_is_finite m = true)
    by (rewrite Em; now destruct (m1 <? m2)%float).
  assert (Hboth : forall y, In y (x :: a) ->
                            (m <? y)%float = false /\ (m <? - y)%float = false).
  { intros y Hy.
    assert (Fy : float_is_finite y = true)
      by (rewrite forallb_forall in Hfin; now apply Hfin).
    assert (Fy' : float_is_finite (- y) = true)
      by (now rewrite float_is_finite_opp).
    pose proof (Up1 y Hy) as U1.
    pose proof (Up2 (- y)%float (in_map nopp (x :: a) y Hy)) as U2.
    apply float_ltb_false_key in U1; [| exact F1 | exact Fy].
    apply float_ltb_false_key in U2; [| exact F2 | exact Fy'].
    rewrite Em.
    destruct (m1 <? m2)%float eqn:E.
    - apply float_ltb_finite_key in E; [| exact F1 | exact F2].
      split; apply float_ltb_false_key; try assumption.
      destruct (sf_key (Prim2SF m1)) as [[a1 b1] c1].
      destruct (sf_key (Prim2SF m2)) as [[a2 b2] c2].
      destruct (sf_key (Prim2SF y)) as [[a3 b3] c3].
      unfold key_lt in *. lia.
    - apply float_ltb_false_key in E; [| exact F1 | exact F2].
      split; apply float_ltb_false_key; try assumption.
      destruct (sf_key (Prim2SF m1)) as [[a1 b1] c1].
      destruct (sf_key (Prim2SF m2)) as [[a2 b2] c2].
      destruct (sf_key (Prim2SF (- y))) as [[a3 b3] c3].
      unfold key_lt in *. lia. }
  assert (Habs : forall y, In y (x :: a) -> (m <? abs y)%float = false).
  { intros y Hy. destruct (Hboth y Hy) as [H1 H2].
    destruct (float_abs_cases y) as [-> | ->]; assumption. }
  split; [| split; [| exact Habs]].
  - apply existsb_exists in Hnz. destruct Hnz as (y0 & Hy0 & Ny0).
    apply negb_true_iff in Ny0.
    assert (Fy : float_is_finite y0 = true)
      by (rewrite forallb_forall in Hfin; now apply Hfin).
    pose proof (Habs y0 Hy0) as H.
    rewrite ltb_spec, abs_spec in H. rewrite eqb_spec in Ny0.
    change (Prim2SF 0) with (S754_zero false) in Ny0.
    unfold float_is_finite in Fy, Fm.
    destruct (Prim2SF y0) as [s | s | | s my ey]; try discriminate.
    destruct (Prim2SF m) as [s' | s' | | s' mm em]; try discriminate.
    destruct s'; [cbn in H; discriminate H | eauto].
  - rewrite Em. destruct (m1 <? m2)%float.
    + change ((- x)%float :: map nopp a) with (map nopp (x :: a)) in In2.
      apply in_map_iff in In2. destruct In2 as (y & E & Hy).
      exists y. split; [exact Hy | right].
      rewrite <- E. cbn [nopp float_ops]. now rewrite float_opp_involutive.
    + exists m1. split; [exact In1 | now left].
Qed.

(** Normalization of such a vector divides every entry by that number. *)
Lemma normalize_step_finite (a : list float) :
  forallb float_is_finite a = true ->
  existsb (fun y => negb (y =? 0)%float) a = true ->
  exists (m : float) (mm : positive) (em : Z),
    normalize_step true a = OK (map (fun x => x / m)%float a) /\
    Prim2SF m = S754_finite false mm em /\
    (exists y, In y a /\ (y = m \/ y = (- m)%float)) /\
    (forall y, In y a -> (m <? abs y)%float = false).
Proof.
  intros Hfin Hnz. destruct a as [| x a]; [discriminate Hnz |].
  destruct (normalizer_spec x a Hfin Hnz) as ((mm & em & Em) & Hat & Hup).
  exists (py_max2 (py_max_from x a) (py_max_from (- x)%float (map nopp a))), mm, em.
  split; [reflexivity |]. auto.
Qed.




(** * Further properties of the salience filter *)

(** ** How many entries stay *)





(** ** What is kept under each setting *)



(** ** A negative fraction *)



(** * Normalization twice *)

Lemma float_div_one (x : float) : (x / 1)%float = x.
Proof.
  apply Prim2SF_inj. rewrite div_spec.
  change (Prim2SF 1) with (S754_finite false 4503599627370496 (-52)).
  destruct (Prim2SF x) as [s | s | | s m e] eqn:E; try reflexivity.
  - cbn. now rewrite xorb_false_r.
  - cbn. now rewrite xorb_false_r.
  - destruct (valid_finite x s m e E) as [C B].
    unfold SF64div. now apply SFdiv_one.
Qed.

(** The divisor of a second normalization is one. *)
Lemma normalizer_of_normalized (out : list float) (m' : float) (mm : positive)
      (em : Z) :
  Prim2SF m' = S754_finite false mm em ->
  (exists y, In y out /\ (y = m' \/ y = (- m')%float)) ->
  (forall y, In y out -> (m' <? abs y)%float = false) ->
  (forall y, In y out -> (1 <? abs y)%float = false) ->
  (exists z, In z out /\ abs z = 1%float) ->
  m' = 1%float.
Proof.
  intros Em (y1 & Hy1 & Ey1) Hup Hle (z & Hz & Ez).
  destruct (float_abs_positive m' mm em Em) as [A1 A2].
  assert (H1 : (1 <? abs m')%float = false).
  { rewrite A1. specialize (Hle y1 Hy1).
    destruct Ey1 as [-> | ->]; [now rewrite A1 in Hle | now rewrite A2 in Hle]. }
  assert (H2 : (abs m' <? 1)%float = false).
  { rewrite A1. specialize (Hup z Hz). now rewrite Ez in Hup. }
  assert (Fm : float_is_finite m' = true)
    by (unfold float_is_finite; now rewrite Em).
  destruct (float_abs_eq_max m' 1%float 4503599627370496 (-52) Fm eq_refl H1 H2)
    as [E | E]; [exact E |].
  exfalso. apply (f_equal Prim2SF) in E. rewrite Em in E. discriminate E.
Qed.

(** X4: normalization is idempotent on a vector of finite entries, one of
    them not zero: normalizing the displayed vector once more displays the
    same vector (binary64). *)
Theorem normalization_idempotent :
  forall (argsort : list float -> list nat) (L T : Type)
         (a out : list float) (text : list T) (pred delta : float) (lbl : L)
         (mtp : bool),
    forallb float_is_finite a = true ->
    existsb (fun x => negb (x =? 0)%float) a = true ->
    displayed (visualization_record argsort a text pred delta lbl
                 true None mtp) = OK out ->
    displayed (visualization_record argsort out text pred delta lbl
                 true None mtp) = OK out.
Proof.
  intros argsort L T a out text pred delta lbl mtp Hfin Hnz Hout.
  destruct (normalize_step_finite a Hfin Hnz)
    as (m & mm & em & En & Em & (y0 & Hy0 & Ey0) & Hup).
  unfold displayed, visualization_record in Hout. rewrite En in Hout.
  cbn [bind select_step word_attributions] in Hout. injection Hout as <-.
  set (out := map (fun x => (x / m)%float) a).
  assert (Hent : forall y, In y out ->
                           float_is_finite y = true /\ (1 <? abs y)%float = false).
  { intros y Hy. apply in_map_iff in Hy. destruct Hy as (x & <- & Hx).
    assert (Fx : float_is_finite x = true)
      by (rewrite forallb_forall in Hfin; now apply Hfin).
    destruct (float_div_sub_unit x m mm em Fx Em (Hup _ Hx)) as (F & H & _).
    now split. }
  assert (Hz : exists z, In z out /\ abs z = 1%float).
  { exists (y0 / m)%float. split; [now apply (in_map (fun x => (x / m)%float)) |].
    destruct (float_div_same m mm em Em) as [E1 E2].
    destruct Ey0 as [-> | ->]; [now rewrite E1 | now rewrite E2]. }
  assert (Hfin' : forallb float_is_finite out = true).
  { apply forallb_forall. intros y Hy. now apply Hent. }
  assert (Hnz' : existsb (fun x => negb (x =? 0)%float) out = true).
  { destruct Hz as (z & Hz & Ez). apply existsb_exists. exists z.
    split; [exact Hz |].
    destruct (float_abs_cases z) as [E | E]; rewrite E in Ez.
    - now rewrite Ez.
    - apply (f_equal PrimFloat.opp) in Ez. rewrite float_opp_involutive in Ez.
      now rewrite Ez. }
  destruct (normalize_step_finite out Hfin' Hnz')
    as (m' & mm' & em' & En' & Em' & Hat' & Hup').
  assert (E1 : m' = 1%float).
  { apply (normalizer_of_normalized out m' mm' em' Em' Hat' Hup'); [| exact Hz].
    intros y Hy. now apply Hent. }
  unfold displayed, visualization_record. rewrite En', E1.
  cbn [bind select_step word_attributions]. f_equal.
  rewrite <- (map_id out) at 2. apply map_ext. apply float_div_one.
Qed.

Lemma normalization_idempotent_witness :
  displayed (visualization_record (@stable_argsort float float_ops)
               [0.25; -1; 0.125]%float ["a"; "b"; "c"]%string
               0.3%float 0%float 1%Z true None false)
  = OK [0.25; -1; 0.125]%float.
Proof.
  refine (normalization_idempotent (@stable_argsort float float_ops) Z string
            [0.2; -0.8; 0.1]%float [0.25; -1; 0.125]%float
            ["a"; "b"; "c"]%string 0.3%float 0%float 1%Z false _ _ _);
    reflexivity.
Defined.

